(** * The pongo2 template lexer (lexer.go), embedded and verified

    The Go source keeps a mutable [lexer] record (byte offsets [start] and
    [pos] into an immutable input string, the width of the last rune, the
    running and the recorded line/column, the token list and an [errored]
    flag) and drives it with a chain of state functions.  The embedding
    below keeps that shape: a record, one Rocq function per Go method, every
    Go [for] loop a fixpoint on a fuel counter ([None] = out of fuel), and
    the state functions an enumeration dispatched by [tokenize].

    Go strings are byte sequences: [gostring := list ascii].  Byte offsets
    are [nat]; runes, lines and columns are [Z]. *)

From Stdlib Require Import Ascii String ZArith Bool Lia DecimalString List.
Import ListNotations.
Open Scope Z_scope.

(** ** Go strings *)

Definition gostring := list ascii.

Definition str (s : string) : gostring := list_ascii_of_string s.

(** The double quote, the newline and the byte 0x01. *)
Definition dquote : ascii := "034"%char.
Definition newline : ascii := "010"%char.
Definition soh : ascii := "001"%char.

Definition byteZ (c : ascii) : Z := Z.of_N (N_of_ascii c).

Definition gostring_eqb (a b : gostring) : bool :=
  if list_eq_dec ascii_dec a b then true else false.

(** [s[i:j]] and [s[i:]] for offsets within range (Go panics otherwise;
    [run_spec] below shows the lexer keeps [start <= pos <= len]). *)
Definition slice (s : gostring) (i j : nat) : gostring := firstn (j - i) (skipn i s).
Definition slice_from (s : gostring) (i : nat) : gostring := skipn i s.

(** strings.HasPrefix: [len(s) >= len(prefix) && s[:len(prefix)] == prefix]. *)
Definition HasPrefix (s prefix : gostring) : bool :=
  (length prefix <=? length s)%nat && gostring_eqb (firstn (length prefix) s) prefix.

(** ** unicode/utf8.DecodeRuneInString *)

Definition RuneError : Z := 0xFFFD.
Definition RuneSelf : Z := 0x80.

Definition maskx : Z := 0x3F.
Definition mask2 : Z := 0x1F.
Definition mask3 : Z := 0x0F.
Definition mask4 : Z := 0x07.
Definition locb : Z := 0x80.
Definition hicb : Z := 0xBF.

Definition xx : Z := 0xF1.
Definition as_ : Z := 0xF0.
Definition s1 : Z := 0x02.
Definition s2 : Z := 0x13.
Definition s3 : Z := 0x03.
Definition s4 : Z := 0x23.
Definition s5 : Z := 0x34.
Definition s6 : Z := 0x04.
Definition s7 : Z := 0x44.

(** The table [first], by ranges of the leading byte. *)
Definition first (b : Z) : Z :=
  if b <? 0x80 then as_
  else if b <? 0xC2 then xx
  else if b <? 0xE0 then s1
  else if b =? 0xE0 then s2
  else if b <? 0xED then s3
  else if b =? 0xED then s4
  else if b <? 0xF0 then s3
  else if b =? 0xF0 then s5
  else if b <? 0xF4 then s6
  else if b =? 0xF4 then s7
  else xx.

Definition acceptRanges (i : Z) : Z * Z :=
  if i =? 1 then (0xA0, hicb)
  else if i =? 2 then (locb, 0x9F)
  else if i =? 3 then (0x90, hicb)
  else if i =? 4 then (locb, 0x8F)
  else (locb, hicb).

Definition out_of (b lo hi : Z) : bool := (b <? lo) || (hi <? b).

(** Returns the rune and its width in bytes.  For [x >= as] the Go code
    returns [s[0] &^ mask | RuneError & mask] where [mask] is all ones
    exactly when the low bit of [x] is set ([x = xx]). *)
Definition DecodeRuneInString (s : gostring) : Z * nat :=
  match s with
  | [] => (RuneError, 0%nat)
  | c0 :: t0 =>
    let b0 := byteZ c0 in
    let x := first b0 in
    if as_ <=? x then ((if Z.odd x then RuneError else b0), 1%nat)
    else
      let sz := Z.land x 7 in
      let '(lo, hi) := acceptRanges (Z.shiftr x 4) in
      if Z.of_nat (length s) <? sz then (RuneError, 1%nat)
      else match t0 with
      | [] => (RuneError, 1%nat)
      | c1 :: t1 =>
        let b1 := byteZ c1 in
        if out_of b1 lo hi then (RuneError, 1%nat)
        else if sz <=? 2 then
          (Z.lor (Z.shiftl (Z.land b0 mask2) 6) (Z.land b1 maskx), 2%nat)
        else match t1 with
        | [] => (RuneError, 1%nat)
        | c2 :: t2 =>
          let b2 := byteZ c2 in
          if out_of b2 locb hicb then (RuneError, 1%nat)
          else if sz <=? 3 then
            (Z.lor (Z.lor (Z.shiftl (Z.land b0 mask3) 12)
                          (Z.shiftl (Z.land b1 maskx) 6))
                   (Z.land b2 maskx), 3%nat)
          else match t2 with
          | [] => (RuneError, 1%nat)
          | c3 :: _ =>
            let b3 := byteZ c3 in
            if out_of b3 locb hicb then (RuneError, 1%nat)
            else
              (Z.lor (Z.lor (Z.lor (Z.shiftl (Z.land b0 mask4) 18)
                                   (Z.shiftl (Z.land b1 maskx) 12))
                            (Z.shiftl (Z.land b2 maskx) 6))
                     (Z.land b3 maskx), 4%nat)
          end
        end
      end
  end.

(** strings.IndexByte. *)
Fixpoint IndexByte_from (i : Z) (s : gostring) (b : Z) : Z :=
  match s with
  | [] => -1
  | c :: t => if byteZ c =? b then i else IndexByte_from (i + 1) t b
  end.

Definition IndexByte (s : gostring) (b : Z) : Z := IndexByte_from 0 s b.

(** strings.IndexRune.  Every call site passes one of the ASCII tables
    below; on such a string the branches for [RuneError], for invalid runes
    and for multi-byte runes all return -1. *)
Definition IndexRune (s : gostring) (r : Z) : Z :=
  if (0 <=? r) && (r <? RuneSelf) then IndexByte s r else -1.

(** ** Constants and tables of lexer.go *)

Definition TokenType := Z.

Definition TokenError : TokenType := 0.
Definition EOF : Z := 1.
Definition TokenHTML : TokenType := 2.
Definition TokenKeyword : TokenType := 3.
Definition TokenIdentifier : TokenType := 4.
Definition TokenString : TokenType := 5.
Definition TokenNumber : TokenType := 6.
Definition TokenSymbol : TokenType := 7.

Definition tokenSpaceChars : gostring := [" "; "010"; "013"; "009"]%char.
Definition tokenIdentifierChars : gostring :=
  str "abcdefghijklmnopqrstuvwxyzABCDEFGHIJKLMNOPQRSTUVWXYZ_".
Definition tokenDigits : gostring := str "0123456789".
Definition tokenSymbols : list gostring :=
  map str
    ["=="; ">="; "<="; "&&"; "||"; "{{"; "}}"; "{%"; "%}"; "!="; "<>";
     "("; ")"; "+"; "-"; "*"; "<"; ">"; "/"; "^"; ","; "."; "!"; "|"; ":"; "="]%string.
Definition tokenKeywords : list gostring :=
  map str ["in"; "and"; "or"; "not"; "true"; "false"]%string.

Record Token := mkToken {
  Typ : TokenType;
  Val : gostring;
  Line : Z;
  Col : Z
}.

Inductive lexerStateFn := StateCode | StateIdentifier | StateNumber | StateString.

Record lexer := mkLexer {
  name : gostring;
  input : gostring;
  start : nat;
  pos : nat;
  width : nat;
  tokens : list Token;
  errored : bool;
  startline : Z;
  startcol : Z;
  line : Z;
  col : Z
}.

Definition set_start (v : nat) (l : lexer) : lexer :=
  mkLexer (name l) (input l) v (pos l) (width l) (tokens l) (errored l)
          (startline l) (startcol l) (line l) (col l).
Definition set_pos (v : nat) (l : lexer) : lexer :=
  mkLexer (name l) (input l) (start l) v (width l) (tokens l) (errored l)
          (startline l) (startcol l) (line l) (col l).
Definition set_width (v : nat) (l : lexer) : lexer :=
  mkLexer (name l) (input l) (start l) (pos l) v (tokens l) (errored l)
          (startline l) (startcol l) (line l) (col l).
Definition set_line (v : Z) (l : lexer) : lexer :=
  mkLexer (name l) (input l) (start l) (pos l) (width l) (tokens l) (errored l)
          (startline l) (startcol l) v (col l).
Definition set_col (v : Z) (l : lexer) : lexer :=
  mkLexer (name l) (input l) (start l) (pos l) (width l) (tokens l) (errored l)
          (startline l) (startcol l) (line l) v.

(** [l.pos += n; l.col += n]. *)
Definition advance (n : nat) (l : lexer) : lexer :=
  set_col (col l + Z.of_nat n) (set_pos (pos l + n) l).

Definition itoa (z : Z) : gostring := str (NilZero.string_of_int (Z.to_int z)).

(** ** The lexer *)

Section Lexer.

(** [fmt.Sprintf("%q", r)] for a rune: Go's quoted character literal.  It
    depends on Unicode tables (printability) and is only used to build the
    text of the "Unknown character" message. *)
Variable quoteRune : Z -> gostring.

Definition value (l : lexer) : gostring := slice (input l) (start l) (pos l).

Definition emit (t : TokenType) (l : lexer) : lexer :=
  mkLexer (name l) (input l) (pos l) (pos l) (width l)
          (tokens l ++ [mkToken t (value l) (startline l) (startcol l)])
          (errored l) (line l) (col l) (line l) (col l).

Definition next (l : lexer) : Z * lexer :=
  if (length (input l) <=? pos l)%nat then (EOF, set_width 0 l)
  else
    let '(r, w) := DecodeRuneInString (slice_from (input l) (pos l)) in
    (r, set_pos (pos l + w) (set_width w l)).

(** Always called after [next], so that [width <= pos]. *)
Definition backup (l : lexer) : lexer := set_pos (pos l - width l) l.

Definition peek (l : lexer) : Z * lexer :=
  let '(r, l1) := next l in (r, backup l1).

Definition ignore (l : lexer) : lexer := set_start (pos l) l.

Definition accept (what : gostring) (l : lexer) : bool * lexer :=
  let '(r, l1) := next l in
  if 0 <=? IndexRune what r then (true, l1) else (false, backup l1).

Fixpoint acceptRun (fuel : nat) (what : gostring) (l : lexer) : option lexer :=
  match fuel with
  | O => None
  | S f =>
    let '(r, l1) := next l in
    if 0 <=? IndexRune what r then acceptRun f what l1 else Some (backup l1)
  end.

(** [errorf] with the message already formatted; the Go function returns the
    nil state, which the callers below supply. *)
Definition errorf (msg : gostring) (l : lexer) : lexer :=
  mkLexer (name l) (input l) (start l) (pos l) (width l)
          (tokens l ++ [mkToken TokenError msg (startline l) (startcol l)])
          true (line l) (col l) (line l) (col l).

Definition eof (l : lexer) : bool :=
  Z.of_nat (length (input l)) - 1 <=? Z.of_nat (start l).

Definition msgCommentNotClosed : gostring := str "Single-line comment not closed.".
Definition msgCommentNewline : gostring :=
  str "Newline not permitted in a single-line comment.".
Definition msgStringNotClosed : gostring := str "Unexpected EOF, string not closed.".
Definition msgUnknownChar (r1 r2 : Z) : gostring :=
  str "Unknown character: " ++ quoteRune r1 ++ str " (" ++ itoa r2 ++ str ")".

(** *** stateIdentifier, stateNumber, stateString *)

Fixpoint isKeyword (kws : list gostring) (v : gostring) : bool :=
  match kws with
  | [] => false
  | kw :: rest => if gostring_eqb kw v then true else isKeyword rest v
  end.

Definition add_col_value (l : lexer) : lexer :=
  set_col (col l + Z.of_nat (length (value l))) l.

Definition stateIdentifier (fuel : nat) (l : lexer) : option (lexer * option lexerStateFn) :=
  match acceptRun fuel tokenIdentifierChars l with
  | None => None
  | Some l1 =>
    match acceptRun fuel tokenDigits l1 with
    | None => None
    | Some l2 =>
      if isKeyword tokenKeywords (value l2)
      then Some (emit TokenKeyword l2, Some StateCode)
      else Some (emit TokenIdentifier (add_col_value l2), Some StateCode)
    end
  end.

Definition stateNumber (fuel : nat) (l : lexer) : option (lexer * option lexerStateFn) :=
  match acceptRun fuel tokenDigits l with
  | None => None
  | Some l1 => Some (emit TokenNumber (add_col_value l1), Some StateCode)
  end.

(** The loop [for !l.accept(quote) { if l.next() == EOF { return errorf } }]:
    [true] when the closing quote was accepted, [false] on the error return. *)
Fixpoint stringBody (fuel : nat) (l : lexer) : option (lexer * bool) :=
  match fuel with
  | O => None
  | S f =>
    let '(b, l1) := accept [dquote] l in
    if b then Some (l1, true)
    else
      let '(r, l2) := next l1 in
      if r =? EOF then Some (errorf msgStringNotClosed l2, false)
      else stringBody f l2
  end.

Definition stateString (fuel : nat) (l : lexer) : option (lexer * option lexerStateFn) :=
  match stringBody fuel (ignore l) with
  | None => None
  | Some (l1, false) => Some (l1, None)
  | Some (l1, true) =>
    let l2 := emit TokenString (add_col_value (backup l1)) in
    let '(_, l3) := next l2 in
    Some (ignore l3, Some StateCode)
  end.

(** *** stateCode *)

(** The [for _, sym := range tokenSymbols] loop: the first symbol that is a
    prefix of [l.input[l.start:]] is consumed and emitted. *)
Fixpoint matchSymbol (syms : list gostring) (l : lexer) : option (gostring * lexer) :=
  match syms with
  | [] => None
  | sym :: rest =>
    if HasPrefix (slice_from (input l) (start l)) sym
    then Some (sym, emit TokenSymbol (advance (length sym) l))
    else matchSymbol rest l
  end.

(** Outcome of one pass through the body of [outer_loop]. *)
Inductive codeStep :=
| Continue (l : lexer)
| Return (l : lexer) (st : option lexerStateFn).

Definition codeBody (l : lexer) : codeStep :=
  let '(sp, l1) := accept tokenSpaceChars l in
  if sp then
    Continue (ignore (if gostring_eqb (value l1) [newline]
                      then set_col 1 (set_line (line l1 + 1) l1)
                      else set_col (col l1 + 1) l1))
  else
  let '(id, l2) := accept tokenIdentifierChars l1 in
  if id then Return l2 (Some StateIdentifier) else
  let '(dg, l3) := accept tokenDigits l2 in
  if dg then Return l3 (Some StateNumber) else
  let '(qt, l4) := accept [dquote] l3 in
  if qt then Return l4 (Some StateString) else
  match matchSymbol tokenSymbols l4 with
  | Some (sym, l5) =>
    if gostring_eqb sym (str "%}") || gostring_eqb sym (str "}}")
    then Return l5 None
    else Continue l5
  | None =>
    if (pos l4 <? length (input l4))%nat then
      let '(r1, l5) := peek l4 in
      let '(r2, l6) := peek l5 in
      Return (errorf (msgUnknownChar r1 r2) l6) None
    else Return l4 None
  end.

Fixpoint stateCode (fuel : nat) (l : lexer) : option (lexer * option lexerStateFn) :=
  match fuel with
  | O => None
  | S f =>
    match codeBody l with
    | Continue l1 => stateCode f l1
    | Return l1 st => Some (l1, st)
    end
  end.

Definition callState (fuel : nat) (st : lexerStateFn) (l : lexer)
  : option (lexer * option lexerStateFn) :=
  match st with
  | StateCode => stateCode fuel l
  | StateIdentifier => stateIdentifier fuel l
  | StateNumber => stateNumber fuel l
  | StateString => stateString fuel l
  end.

(** [for state := l.stateCode; state != nil; { state = state() }] *)
Fixpoint tokenizeFrom (fuel : nat) (state : option lexerStateFn) (l : lexer) : option lexer :=
  match state with
  | None => Some l
  | Some st =>
    match fuel with
    | O => None
    | S f =>
      match callState f st l with
      | None => None
      | Some (l1, st1) => tokenizeFrom f st1 l1
      end
    end
  end.

Definition tokenize (fuel : nat) (l : lexer) : option lexer :=
  tokenizeFrom fuel (Some StateCode) l.

(** *** run *)

Definition flushHTML (l : lexer) : lexer :=
  if (start l <? pos l)%nat then emit TokenHTML l else l.

(** The inner loop of the comment branch: [true] after passing the closing
    delimiter, [false] when [run] returns on an error. *)
Fixpoint commentBody (fuel : nat) (l : lexer) : option (lexer * bool) :=
  match fuel with
  | O => None
  | S f =>
    let '(r, l1) := peek l in
    if r =? EOF then Some (errorf msgCommentNotClosed l1, false)
    else if r =? byteZ newline then Some (errorf msgCommentNewline l1, false)
    else if HasPrefix (slice_from (input l1) (pos l1)) (str "#}")
    then Some (advance 2 l1, true)
    else commentBody f (advance 1 l1)
  end.

Fixpoint run (fuel : nat) (l : lexer) : option lexer :=
  match fuel with
  | O => None
  | S f =>
    if HasPrefix (slice_from (input l) (pos l)) (str "{#") then
      match commentBody f (advance 2 (flushHTML l)) with
      | None => None
      | Some (l1, false) => Some l1
      | Some (l1, true) => run f (ignore l1)
      end
    else if HasPrefix (slice_from (input l) (pos l)) (str "{{")
            || HasPrefix (slice_from (input l) (pos l)) (str "{%") then
      match tokenize f (flushHTML l) with
      | None => None
      | Some l1 => if errored l1 then Some l1 else run f l1
      end
    else
      let '(r, l1) := peek l in
      let l2 := if r =? byteZ newline
                then set_col 1 (set_line (line l1 + 1) l1)
                else set_col (col l1 + 1) l1 in
      let '(r', l3) := next l2 in
      if r' =? EOF then Some (flushHTML l3) else run f l3
  end.

(** *** lex *)

Inductive result :=
| Tokens (ts : list Token)
| LexError (msg : gostring).

Definition newLexer (nm inp : gostring) : lexer :=
  mkLexer nm inp 0 0 0 [] false 1 1 1 1.

Definition lexErrorText (nm : gostring) (t : Token) : gostring :=
  str "[Lexer Error in " ++ nm ++ str " (Line " ++ itoa (Line t) ++ str " Col "
    ++ itoa (Col t) ++ str ")]: " ++ Val t.

(** Fuel that [lex_total] shows to be enough for every input. *)
Definition lexFuel (inp : gostring) : nat := 2 * length inp + 4.

(** The two return statements of [lex].  With [errored] set the token list
    is not empty ([lex_run]), so the default of [last] is never
    used. *)
Definition lexResult (l : lexer) : result :=
  if errored l
  then LexError (lexErrorText (name l) (last (tokens l) (mkToken TokenError [] 0 0)))
  else Tokens (tokens l).

Definition lex (nm inp : gostring) : option result :=
  option_map lexResult (run (lexFuel inp) (newLexer nm inp)).

End Lexer.

(** ** Vocabulary of the specification *)

(** Tables made of ASCII bytes only. *)
Definition asciiTable (what : gostring) : Prop := forall c, In c what -> byteZ c < 128.

(** The source text a token stands for: its [Val], with the two quote
    characters put back around the text of a String token. *)
Definition text (t : Token) : gostring :=
  if Typ t =? TokenString then dquote :: Val t ++ [dquote] else Val t.

Definition render (ts : list Token) : gostring := concat (map text ts).

Definition nonError (t : Token) : Prop := Typ t <> TokenError.

(** What the lexer discards by design: one white-space character in code
    mode, or a whole single-line comment. *)
Inductive Gap : gostring -> Prop :=
| gap_space (c : ascii) : In c tokenSpaceChars -> Gap [c]
| gap_comment (body : gostring) : ~ In newline body -> Gap (str "{#" ++ body ++ str "#}").

(** [Recon ts s]: the string [s] is the texts of the tokens [ts], in order,
    with discarded gaps in between. *)
Inductive Recon : list Token -> gostring -> Prop :=
| recon_nil : Recon [] []
| recon_token (ts : list Token) (s : gostring) (t : Token) :
    Recon ts s -> Recon (ts ++ [t]) (s ++ text t)
| recon_gap (ts : list Token) (s g : gostring) :
    Recon ts s -> Gap g -> Recon ts (s ++ g).

(** Offsets in range and positions 1-based. *)
Record wf (l : lexer) : Prop := mkWf {
  wf_start : (start l <= pos l)%nat;
  wf_pos : (pos l <= length (input l))%nat;
  wf_line : 1 <= line l;
  wf_col : 1 <= col l;
  wf_startline : 1 <= startline l;
  wf_startcol : 1 <= startcol l
}.

(** A lexer that has not failed: no Error token, and the tokens so far
    account for the input up to [start]. *)
Record ok (l : lexer) : Prop := mkOk {
  ok_errored : errored l = false;
  ok_tokens : Forall nonError (tokens l);
  ok_recon : Recon (tokens l) (firstn (start l) (input l))
}.

Section Messages.

Variable quoteRune : Z -> gostring.

Definition isLexMessage (m : gostring) : Prop :=
  m = msgCommentNotClosed \/ m = msgCommentNewline \/ m = msgStringNotClosed
  \/ exists r1 r2, m = msgUnknownChar quoteRune r1 r2.

(** A lexer that has failed: [errored] is set and the Error token is the
    last token and the only one of its kind. *)
Record failed (l : lexer) : Prop := mkFailed {
  failed_errored : errored l = true;
  failed_tokens : exists ts t,
    tokens l = ts ++ [t] /\ Forall nonError ts /\ Typ t = TokenError
    /\ 1 <= Line t /\ 1 <= Col t /\ isLexMessage (Val t)
}.

(** How a later state [l'] relates to the state [l] it was computed from. *)
Record follows (l l' : lexer) : Prop := mkFollows {
  fo_input : input l' = input l;
  fo_name : name l' = name l;
  fo_wf : wf l';
  fo_pos : (pos l <= pos l')%nat;
  fo_end : failed l' \/ (ok l' /\ start l' = pos l')
}.

End Messages.

(** The byte at offset [p], if any, is not in [what]: the run cannot be
    extended. *)
Definition stopsAt (what inp : gostring) (p : nat) : Prop :=
  forall c, nth_error inp p = Some c -> ~ In c what.

(** The test [sym == "%}" || sym == "}}"] of [stateCode]. *)
Definition closesTag (sym : gostring) : bool :=
  gostring_eqb sym (str "%}") || gostring_eqb sym (str "}}").

(** The first eleven entries of the symbol table. *)
Definition twoCharSymbols : list gostring := firstn 11 tokenSymbols.

(** The kinds and texts of a token list. *)
Definition kinds (ts : list Token) : list (TokenType * gostring) :=
  map (fun t => (Typ t, Val t)) ts.

(** Lexer states used as instances: in code mode before [==], inside an
    identifier, inside a number, inside a string literal that is never
    closed, at the end of the input in code mode, in text mode on a byte
    0x01, and inside a string literal holding a byte 0x01. *)
Definition atSymbol : lexer :=
  mkLexer (str "t") (str "{{ a == b }}") 5 5 0 [] false 1 6 1 6.
Definition inIdentifier : lexer :=
  mkLexer (str "t") (str "{{ and1 }}") 3 4 1 [] false 1 3 1 4.
Definition inNumber : lexer :=
  mkLexer (str "t") (str "{{ 4.2 }}") 3 4 1 [] false 1 3 1 4.
Definition inOpenString : lexer :=
  mkLexer (str "t") (str "{{ " ++ dquote :: str "abc }}") 3 4 1 [] false 1 3 1 4.
Definition atEnd : lexer :=
  mkLexer (str "t") (str "{{ foo") 6 6 0 [] false 1 6 1 6.
Definition atSoh : lexer :=
  mkLexer (str "t") (str "a" ++ soh :: str "b") 0 1 1 [] false 1 1 1 2.
Definition inSohString : lexer :=
  mkLexer (str "t") (str "{{ " ++ dquote :: str "a" ++ soh :: str "b" ++ dquote :: str " }}")
          3 4 1 [] false 1 3 1 4.

(** What each state function expects on entry. *)
Definition ready (st : lexerStateFn) (l : lexer) : Prop :=
  wf l /\ ok l /\
  match st with
  | StateCode => start l = pos l
  | StateIdentifier | StateNumber => True
  | StateString => pos l = S (start l) /\ nth_error (input l) (start l) = Some dquote
  end.

(** Steps of [tokenizeFrom] still possible from a state. *)
Definition stepsLeft (st : lexerStateFn) (l : lexer) : nat :=
  2 * (length (input l) - pos l) + match st with StateCode => 1 | _ => 2 end.

(** A rendering of [%q] that is right for printable ASCII other than the
    single quote and the backslash; used where an instance is needed. *)
Definition quoteASCII (r : Z) : gostring :=
  str "'" ++ [ascii_of_N (Z.to_N r)] ++ str "'".

(** Following the words of the specification (section 3): the 1-based line
    and column of the character at byte offset [off], counted in decoded
    characters, the column reset to 1 and the line incremented at every
    newline before [off]. *)
Fixpoint positionFrom (fuel : nat) (s : gostring) (off : nat) (ln cl : Z) : Z * Z :=
  match fuel, off, s with
  | S f, S _, _ :: _ =>
    let '(r, w) := DecodeRuneInString s in
    if r =? byteZ newline
    then positionFrom f (skipn w s) (off - w) (ln + 1) 1
    else positionFrom f (skipn w s) (off - w) ln (cl + 1)
  | _, _, _ => (ln, cl)
  end.

Definition specPosition (s : gostring) (off : nat) : Z * Z :=
  positionFrom off s off 1 1.

(** ** The round trip, by scanning mode *)

(** The two scanning regions of the specification. *)
Inductive mode := TextMode | CodeMode.

(** A comment or a tag opens here. *)
Definition opens (s : gostring) : bool :=
  HasPrefix s (str "{#") || HasPrefix s (str "{{") || HasPrefix s (str "{%").

(** A tag opens here. *)
Definition tagOpens (s : gostring) : bool :=
  HasPrefix s (str "{{") || HasPrefix s (str "{%").

(** The string [s] is empty or starts with a byte outside [what]. *)
Definition startsOutside (what s : gostring) : Prop :=
  match s with
  | [] => True
  | c :: _ => ~ In c what
  end.

(** [Scan m ts s]: scanned in mode [m], the string [s] is made, from left
    to right and with nothing left over, of the texts of the tokens [ts],
    in order, and of what the scanner discards.

    In text mode [s] is empty; or starts with the text of an HTML token,
    which is not empty, in which no comment and no tag opens, and which
    goes up to the end of the input or to where one opens; or starts with a
    comment, from its opening delimiter to the first closing delimiter,
    without newline, which is discarded; or starts with one of the two
    delimiters that open a tag, and is scanned in code mode.

    In code mode [s] is empty; or starts with one white-space character,
    which is discarded; or with the text of a Keyword or an Identifier, the
    longest run of identifier characters followed by the longest run of
    digits, a Keyword exactly when it is a reserved word; or with the text
    of a Number, the longest run of digits; or with the text of a String
    between two double quotes, no double quote inside; or with the text of
    a Symbol, the first entry of the symbol table that [s] starts with,
    after which the scan is in text mode again when the symbol closes the
    tag. *)
Inductive Scan : mode -> list Token -> gostring -> Prop :=
| scan_end (m : mode) : Scan m [] []
| scan_html (t : Token) (ts : list Token) (rest : gostring) :
    Typ t = TokenHTML -> Val t <> [] ->
    (forall i, (i < length (Val t))%nat -> opens (skipn i (Val t ++ rest)) = false) ->
    rest = [] \/ opens rest = true ->
    Scan TextMode ts rest ->
    Scan TextMode (t :: ts) (text t ++ rest)
| scan_comment (body : gostring) (ts : list Token) (rest : gostring) :
    ~ In newline body ->
    (forall i, (i < length body)%nat ->
       HasPrefix (skipn i (body ++ str "#}" ++ rest)) (str "#}") = false) ->
    Scan TextMode ts rest ->
    Scan TextMode ts (str "{#" ++ body ++ str "#}" ++ rest)
| scan_tag (ts : list Token) (s : gostring) :
    tagOpens s = true -> Scan CodeMode ts s -> Scan TextMode ts s
| scan_space (c : ascii) (ts : list Token) (rest : gostring) :
    In c tokenSpaceChars -> Scan CodeMode ts rest -> Scan CodeMode ts (c :: rest)
| scan_word (t : Token) (ts : list Token) (a b rest : gostring) :
    Val t = a ++ b -> a <> [] ->
    Forall (fun c => In c tokenIdentifierChars) a ->
    Forall (fun c => In c tokenDigits) b ->
    startsOutside tokenIdentifierChars (b ++ rest) ->
    startsOutside tokenDigits rest ->
    (Typ t = TokenKeyword /\ In (Val t) tokenKeywords)
    \/ (Typ t = TokenIdentifier /\ ~ In (Val t) tokenKeywords) ->
    Scan CodeMode ts rest ->
    Scan CodeMode (t :: ts) (text t ++ rest)
| scan_number (t : Token) (ts : list Token) (rest : gostring) :
    Typ t = TokenNumber -> Val t <> [] ->
    Forall (fun c => In c tokenDigits) (Val t) ->
    startsOutside tokenDigits rest ->
    Scan CodeMode ts rest ->
    Scan CodeMode (t :: ts) (text t ++ rest)
| scan_string (t : Token) (ts : list Token) (rest : gostring) :
    Typ t = TokenString -> ~ In dquote (Val t) ->
    Scan CodeMode ts rest ->
    Scan CodeMode (t :: ts) (text t ++ rest)
| scan_symbol (t : Token) (ts : list Token) (rest : gostring) :
    Typ t = TokenSymbol ->
    find (fun sym => HasPrefix (Val t ++ rest) sym) tokenSymbols = Some (Val t) ->
    Scan (if closesTag (Val t) then TextMode else CodeMode) ts rest ->
    Scan CodeMode (t :: ts) (text t ++ rest).

(** From the state [l], scanning in mode [m], to the state [l'], in mode
    [m']: the tokens added and the input between the two [start]s make a
    piece of a scan, whatever follows. *)
Definition stretch (m m' : mode) (l l' : lexer) : Prop :=
  exists ts1, tokens l' = tokens l ++ ts1
    /\ forall ts2, Scan m' ts2 (skipn (start l') (input l)) ->
                   Scan m (ts1 ++ ts2) (skipn (start l) (input l)).

(** Nothing pending in text mode opens a comment or a tag. *)
Definition pendingText (l : lexer) : Prop :=
  forall i, (start l <= i < pos l)%nat -> opens (skipn i (input l)) = false.

(** What a string starts with, in text mode: nothing, literal text, a
    comment or a tag. *)
Definition textClass (s : gostring) : nat :=
  if HasPrefix s (str "{#") then 2%nat
  else if tagOpens s then 3%nat
  else match s with [] => 0%nat | _ :: _ => 1%nat end.

(** What a byte starts in code mode: white space, a word, a number, a
    string or a symbol. *)
Definition byteClass (c : ascii) : nat :=
  if existsb (Ascii.eqb c) tokenSpaceChars then 1%nat
  else if existsb (Ascii.eqb c) tokenIdentifierChars then 2%nat
  else if existsb (Ascii.eqb c) tokenDigits then 3%nat
  else if Ascii.eqb c dquote then 4%nat
  else 5%nat.

Definition codeClass (s : gostring) : nat :=
  match s with [] => 0%nat | c :: _ => byteClass c end.

(** The measure that decreases along a scan. *)
Definition scanSize (m : mode) (s : gostring) : nat :=
  (2 * length s + match m with TextMode => 1 | CodeMode => 0 end)%nat.

(** ** Token.String *)

(** The [switch] of [Token.String]. *)
Definition typeName (t : TokenType) : gostring :=
  if t =? TokenHTML then str "HTML"
  else if t =? TokenError then str "Error"
  else if t =? TokenIdentifier then str "Identifier"
  else if t =? TokenKeyword then str "Keyword"
  else if t =? TokenNumber then str "Number"
  else if t =? TokenString then str "String"
  else if t =? TokenSymbol then str "Symbol"
  else str "Unknown".

(** [val], abbreviated to its first ten bytes, three dots and its last five
    bytes when longer than 1000 bytes. *)
Definition shownVal (v : gostring) : gostring :=
  if (1000 <? length v)%nat
  then firstn 10 v ++ str "..." ++ slice v (length v - 5) (length v)
  else v.

(** [func (t *Token) String() string] *)
Definition Token_String (t : Token) : gostring :=
  str "<Token typ=" ++ typeName (Typ t) ++ str " (" ++ itoa (Typ t) ++ str ") val='"
    ++ shownVal (Val t) ++ str "'>".

(** ** Vocabulary of the further properties *)

(** The message of the comment loop for what follows the body. *)
Definition commentMessage (tail : gostring) : gostring :=
  match tail with
  | c :: _ => if Ascii.eqb c newline then msgCommentNewline else msgCommentNotClosed
  | [] => msgCommentNotClosed
  end.

(** What the text of a token of each kind looks like, and that its position
    is 1-based. *)
Definition wellFormed (t : Token) : Prop :=
  1 <= Line t /\ 1 <= Col t /\
  (   (Typ t = TokenHTML /\ Val t <> [])
   \/ (Typ t = TokenSymbol /\ In (Val t) tokenSymbols)
   \/ (Typ t = TokenKeyword /\ In (Val t) tokenKeywords)
   \/ (Typ t = TokenIdentifier /\ ~ In (Val t) tokenKeywords
       /\ exists a b, Val t = a ++ b /\ a <> []
            /\ Forall (fun c => In c tokenIdentifierChars) a
            /\ Forall (fun c => In c tokenDigits) b)
   \/ (Typ t = TokenNumber /\ Val t <> []
       /\ Forall (fun c => In c tokenDigits) (Val t))
   \/ (Typ t = TokenString /\ ~ In dquote (Val t) /\ ~ In soh (Val t))).

(** Unless the lexer has failed, all its tokens are well-formed. *)
Definition tidy (l : lexer) : Prop := errored l = false -> Forall wellFormed (tokens l).

(** What [stateIdentifier] and [stateNumber] find on entry: the one
    character [stateCode] accepted. *)
Definition entered (st : lexerStateFn) (l : lexer) : Prop :=
  match st with
  | StateIdentifier =>
      pos l = S (start l)
      /\ exists c, nth_error (input l) (start l) = Some c /\ In c tokenIdentifierChars
  | StateNumber =>
      pos l = S (start l)
      /\ exists c, nth_error (input l) (start l) = Some c /\ In c tokenDigits
  | _ => True
  end.

(** The lexer [l] under another template name. *)
Definition set_name (n : gostring) (l : lexer) : lexer :=
  mkLexer n (input l) (start l) (pos l) (width l) (tokens l) (errored l)
          (startline l) (startcol l) (line l) (col l).

(** Renaming in the result of a cursor primitive. *)
Definition rename2 {A : Type} (n : gostring) (p : A * lexer) : A * lexer :=
  (fst p, set_name n (snd p)).

(** Renaming in the result of a state function. *)
Definition renameState {A : Type} (n : gostring) (r : option (lexer * A)) : option (lexer * A) :=
  option_map (fun p => (set_name n (fst p), snd p)) r.

(** Renaming in the result of one round of [stateCode]. *)
Definition renameStep (n : gostring) (s : codeStep) : codeStep :=
  match s with
  | Continue l => Continue (set_name n l)
  | Return l st => Return (set_name n l) st
  end.

(** A lexer at the start of a two-byte character, a newline, [b] and a tag. *)
Definition twoLines : lexer :=
  mkLexer (str "t") (["195"; "169"; "010"]%char ++ str "b{{ x }}") 0 0 0 [] false 1 1 1 1.

(** The tokens of [l'] are those of [l] and more. *)
Definition grows (l l' : lexer) : Prop := exists more, tokens l' = tokens l ++ more.

(** The two delimiters that open a tag. *)
Definition opensTag (o : gostring) : Prop := o = str "{{" \/ o = str "{%".

(** Simplification of the fields of an updated lexer. *)
Ltac fields :=
  cbn [name input start pos width tokens errored startline startcol line col
       set_start set_pos set_width set_line set_col advance emit errorf ignore
       backup add_col_value] in *.

(** * Facts about the Go runtime model *)

Lemma byteZ_range (c : ascii) : 0 <= byteZ c < 256.
Proof.
  unfold byteZ. pose proof (N_ascii_bounded c) as H. lia.
Qed.

Lemma byteZ_inj (c d : ascii) : byteZ c = byteZ d -> c = d.
Proof.
  unfold byteZ. intros H. apply N2Z.inj in H.
  rewrite <- (ascii_N_embedding c), <- (ascii_N_embedding d). now f_equal.
Qed.

Lemma gostring_eqb_eq (a b : gostring) : gostring_eqb a b = true <-> a = b.
Proof.
  unfold gostring_eqb. destruct (list_eq_dec ascii_dec a b); split; congruence.
Qed.

Lemma gostring_eqb_refl (a : gostring) : gostring_eqb a a = true.
Proof. now apply gostring_eqb_eq. Qed.

Lemma HasPrefix_spec (s p : gostring) :
  HasPrefix s p = true <-> exists r, s = p ++ r.
Proof.
  unfold HasPrefix. rewrite andb_true_iff, Nat.leb_le, gostring_eqb_eq. split.
  - intros [_ H]. exists (skipn (length p) s).
    rewrite <- H at 1. now rewrite firstn_skipn.
  - intros [r ->]. rewrite length_app, firstn_app, Nat.sub_diag, firstn_all. cbn.
    rewrite app_nil_r. split; [lia | reflexivity].
Qed.

Lemma lor_ge_l (a b : Z) : 0 <= a -> 0 <= b -> a <= Z.lor a b.
Proof.
  intros Ha Hb.
  assert (E : Z.lor a b = a + Z.ldiff b a).
  { rewrite Z.add_nocarry_lxor.
    - apply Z.bits_inj'. intros n Hn.
      rewrite Z.lxor_spec, Z.lor_spec, Z.ldiff_spec.
      now destruct (Z.testbit a n), (Z.testbit b n).
    - apply Z.bits_inj'. intros n Hn.
      rewrite Z.land_spec, Z.ldiff_spec, Z.bits_0.
      now destruct (Z.testbit a n), (Z.testbit b n). }
  assert (0 <= Z.ldiff b a) by (apply Z.ldiff_nonneg; lia).
  lia.
Qed.

Lemma lor_ge_r (a b : Z) : 0 <= a -> 0 <= b -> b <= Z.lor a b.
Proof. intros. rewrite Z.lor_comm. now apply lor_ge_l. Qed.

Lemma land_mask_mod (b : Z) (n : Z) : 0 <= n -> Z.land b (2 ^ n - 1) = b mod 2 ^ n.
Proof.
  intros Hn. replace (2 ^ n - 1) with (Z.ones n) by (rewrite Z.ones_equiv; lia).
  now apply Z.land_ones.
Qed.

Lemma shifted_part (b m k : Z) :
  0 <= b -> 0 <= k -> 0 <= m ->
  Z.shiftl (Z.land b (2 ^ m - 1)) k = (b mod 2 ^ m) * 2 ^ k.
Proof.
  intros. rewrite land_mask_mod by lia. now rewrite Z.shiftl_mul_pow2.
Qed.

(** The decoder consumes at least one byte, never more than there are; an
    ASCII byte decodes to itself, and anything else to a rune of at least
    [RuneSelf]. *)

Lemma bound_lor2 (a b : Z) : 0 <= a -> 0 <= b -> 128 <= a -> 128 <= Z.lor a b.
Proof. intros. pose proof (lor_ge_l a b). lia. Qed.

Lemma bound_lor2r (a b : Z) : 0 <= a -> 0 <= b -> 128 <= b -> 128 <= Z.lor a b.
Proof. intros. pose proof (lor_ge_r a b). lia. Qed.

Ltac modlia := Z.div_mod_to_equations; lia.

Ltac lor_nonneg := repeat first [ modlia | apply Z.lor_nonneg; split ].

Ltac lor_bound :=
  first [ modlia
        | apply bound_lor2; [lor_nonneg | lor_nonneg | lor_bound]
        | apply bound_lor2r; [lor_nonneg | lor_nonneg | lor_bound] ].

Lemma decode_cons (c : ascii) (t : gostring) :
  exists r w, DecodeRuneInString (c :: t) = (r, w)
    /\ (1 <= w <= S (length t))%nat
    /\ ((byteZ c < 128 /\ r = byteZ c /\ w = 1%nat)
        \/ (128 <= r /\ Forall (fun c' => 128 <= byteZ c') (firstn w (c :: t)))).
Proof.
  pose proof (byteZ_range c) as Hc.
  unfold DecodeRuneInString. set (b0 := byteZ c) in *.
  assert (Hm2 : Z.land b0 mask2 = b0 mod 32) by (apply (land_mask_mod b0 5); lia).
  assert (Hm3 : Z.land b0 mask3 = b0 mod 16) by (apply (land_mask_mod b0 4); lia).
  assert (Hm4 : Z.land b0 mask4 = b0 mod 8) by (apply (land_mask_mod b0 3); lia).
  assert (Hx : forall c', Z.land (byteZ c') maskx = byteZ c' mod 64)
    by (intros; apply (land_mask_mod _ 6); lia).
  assert (Hr : forall c', 0 <= byteZ c' < 256) by apply byteZ_range.
  unfold first.
  repeat match goal with
  | |- context [if ?a <? ?b then _ else _] => destruct (Z.ltb_spec a b)
  | |- context [if ?a =? ?b then _ else _] => destruct (Z.eqb_spec a b)
  end.
  all: try (cbn; eexists _, _; split; [reflexivity | split; [lia | (left; split; [lia|split; reflexivity]) || (right; cbn; unfold RuneError; split; [lia | subst b0; repeat (apply Forall_cons; [cbv beta; lia|]); apply Forall_nil])]]).
  all: match goal with
       | |- context [as_ <=? ?x] =>
         let v := eval vm_compute in (as_ <=? x) in
         change (as_ <=? x) with v
       end.
  all: match goal with
       | |- context [acceptRanges ?i] =>
         let v := eval vm_compute in (acceptRanges i) in
         change (acceptRanges i) with v
       end.
  all: match goal with
       | |- context [Z.land ?x 7] =>
         let v := eval vm_compute in (Z.land x 7) in
         change (Z.land x 7) with v
       end.
  all: cbv beta iota zeta.
  all: repeat match goal with
       | |- context [match ?l with [] => _ | _ :: _ => _ end] => is_var l; destruct l
       | |- context [if out_of ?b ?lo ?hi then _ else _] =>
         let E := fresh "E" in
         destruct (out_of b lo hi) eqn:E;
         [ | unfold out_of in E; apply orb_false_iff in E; destruct E as [?%Z.ltb_ge ?%Z.ltb_ge] ]
       | |- context [if ?a <=? ?b then _ else _] => destruct (Z.leb_spec a b); try lia
       | |- context [if ?a <? ?b then _ else _] => destruct (Z.ltb_spec a b)
       end.
  all: eexists _, _; (split; [reflexivity|]); (split; [cbn [length]; lia |]); right;
       (split; [| cbn [firstn]; subst b0; unfold locb, hicb in *; repeat (apply Forall_cons; [cbv beta; lia|]); apply Forall_nil]); try (unfold RuneError; lia).
  all: rewrite ?Hm2, ?Hm3, ?Hm4, ?Hx, ?Z.shiftl_mul_pow2 by lia.
  all: unfold locb, hicb in *.
  all: subst b0; repeat match goal with
       | c : ascii |- _ => pose proof (Hr c); generalize dependent (byteZ c); clear c; intros
       end.
  all: lor_bound.
Qed.

Lemma nth_error_skipn_cons (s : gostring) (i : nat) (c : ascii) :
  nth_error s i = Some c -> skipn i s = c :: skipn (S i) s.
Proof.
  revert i. induction s as [|a s IH]; intros [|i] H; cbn in *; try discriminate.
  - now injection H as ->.
  - now apply IH.
Qed.

Lemma nth_error_in_range (s : gostring) (i : nat) :
  (i < length s)%nat -> exists c, nth_error s i = Some c.
Proof.
  intros H. destruct (nth_error s i) eqn:E; [eauto|].
  apply nth_error_None in E. lia.
Qed.

Lemma IndexByte_from_spec (s : gostring) (b i : Z) :
  0 <= i ->
  (0 <= IndexByte_from i s b <-> exists c, In c s /\ byteZ c = b).
Proof.
  revert i. induction s as [|a s IH]; intros i Hi; cbn.
  - split; [lia | intros (c & [] & _)].
  - destruct (Z.eqb_spec (byteZ a) b) as [E|E].
    + split; [eauto | lia].
    + rewrite IH by lia. split.
      * intros (c & Hc & Hb). eauto.
      * intros (c & [->|Hc] & Hb); [contradiction | eauto].
Qed.

Lemma IndexRune_spec (what : gostring) (r : Z) :
  (0 <=? IndexRune what r) = true <->
  0 <= r < 128 /\ exists c, In c what /\ byteZ c = r.
Proof.
  rewrite Z.leb_le. unfold IndexRune, RuneSelf.
  destruct (Z.leb_spec 0 r), (Z.ltb_spec r 128); cbn [andb];
    try (split; [lia | intros [? _]; lia]).
  unfold IndexByte. rewrite IndexByte_from_spec by lia. intuition.
Qed.

Lemma asciiTable_space : asciiTable tokenSpaceChars.
Proof. intros c H. repeat (destruct H as [<-|H]; [vm_compute; reflexivity|]). destruct H. Qed.

Lemma asciiTable_ident : asciiTable tokenIdentifierChars.
Proof. intros c H. repeat (destruct H as [<-|H]; [vm_compute; reflexivity|]). destruct H. Qed.

Lemma asciiTable_digits : asciiTable tokenDigits.
Proof. intros c H. repeat (destruct H as [<-|H]; [vm_compute; reflexivity|]). destruct H. Qed.

Lemma asciiTable_quote : asciiTable [dquote].
Proof. intros c H. repeat (destruct H as [<-|H]; [vm_compute; reflexivity|]). destruct H. Qed.

(** * The cursor primitives *)

Lemma next_at_end (l : lexer) :
  (length (input l) <= pos l)%nat -> next l = (EOF, set_width 0 l).
Proof.
  intros H. unfold next. apply Nat.leb_le in H. now rewrite H.
Qed.

Lemma next_at_byte (l : lexer) (c : ascii) :
  nth_error (input l) (pos l) = Some c ->
  exists r w, next l = (r, set_pos (pos l + w) (set_width w l))
    /\ (1 <= w)%nat /\ (pos l + w <= length (input l))%nat
    /\ ((byteZ c < 128 /\ r = byteZ c /\ w = 1%nat)
        \/ (128 <= byteZ c /\ 128 <= r
            /\ Forall (fun c' => 128 <= byteZ c') (slice (input l) (pos l) (pos l + w)))).
Proof.
  intros H. unfold next.
  assert (Hlt : (pos l < length (input l))%nat) by (apply nth_error_Some; congruence).
  destruct (Nat.leb_spec (length (input l)) (pos l)); [lia|].
  unfold slice_from, slice. rewrite (nth_error_skipn_cons _ _ _ H).
  destruct (decode_cons c (skipn (S (pos l)) (input l))) as (r & w & -> & Hw & Hr).
  exists r, w. rewrite length_skipn in Hw. repeat split; try lia.
  destruct Hr as [Hr|[Hr Hall]]; [now left|right].
  rewrite Nat.add_comm, Nat.add_sub. split; [|split; assumption].
  destruct w; [lia|]. cbn in Hall. now inversion Hall.
Qed.

Lemma backup_next (l : lexer) (w : nat) :
  backup (set_pos (pos l + w) (set_width w l)) = set_width w l.
Proof.
  unfold backup. cbn. rewrite Nat.add_sub. reflexivity.
Qed.

Lemma backup_at_end (l : lexer) : backup (set_width 0 l) = set_width 0 l.
Proof.
  unfold backup. cbn. rewrite Nat.sub_0_r. reflexivity.
Qed.

(** What the rune under the cursor is; [None] at the end of the input. *)
Lemma peek_at_end (l : lexer) :
  (length (input l) <= pos l)%nat -> peek l = (EOF, set_width 0 l).
Proof.
  intros H. unfold peek. rewrite next_at_end by exact H. now rewrite backup_at_end.
Qed.

Lemma peek_at_byte (l : lexer) (c : ascii) :
  nth_error (input l) (pos l) = Some c ->
  exists r w, peek l = (r, set_width w l)
    /\ ((byteZ c < 128 /\ r = byteZ c) \/ (128 <= byteZ c /\ 128 <= r)).
Proof.
  intros H. destruct (next_at_byte l c H) as (r & w & E & _ & _ & Hr).
  exists r, w. unfold peek. rewrite E, backup_next. split; [reflexivity|].
  destruct Hr as [(? & ? & _)|(? & ? & _)]; [left|right]; auto.
Qed.

Lemma accept_hit (what : gostring) (l : lexer) (c : ascii) :
  asciiTable what ->
  nth_error (input l) (pos l) = Some c -> In c what ->
  accept what l = (true, set_pos (pos l + 1) (set_width 1 l)).
Proof.
  intros Ha H Hin. destruct (next_at_byte l c H) as (r & w & E & _ & _ & Hr).
  unfold accept. rewrite E.
  destruct Hr as [(_ & -> & ->)|(Hc & _)]; [|specialize (Ha c Hin); lia].
  assert (Hi : (0 <=? IndexRune what (byteZ c)) = true).
  { apply IndexRune_spec. pose proof (byteZ_range c). specialize (Ha c Hin).
    split; [lia | eauto]. }
  now rewrite Hi.
Qed.

Lemma accept_miss (what : gostring) (l : lexer) (c : ascii) :
  nth_error (input l) (pos l) = Some c -> ~ In c what ->
  exists w, accept what l = (false, set_width w l).
Proof.
  intros H Hin. destruct (next_at_byte l c H) as (r & w & E & _ & _ & Hr).
  exists w. unfold accept. rewrite E.
  assert (Hi : (0 <=? IndexRune what r) = false).
  { apply not_true_is_false. rewrite IndexRune_spec. intros (Hr' & c' & Hc' & Hb).
    destruct Hr as [(_ & -> & _)|(_ & ?)]; [|lia].
    apply byteZ_inj in Hb. congruence. }
  now rewrite Hi, backup_next.
Qed.

Lemma accept_at_end (what : gostring) (l : lexer) :
  ~ In soh what ->
  (length (input l) <= pos l)%nat -> accept what l = (false, set_width 0 l).
Proof.
  intros Hs H. unfold accept. rewrite next_at_end by exact H.
  assert (Hi : (0 <=? IndexRune what EOF) = false).
  { apply not_true_is_false. rewrite IndexRune_spec. intros (_ & c & Hc & Hb).
    apply (byteZ_inj c soh) in Hb. congruence. }
  now rewrite Hi, backup_at_end.
Qed.

(** * Slices *)

Lemma firstn_slice (s : gostring) (a b : nat) :
  (a <= b)%nat -> firstn b s = firstn a s ++ slice s a b.
Proof.
  intros H. unfold slice.
  rewrite <- (firstn_skipn a (firstn b s)) at 1.
  rewrite firstn_firstn, Nat.min_l by lia.
  now rewrite skipn_firstn_comm.
Qed.

Lemma slice_nth (s : gostring) (a : nat) (c : ascii) :
  nth_error s a = Some c -> slice s a (S a) = [c].
Proof.
  intros H. unfold slice. rewrite (nth_error_skipn_cons _ _ _ H).
  replace (S a - a)%nat with 1%nat by lia. reflexivity.
Qed.

Lemma slice_prefix (s p : gostring) (a : nat) :
  HasPrefix (slice_from s a) p = true -> slice s a (a + length p) = p.
Proof.
  intros H. apply HasPrefix_spec in H. destruct H as [r H].
  unfold slice, slice_from in *. rewrite H, Nat.add_comm, Nat.add_sub.
  rewrite firstn_app, Nat.sub_diag, firstn_all. cbn. apply app_nil_r.
Qed.

Lemma prefix_in_range (s p : gostring) (a : nat) :
  HasPrefix (slice_from s a) p = true -> (a <= length s)%nat ->
  (a + length p <= length s)%nat.
Proof.
  intros H Ha. unfold HasPrefix, slice_from in H.
  apply andb_true_iff in H. destruct H as [H _]. apply Nat.leb_le in H.
  rewrite length_skipn in H. lia.
Qed.

Lemma prefix_first (s p : gostring) (a : nat) (c : ascii) :
  HasPrefix (slice_from s a) (c :: p) = true -> nth_error s a = Some c.
Proof.
  intros H. apply HasPrefix_spec in H. destruct H as [r H].
  unfold slice_from in H.
  rewrite <- (firstn_skipn a s), H.
  destruct (Nat.le_gt_cases (length s) a) as [Hl|Hl].
  - rewrite skipn_all2 in H by exact Hl. discriminate.
  - rewrite nth_error_app2; rewrite length_firstn, Nat.min_l by lia; [|lia].
    now rewrite Nat.sub_diag.
Qed.

(** * Tokens emitted and errors raised *)

Section Correctness.

Variable quoteRune : Z -> gostring.

Lemma emit_wf (t : TokenType) (l : lexer) : wf l -> wf (emit t l).
Proof. intros []. constructor; cbn; lia. Qed.

Lemma emit_ok (t : TokenType) (l : lexer) :
  wf l -> ok l -> t <> TokenError -> t <> TokenString -> ok (emit t l).
Proof.
  intros Hw [He Ht Hr] H1 H2. constructor; cbn.
  - exact He.
  - apply Forall_app. split; [exact Ht|]. constructor; [exact H1 | constructor].
  - rewrite (firstn_slice (input l) (start l) (pos l)) by apply Hw.
    replace (slice (input l) (start l) (pos l))
      with (text (mkToken t (value l) (startline l) (startcol l))).
    + now constructor.
    + unfold text. cbn. destruct (Z.eqb_spec t TokenString); [contradiction | reflexivity].
Qed.

Lemma errorf_failed (m : gostring) (l : lexer) :
  Forall nonError (tokens l) -> 1 <= startline l -> 1 <= startcol l ->
  isLexMessage quoteRune m -> failed quoteRune (errorf m l).
Proof.
  intros Ht H1 H2 Hm. constructor; cbn; [reflexivity|].
  eexists _, _. split; [reflexivity|]. cbn. repeat split; assumption.
Qed.

Lemma errorf_wf (m : gostring) (l : lexer) : wf l -> wf (errorf m l).
Proof. intros []. constructor; cbn; lia. Qed.

Lemma flushHTML_wf (l : lexer) : wf l -> wf (flushHTML l).
Proof.
  intros H. unfold flushHTML. destruct (start l <? pos l)%nat; [now apply emit_wf | exact H].
Qed.

Lemma flushHTML_ok (l : lexer) : wf l -> ok l -> ok (flushHTML l).
Proof.
  intros Hw H. unfold flushHTML. destruct (start l <? pos l)%nat; [|exact H].
  apply emit_ok; try assumption; discriminate.
Qed.

Lemma flushHTML_fields (l : lexer) :
  wf l ->
  input (flushHTML l) = input l /\ name (flushHTML l) = name l
  /\ pos (flushHTML l) = pos l /\ start (flushHTML l) = pos l.
Proof.
  intros Hw. unfold flushHTML. destruct (Nat.ltb_spec (start l) (pos l)); cbn.
  - auto.
  - destruct Hw. repeat split. lia.
Qed.

(** * Runs of characters *)

Lemma acceptRun_spec (what : gostring) (fuel : nat) (l : lexer) :
  asciiTable what -> ~ In soh what ->
  (pos l <= length (input l))%nat -> (length (input l) - pos l < fuel)%nat ->
  exists p w,
    acceptRun fuel what l = Some (set_pos p (set_width w l))
    /\ (pos l <= p <= length (input l))%nat
    /\ Forall (fun c => In c what) (slice (input l) (pos l) p)
    /\ (forall c, nth_error (input l) p = Some c -> ~ In c what).
Proof.
  intros Ha Hs. revert l. induction fuel as [|f IH]; intros l Hp Hf; [lia|].
  cbn [acceptRun].
  destruct (nth_error (input l) (pos l)) as [c|] eqn:E.
  - destruct (next_at_byte l c E) as (r & w & -> & Hw1 & Hw2 & Hr).
    destruct (in_dec ascii_dec c what) as [Hin|Hin].
    + destruct Hr as [(_ & -> & ->)|(Hc & _)]; [|specialize (Ha c Hin); lia].
      assert (Hi : (0 <=? IndexRune what (byteZ c)) = true).
      { apply IndexRune_spec. pose proof (byteZ_range c). specialize (Ha c Hin).
        split; [lia | eauto]. }
      rewrite Hi.
      destruct (IH (set_pos (pos l + 1) (set_width 1 l))) as (p & w & Er & Hb & Hall & Hstop);
        cbn in *; try lia.
      exists p, w. rewrite Er. split; [reflexivity|]. split; [lia|]. split; [|exact Hstop].
      unfold slice. replace (p - pos l)%nat with (S (p - (pos l + 1)))%nat by lia.
      rewrite (nth_error_skipn_cons _ _ _ E). cbn [firstn]. constructor; [exact Hin|].
      replace (S (pos l)) with (pos l + 1)%nat by lia. exact Hall.
    + assert (Hi : (0 <=? IndexRune what r) = false).
      { apply not_true_is_false. rewrite IndexRune_spec. intros (Hr' & c' & Hc' & Hb).
        destruct Hr as [(_ & -> & _)|(_ & ?)]; [|lia].
        apply byteZ_inj in Hb. congruence. }
      rewrite Hi, backup_next. exists (pos l), w. split; [reflexivity|].
      split; [lia|]. split.
      * unfold slice. rewrite Nat.sub_diag. constructor.
      * intros c' Hc'. congruence.
  - apply nth_error_None in E. rewrite next_at_end by exact E.
    assert (Hi : (0 <=? IndexRune what EOF) = false).
    { apply not_true_is_false. rewrite IndexRune_spec. intros (_ & c & Hc & Hb).
      apply (byteZ_inj c soh) in Hb. congruence. }
    rewrite Hi, backup_at_end. exists (pos l), 0%nat. split; [reflexivity|].
    split; [lia|]. split.
    + unfold slice. rewrite Nat.sub_diag. constructor.
    + intros c Hc. assert (pos l < length (input l))%nat by (apply nth_error_Some; congruence). lia.
Qed.

Lemma soh_not_ident : ~ In soh tokenIdentifierChars.
Proof. intros H. repeat (destruct H as [H|H]; [discriminate|]). destruct H. Qed.

Lemma soh_not_digit : ~ In soh tokenDigits.
Proof. intros H. repeat (destruct H as [H|H]; [discriminate|]). destruct H. Qed.

Lemma soh_not_space : ~ In soh tokenSpaceChars.
Proof. intros H. repeat (destruct H as [H|H]; [discriminate|]). destruct H. Qed.

Lemma soh_not_quote : ~ In soh [dquote].
Proof. intros H. repeat (destruct H as [H|H]; [discriminate|]). destruct H. Qed.

Lemma add_col_value_wf (l : lexer) : wf l -> wf (add_col_value l).
Proof. intros []. constructor; cbn; lia. Qed.

Lemma add_col_value_ok (l : lexer) : ok l -> ok (add_col_value l).
Proof. intros []. constructor; assumption. Qed.

Lemma moved_wf (l : lexer) (p w : nat) :
  wf l -> (pos l <= p <= length (input l))%nat -> wf (set_pos p (set_width w l)).
Proof. intros [] H. constructor; cbn; lia. Qed.

Lemma moved_ok (l : lexer) (p w : nat) : ok l -> ok (set_pos p (set_width w l)).
Proof. intros []. constructor; assumption. Qed.

(** [stateIdentifier] consumes the longest run of identifier characters,
    then the longest run of digits, and emits one token. *)
Lemma stateIdentifier_shape (fuel : nat) (l : lexer) :
  (pos l <= length (input l))%nat -> (length (input l) - pos l < fuel)%nat ->
  exists p1 p2 w,
    let l2 := set_pos p2 (set_width w l) in
    stateIdentifier fuel l =
      Some (if isKeyword tokenKeywords (value l2)
            then emit TokenKeyword l2
            else emit TokenIdentifier (add_col_value l2), Some StateCode)
    /\ (pos l <= p1 <= p2)%nat /\ (p2 <= length (input l))%nat
    /\ Forall (fun c => In c tokenIdentifierChars) (slice (input l) (pos l) p1)
    /\ stopsAt tokenIdentifierChars (input l) p1
    /\ Forall (fun c => In c tokenDigits) (slice (input l) p1 p2)
    /\ stopsAt tokenDigits (input l) p2.
Proof.
  intros Hp Hf. unfold stateIdentifier.
  destruct (acceptRun_spec tokenIdentifierChars fuel l asciiTable_ident soh_not_ident Hp Hf)
    as (p1 & w1 & -> & Hb1 & Hall1 & Hstop1).
  destruct (acceptRun_spec tokenDigits fuel (set_pos p1 (set_width w1 l))
              asciiTable_digits soh_not_digit) as (p2 & w2 & -> & Hb2 & Hall2 & Hstop2);
    fields; try lia.
  exists p1, p2, w2. cbn zeta.
  change (set_pos p2 (set_width w2 (set_pos p1 (set_width w1 l))))
    with (set_pos p2 (set_width w2 l)).
  split; [|repeat split; try lia; assumption].
  destruct (isKeyword tokenKeywords (value (set_pos p2 (set_width w2 l)))); reflexivity.
Qed.

Lemma stateNumber_shape (fuel : nat) (l : lexer) :
  (pos l <= length (input l))%nat -> (length (input l) - pos l < fuel)%nat ->
  exists p w,
    stateNumber fuel l =
      Some (emit TokenNumber (add_col_value (set_pos p (set_width w l))), Some StateCode)
    /\ (pos l <= p <= length (input l))%nat
    /\ Forall (fun c => In c tokenDigits) (slice (input l) (pos l) p)
    /\ stopsAt tokenDigits (input l) p.
Proof.
  intros Hp Hf. unfold stateNumber.
  destruct (acceptRun_spec tokenDigits fuel l asciiTable_digits soh_not_digit Hp Hf)
    as (p & w & -> & Hb & Hall & Hstop).
  exists p, w. repeat split; try lia; assumption.
Qed.

(** A state that emitted one token of a plain kind after moving the cursor. *)
Lemma emit_after_move (t : TokenType) (l : lexer) (p w : nat) :
  wf l -> ok l -> (pos l <= p <= length (input l))%nat ->
  t <> TokenError -> t <> TokenString ->
  follows quoteRune l (emit t (add_col_value (set_pos p (set_width w l))))
  /\ follows quoteRune l (emit t (set_pos p (set_width w l))).
Proof.
  intros Hw Hk Hp H1 H2.
  assert (Hw' : wf (set_pos p (set_width w l))) by now apply moved_wf.
  assert (Hk' : ok (set_pos p (set_width w l))) by now apply moved_ok.
  split; constructor; cbn; try reflexivity; try lia.
  - apply emit_wf, add_col_value_wf, Hw'.
  - right. split; [|reflexivity].
    apply emit_ok; auto using add_col_value_wf, add_col_value_ok.
  - apply emit_wf, Hw'.
  - right. split; [|reflexivity]. now apply emit_ok.
Qed.

Lemma stateIdentifier_follows (fuel : nat) (l : lexer) :
  wf l -> ok l -> (length (input l) - pos l < fuel)%nat ->
  exists l', stateIdentifier fuel l = Some (l', Some StateCode)
    /\ follows quoteRune l l' /\ ok l' /\ start l' = pos l'.
Proof.
  intros Hw Hk Hf.
  destruct (stateIdentifier_shape fuel l (wf_pos l Hw) Hf)
    as (p1 & p2 & w & E & Hb & Hb2 & _).
  cbn zeta in E. rewrite E.
  destruct (emit_after_move TokenIdentifier l p2 w Hw Hk) as [F1 _];
    try discriminate; try lia.
  destruct (emit_after_move TokenKeyword l p2 w Hw Hk) as [_ F2];
    try discriminate; try lia.
  destruct (isKeyword tokenKeywords (value (set_pos p2 (set_width w l))));
    eexists; (split; [reflexivity|]).
  - split; [exact F2|]. destruct (fo_end _ _ _ F2) as [[Hbad _]|[? ?]]; [|auto].
    cbn in Hbad. destruct Hk. congruence.
  - split; [exact F1|]. destruct (fo_end _ _ _ F1) as [[Hbad _]|[? ?]]; [|auto].
    cbn in Hbad. destruct Hk. congruence.
Qed.

Lemma stateNumber_follows (fuel : nat) (l : lexer) :
  wf l -> ok l -> (length (input l) - pos l < fuel)%nat ->
  exists l', stateNumber fuel l = Some (l', Some StateCode)
    /\ follows quoteRune l l' /\ ok l' /\ start l' = pos l'.
Proof.
  intros Hw Hk Hf.
  destruct (stateNumber_shape fuel l (wf_pos l Hw) Hf) as (p & w & E & Hb & _).
  rewrite E.
  destruct (emit_after_move TokenNumber l p w Hw Hk) as [F1 _];
    try discriminate; try lia.
  eexists; (split; [reflexivity|]).
  split; [exact F1|]. destruct (fo_end _ _ _ F1) as [[Hbad _]|[? ?]]; [|auto].
  cbn in Hbad. destruct Hk. congruence.
Qed.

(** * String literals *)

Lemma slice_snoc (s : gostring) (a p : nat) (c : ascii) :
  (a <= p)%nat -> nth_error s p = Some c -> slice s a (S p) = slice s a p ++ [c].
Proof.
  intros Hle H.
  assert (E : firstn (S p) s = firstn p s ++ [c]).
  { rewrite (firstn_slice s p (S p)) by lia. now rewrite (slice_nth _ _ _ H). }
  assert (Hlen : (p < length s)%nat) by (apply nth_error_Some; congruence).
  pose proof (firstn_slice s a (S p)) as E1. pose proof (firstn_slice s a p) as E2.
  rewrite E, E2, <- app_assoc in E1 by lia.
  apply app_inv_head in E1; [now symmetry | lia].
Qed.

Lemma slice_app (s : gostring) (a b c : nat) :
  (a <= b <= c)%nat -> slice s a c = slice s a b ++ slice s b c.
Proof.
  intros H.
  pose proof (firstn_slice s a c) as E1. pose proof (firstn_slice s a b) as E2.
  pose proof (firstn_slice s b c) as E3.
  rewrite E3, E2, <- app_assoc in E1 by lia.
  apply app_inv_head in E1; [now symmetry | lia].
Qed.

(** The bytes one call of [next] steps over contain no ASCII byte other
    than the one decoded. *)
Lemma next_chunk (l : lexer) (c : ascii) (r : Z) (w : nat) :
  nth_error (input l) (pos l) = Some c ->
  (byteZ c < 128 /\ r = byteZ c /\ w = 1%nat)
  \/ (128 <= byteZ c /\ 128 <= r
      /\ Forall (fun c' => 128 <= byteZ c') (slice (input l) (pos l) (pos l + w))) ->
  forall x, byteZ x < 128 -> x <> c -> ~ In x (slice (input l) (pos l) (pos l + w)).
Proof.
  intros E Hr x Hx Hne Hin. destruct Hr as [(_ & _ & ->)|(_ & _ & Hall)].
  - rewrite Nat.add_1_r, (slice_nth _ _ _ E) in Hin. destruct Hin as [H|[]]. congruence.
  - rewrite Forall_forall in Hall. specialize (Hall x Hin). lia.
Qed.

(** The scan of a string body either finds the first closing quote, at some
    offset [p], with no byte 0x01 before it, or fails: the input ended, or
    a byte 0x01 came before any quote. *)
Lemma stringBody_spec (fuel : nat) (l : lexer) :
  (pos l <= length (input l))%nat -> (length (input l) - pos l < fuel)%nat ->
  (exists p,
      stringBody fuel l = Some (set_pos (S p) (set_width 1 l), true)
      /\ (pos l <= p < length (input l))%nat
      /\ nth_error (input l) p = Some dquote
      /\ ~ In dquote (slice (input l) (pos l) p)
      /\ ~ In soh (slice (input l) (pos l) p))
  \/ (exists p w,
      stringBody fuel l = Some (errorf msgStringNotClosed (set_pos p (set_width w l)), false)
      /\ (pos l <= p <= length (input l))%nat
      /\ ~ In dquote (slice (input l) (pos l) p)
      /\ (p = length (input l)
          \/ exists k, p = S k /\ (pos l <= k)%nat /\ nth_error (input l) k = Some soh)).
Proof.
  clear quoteRune. revert l. induction fuel as [|f IH]; intros l Hp Hf; [lia|].
  cbn [stringBody].
  destruct (nth_error (input l) (pos l)) as [c|] eqn:E.
  - assert (Hlt : (pos l < length (input l))%nat) by (apply nth_error_Some; congruence).
    destruct (ascii_dec c dquote) as [->|Hq].
    + rewrite (accept_hit [dquote] l dquote asciiTable_quote E) by (now left).
      left. exists (pos l). rewrite Nat.add_1_r. split; [reflexivity|].
      unfold slice. rewrite Nat.sub_diag. cbn. intuition.
    + destruct (accept_miss [dquote] l c E) as (w0 & ->).
      { intros [H|[]]. congruence. }
      destruct (next_at_byte (set_width w0 l) c E) as (r & w & En & Hw1 & Hw2 & Hr).
      rewrite En. fields.
      change (set_pos (pos l + w) (set_width w (set_width w0 l)))
        with (set_pos (pos l + w) (set_width w l)).
      pose proof (next_chunk l c r w E Hr) as Hchunk.
      assert (Hnq : ~ In dquote (slice (input l) (pos l) (pos l + w))).
      { apply Hchunk; [vm_compute; reflexivity | congruence]. }
      destruct (Z.eqb_spec r EOF) as [Hr1|Hr1].
      * right. exists (pos l + w)%nat, w. split; [reflexivity|].
        destruct Hr as [(_ & Hrc & ->)|(_ & ? & _)]; [|unfold EOF in *; lia].
        assert (c = soh) by (apply byteZ_inj; rewrite <- Hrc, Hr1; reflexivity). subst c.
        rewrite Nat.add_1_r in *. split; [lia|]. split; [exact Hnq|].
        right. exists (pos l). auto.
      * assert (Hsoh : c <> soh).
        { intros ->. destruct Hr as [(_ & Hrc & _)|(Hc & _)]; [|change (byteZ soh) with 1 in Hc; lia].
          apply Hr1. rewrite Hrc. reflexivity. }
        assert (Hns : ~ In soh (slice (input l) (pos l) (pos l + w))).
        { apply Hchunk; [vm_compute; reflexivity | congruence]. }
        destruct (IH (set_pos (pos l + w) (set_width w l))) as
            [(p & Es & Hb & Hq' & Hnq' & Hns')|(p & w' & Es & Hb & Hnq' & Hend)];
          fields; try lia.
        -- left. exists p. rewrite Es. split; [reflexivity|].
           split; [lia|]. split; [exact Hq'|].
           rewrite (slice_app (input l) (pos l) (pos l + w) p) by lia.
           split; intros Hin; apply in_app_or in Hin; tauto.
        -- right. exists p, w'. rewrite Es. split; [reflexivity|].
           split; [lia|]. split.
           ++ rewrite (slice_app (input l) (pos l) (pos l + w) p) by lia.
              intros Hin; apply in_app_or in Hin; tauto.
           ++ destruct Hend as [Hend|(k & Hk1 & Hk2 & Hk3)]; [now left|right].
              exists k. split; [exact Hk1|]. split; [lia | exact Hk3].
  - apply nth_error_None in E.
    rewrite (accept_at_end [dquote] l soh_not_quote E).
    rewrite next_at_end by exact E. cbn [Z.eqb EOF Pos.eqb].
    right. exists (pos l), 0%nat. split; [reflexivity|].
    unfold slice. rewrite Nat.sub_diag. cbn. split; [lia|]. split; [tauto|]. left. lia.
Qed.

Lemma backup_quote (l : lexer) (p : nat) :
  backup (set_pos (S p) (set_width 1 l)) = set_pos p (set_width 1 l).
Proof. unfold backup. cbn. now rewrite Nat.sub_0_r. Qed.

Lemma next_ascii (l : lexer) (c : ascii) :
  nth_error (input l) (pos l) = Some c -> byteZ c < 128 ->
  next l = (byteZ c, set_pos (pos l + 1) (set_width 1 l)).
Proof.
  intros E Hc. destruct (next_at_byte l c E) as (r & w & -> & _ & _ & Hr).
  destruct Hr as [(_ & -> & ->)|(? & _)]; [reflexivity | lia].
Qed.

(** The text of a string literal, quotes included, between two offsets. *)
Lemma quoted_slice (s : gostring) (a p : nat) :
  nth_error s a = Some dquote -> nth_error s p = Some dquote -> (S a <= p)%nat ->
  firstn (S p) s = firstn a s ++ dquote :: slice s (S a) p ++ [dquote].
Proof.
  intros Ha Hp Hle.
  rewrite (firstn_slice s a (S p)) by lia. f_equal.
  rewrite (slice_app s a (S a) (S p)) by lia.
  rewrite (slice_nth _ _ _ Ha). cbn [app]. f_equal.
  apply slice_snoc; [lia | exact Hp].
Qed.

Lemma stateString_follows (fuel : nat) (l : lexer) :
  ready StateString l -> (length (input l) - pos l < fuel)%nat ->
  exists l' st, stateString fuel l = Some (l', st)
    /\ follows quoteRune l l'
    /\ ((failed quoteRune l' /\ st = None)
        \/ (ok l' /\ start l' = pos l' /\ st = Some StateCode)).
Proof.
  intros (Hw & Hk & Hpos & Hq) Hf. unfold stateString.
  destruct (stringBody_spec fuel (ignore l)) as
      [(p & Es & Hb & Hq' & _)|(p & w & Es & Hb & _)];
    fields; try apply Hw; try lia; rewrite Es.
  - rewrite backup_quote.
    set (l2 := emit TokenString (add_col_value (set_pos p (set_width 1 (ignore l))))).
    assert (E2 : nth_error (input l2) (pos l2) = Some dquote) by exact Hq'.
    rewrite (next_ascii l2 dquote E2) by (vm_compute; reflexivity).
    eexists _, _. split; [reflexivity|].
    assert (Hok : ok (ignore (set_pos (pos l2 + 1) (set_width 1 l2)))).
    { destruct Hk as [He Ht Hr]. subst l2. constructor; unfold value; fields.
      - exact He.
      - apply Forall_app. split; [exact Ht|]. constructor; [discriminate | constructor].
      - rewrite Nat.add_1_r. rewrite (quoted_slice (input l) (start l) p Hq Hq') by lia.
        rewrite <- Hpos.
        change (dquote :: slice (input l) (pos l) p ++ [dquote])
          with (text (mkToken TokenString (slice (input l) (pos l) p)
                        (startline l) (startcol l))).
        now constructor. }
    split; [|right; split; [exact Hok | split; reflexivity]].
    subst l2. destruct Hw. constructor; fields; try reflexivity; try lia.
    + constructor; fields; lia.
    + right. split; [exact Hok | reflexivity].
  - eexists _, _. split; [reflexivity|].
    assert (Hfail : failed quoteRune
                      (errorf msgStringNotClosed (set_pos p (set_width w (ignore l))))).
    { apply errorf_failed; fields; try apply Hw; try apply Hk.
      right; right; left; reflexivity. }
    split; [|left; split; [exact Hfail | reflexivity]].
    destruct Hw. constructor; fields; try reflexivity; try lia.
    + constructor; fields; lia.
    + left. exact Hfail.
Qed.

(** * Code mode *)

Lemma accept_cases (what : gostring) (l : lexer) :
  asciiTable what -> ~ In soh what ->
  (exists c, nth_error (input l) (pos l) = Some c /\ In c what
             /\ accept what l = (true, set_pos (pos l + 1) (set_width 1 l)))
  \/ (exists w, accept what l = (false, set_width w l)
             /\ forall c, nth_error (input l) (pos l) = Some c -> ~ In c what).
Proof.
  intros Ha Hs. destruct (nth_error (input l) (pos l)) as [c|] eqn:E.
  - destruct (in_dec ascii_dec c what) as [Hin|Hin].
    + left. exists c. split; [reflexivity|]. split; [exact Hin|]. now apply accept_hit with c.
    + right. destruct (accept_miss what l c E Hin) as (w & Ew).
      exists w. split; [exact Ew|]. intros c' Hc'. congruence.
  - right. exists 0%nat. apply nth_error_None in E.
    split; [now apply accept_at_end | discriminate].
Qed.

Lemma matchSymbol_find (syms : list gostring) (l : lexer) :
  matchSymbol syms l =
  option_map (fun sym => (sym, emit TokenSymbol (advance (length sym) l)))
             (find (fun sym => HasPrefix (slice_from (input l) (start l)) sym) syms).
Proof.
  induction syms as [|sym rest IH]; cbn; [reflexivity|].
  destruct (HasPrefix (slice_from (input l) (start l)) sym); [reflexivity | exact IH].
Qed.

Lemma tokenSymbols_nonempty (sym : gostring) : In sym tokenSymbols -> (1 <= length sym)%nat.
Proof.
  intros H. repeat (destruct H as [<-|H]; [cbn; lia|]). destruct H.
Qed.

Lemma matchSymbol_spec (l : lexer) (w : nat) :
  wf l -> ok l -> start l = pos l ->
  match matchSymbol tokenSymbols (set_width w l) with
  | Some (sym, l') =>
      In sym tokenSymbols
      /\ HasPrefix (slice_from (input l) (pos l)) sym = true
      /\ l' = emit TokenSymbol (advance (length sym) (set_width w l))
      /\ follows quoteRune l l' /\ ok l' /\ start l' = pos l' /\ (pos l < pos l')%nat
  | None =>
      forall sym, In sym tokenSymbols -> HasPrefix (slice_from (input l) (pos l)) sym = false
  end.
Proof.
  intros Hw Hk Hs. rewrite matchSymbol_find. fields. rewrite Hs.
  destruct (find _ tokenSymbols) as [sym|] eqn:E; cbn [option_map].
  - apply find_some in E. destruct E as [Hin Hpre].
    pose proof (tokenSymbols_nonempty sym Hin) as Hlen.
    pose proof (prefix_in_range _ _ _ Hpre (wf_pos l Hw)) as Hr.
    assert (Hok : ok (emit TokenSymbol (advance (length sym) (set_width w l)))).
    { apply emit_ok; try discriminate.
      - destruct Hw. constructor; fields; lia.
      - destruct Hk. constructor; assumption. }
    split; [exact Hin|]. split; [exact Hpre|]. split; [reflexivity|].
    split; [|split; [exact Hok | split; [reflexivity | fields; lia]]].
    destruct Hw. constructor; fields; try reflexivity; try lia.
    + constructor; fields; lia.
    + right. split; [exact Hok | reflexivity].
  - intros sym Hin. exact (find_none _ _ E sym Hin).
Qed.

Lemma codeBody_spec (l : lexer) :
  wf l -> ok l -> start l = pos l ->
  match codeBody quoteRune l with
  | Continue l' =>
      follows quoteRune l l' /\ ok l' /\ start l' = pos l' /\ (pos l < pos l')%nat
  | Return l' (Some st) =>
      input l' = input l /\ name l' = name l /\ ready st l'
      /\ pos l' = S (pos l) /\ st <> StateCode
  | Return l' None =>
      follows quoteRune l l'
      /\ (failed quoteRune l'
          \/ (ok l' /\ start l' = pos l'
              /\ ((pos l < pos l')%nat \/ pos l' = length (input l))))
  end.
Proof.
  intros Hw Hk Hs. unfold codeBody.
  assert (Hstep : forall w, wf (set_pos (pos l + 1) (set_width w l))
                            -> ok (set_pos (pos l + 1) (set_width w l))).
  { intros w _. now apply moved_ok. }
  destruct (accept_cases tokenSpaceChars l asciiTable_space soh_not_space)
    as [(c & E & Hin & ->)|(w1 & -> & N1)]; cbv beta iota.
  { (* white space *)
    assert (Hlt : (pos l < length (input l))%nat) by (apply nth_error_Some; congruence).
    assert (G : forall ln cl, 1 <= ln -> 1 <= cl ->
              let l' := ignore (set_col cl (set_line ln (set_pos (pos l + 1) (set_width 1 l)))) in
              follows quoteRune l l' /\ ok l' /\ start l' = pos l' /\ (pos l < pos l')%nat).
    { intros ln cl Hln Hcl l'.
      assert (Hok : ok l').
      { destruct Hk as [He Ht Hr]. constructor; subst l'; fields; try assumption.
        rewrite Nat.add_1_r, (firstn_slice (input l) (pos l) (S (pos l))) by lia.
        rewrite (slice_nth _ _ _ E), <- Hs. apply recon_gap; [exact Hr | now constructor]. }
      split; [|split; [exact Hok | split; [reflexivity | subst l'; fields; lia]]].
      destruct Hw. constructor; subst l'; fields; try reflexivity; try lia.
      - constructor; fields; lia.
      - right. split; [exact Hok | reflexivity]. }
    destruct (gostring_eqb _ _).
    - apply G; destruct Hw; fields; lia.
    - apply (G (line l) (col l + 1)); destruct Hw; fields; lia. }
  destruct (accept_cases tokenIdentifierChars (set_width w1 l) asciiTable_ident soh_not_ident)
    as [(c & E & Hin & ->)|(w2 & -> & N2)]; cbv beta iota.
  { fields. repeat split; try reflexivity; fields; try apply Hw; try apply Hk;
      try lia; try discriminate.
    destruct Hw. assert (pos l < length (input l))%nat by (apply nth_error_Some; congruence).
    lia. }
  destruct (accept_cases tokenDigits (set_width w2 (set_width w1 l))
              asciiTable_digits soh_not_digit)
    as [(c & E & Hin & ->)|(w3 & -> & N3)]; cbv beta iota.
  { fields. repeat split; try reflexivity; fields; try apply Hw; try apply Hk;
      try lia; try discriminate.
    destruct Hw. assert (pos l < length (input l))%nat by (apply nth_error_Some; congruence).
    lia. }
  destruct (accept_cases [dquote] (set_width w3 (set_width w2 (set_width w1 l)))
              asciiTable_quote soh_not_quote)
    as [(c & E & Hin & ->)|(w4 & -> & N4)]; cbv beta iota.
  { fields. destruct Hin as [<-|[]].
    repeat split; try reflexivity; fields; try apply Hw; try apply Hk;
      try lia; try discriminate.
    - destruct Hw. assert (pos l < length (input l))%nat by (apply nth_error_Some; congruence).
      lia.
    - now rewrite Hs. }
  change (set_width w4 (set_width w3 (set_width w2 (set_width w1 l))))
    with (set_width w4 l).
  pose proof (matchSymbol_spec l w4 Hw Hk Hs) as M.
  destruct (matchSymbol tokenSymbols (set_width w4 l)) as [[sym l5]|].
  { destruct M as (_ & _ & _ & F & Hok & Hst & Hlt).
    destruct (_ || _); auto 10. }
  fields. destruct (Nat.ltb_spec (pos l) (length (input l))) as [Hlt|Hge].
  - destruct (nth_error_in_range _ _ Hlt) as (c & E).
    destruct (peek_at_byte (set_width w4 l) c E) as (r1 & w5 & -> & _).
    destruct (peek_at_byte (set_width w5 (set_width w4 l)) c E) as (r2 & w6 & -> & _).
    assert (Hfail : failed quoteRune
              (errorf (msgUnknownChar quoteRune r1 r2)
                      (set_width w6 (set_width w5 (set_width w4 l))))).
    { apply errorf_failed; fields; try apply Hw; try apply Hk.
      right; right; right. eauto. }
    split; [|left; exact Hfail].
    destruct Hw. constructor; fields; try reflexivity; try lia.
    + constructor; fields; lia.
    + left. exact Hfail.
  - assert (Hok : ok (set_width w4 l)) by (destruct Hk; constructor; assumption).
    split; [|right; split; [exact Hok | split; [exact Hs | right; destruct Hw; fields; lia]]].
    destruct Hw. constructor; fields; try reflexivity; try lia.
    + constructor; fields; lia.
    + right. split; [exact Hok | exact Hs].
Qed.

Lemma follows_trans (a b c : lexer) :
  follows quoteRune a b -> follows quoteRune b c -> follows quoteRune a c.
Proof.
  intros [] []. constructor; try congruence; try lia; assumption.
Qed.

Lemma stateCode_spec (fuel : nat) (l : lexer) :
  wf l -> ok l -> start l = pos l -> (length (input l) - pos l < fuel)%nat ->
  exists l' st, stateCode quoteRune fuel l = Some (l', st)
    /\ input l' = input l /\ name l' = name l /\ (pos l <= pos l')%nat
    /\ match st with
       | Some st' => ready st' l' /\ (pos l < pos l')%nat /\ st' <> StateCode
       | None =>
           wf l'
           /\ (failed quoteRune l'
               \/ (ok l' /\ start l' = pos l'
                   /\ ((pos l < pos l')%nat \/ pos l' = length (input l))))
       end.
Proof.
  revert l. induction fuel as [|f IH]; intros l Hw Hk Hs Hf; [lia|].
  cbn [stateCode]. pose proof (codeBody_spec l Hw Hk Hs) as B.
  destruct (codeBody quoteRune l) as [l1|l1 [st|]].
  - destruct B as (F & Hk1 & Hs1 & Hlt). destruct F as [Hi Hn Hw1 Hp _].
    destruct (IH l1 Hw1 Hk1 Hs1) as (l' & st & E & Hi' & Hn' & Hp' & Hst).
    { pose proof (wf_pos l1 Hw1). rewrite Hi in *. lia. }
    exists l', st. rewrite E. split; [reflexivity|].
    split; [congruence|]. split; [congruence|]. split; [lia|].
    destruct st as [st'|].
    + destruct Hst as (? & ? & ?). split; [assumption|]. split; [lia | assumption].
    + destruct Hst as (? & [?|(? & ? & Hq)]); split; auto.
      right. split; [assumption|]. split; [assumption|]. rewrite Hi in Hq. lia.
  - destruct B as (Hi & Hn & Hr & Hp & Hne).
    exists l1, (Some st). split; [reflexivity|]. split; [assumption|]. split; [assumption|].
    split; [lia|]. split; [assumption|]. split; [lia | assumption].
  - destruct B as (F & Hend). destruct F as [Hi Hn Hw1 Hp _].
    exists l1, None. split; [reflexivity|]. split; [assumption|]. split; [assumption|].
    split; [assumption|]. split; assumption.
Qed.

Lemma tokenizeFrom_nil (fuel : nat) (l : lexer) :
  tokenizeFrom quoteRune fuel None l = Some l.
Proof. destruct fuel; reflexivity. Qed.

Lemma tokenizeFrom_spec (fuel : nat) (st : lexerStateFn) (l : lexer) :
  ready st l -> (stepsLeft st l < fuel)%nat ->
  exists l', tokenizeFrom quoteRune fuel (Some st) l = Some l'
    /\ follows quoteRune l l'
    /\ (failed quoteRune l'
        \/ (ok l' /\ start l' = pos l'
            /\ ((pos l < pos l')%nat \/ pos l' = length (input l)))).
Proof.
  revert st l. induction fuel as [|f IH]; intros st l Hr Hf; [lia|].
  assert (Hnext : forall l1, follows quoteRune l l1 -> ok l1 -> start l1 = pos l1 ->
            (stepsLeft StateCode l1 < f)%nat ->
            exists l', tokenizeFrom quoteRune f (Some StateCode) l1 = Some l'
              /\ follows quoteRune l l'
              /\ (failed quoteRune l'
                  \/ (ok l' /\ start l' = pos l'
                      /\ ((pos l < pos l')%nat \/ pos l' = length (input l))))).
  { intros l1 F Hk1 Hs1 Hf1.
    destruct (IH StateCode l1) as (l' & E & F' & Hend); [|exact Hf1|].
    { destruct F. split; [assumption|]. split; assumption. }
    exists l'. split; [exact E|]. split; [now apply follows_trans with l1|].
    destruct Hend as [?|(? & ? & Hq)]; [now left|right].
    destruct F as [Hi1 _ _ Hp1 _]. split; [assumption|]. split; [assumption|].
    rewrite Hi1 in Hq. lia. }
  cbn [tokenizeFrom]. unfold stepsLeft in *. destruct Hr as (Hw & Hk & Hst).
  destruct st; cbn [callState].
  - destruct (stateCode_spec f l Hw Hk Hst) as (l1 & st1 & -> & Hi & Hn & Hp & Hpost); [lia|].
    destruct st1 as [st'|].
    + destruct Hpost as (Hr' & Hlt & Hne).
      assert (Hw1 : wf l1) by apply Hr'.
      destruct (IH st' l1 Hr') as (l' & E & F' & Hend).
      { unfold stepsLeft. rewrite Hi. destruct Hw1. rewrite Hi in *.
        destruct st'; lia. }
      exists l'. split; [exact E|].
      destruct F'. split.
      * constructor; try congruence; try lia; assumption.
      * destruct Hend as [?|(? & ? & Hq)]; [now left|right].
        split; [assumption|]. split; [assumption|]. rewrite Hi in Hq. lia.
    + destruct Hpost as (Hw1 & Hend). exists l1. split; [apply tokenizeFrom_nil|].
      split; [|exact Hend].
      constructor; try assumption.
      destruct Hend as [?|(? & ? & _)]; auto.
  - destruct (stateIdentifier_follows f l Hw Hk) as (l1 & -> & F & Hk1 & Hs1); [lia|].
    apply Hnext; try assumption.
    unfold stepsLeft. destruct F. rewrite fo_input0. lia.
  - destruct (stateNumber_follows f l Hw Hk) as (l1 & -> & F & Hk1 & Hs1); [lia|].
    apply Hnext; try assumption.
    unfold stepsLeft. destruct F. rewrite fo_input0. lia.
  - destruct (stateString_follows f l) as (l1 & st1 & -> & F & Hend);
      [split; [assumption|]; split; assumption | lia |].
    destruct Hend as [(Hfail & ->)|(Hk1 & Hs1 & ->)].
    + exists l1. split; [apply tokenizeFrom_nil|]. split; [exact F | now left].
    + apply Hnext; try assumption.
      unfold stepsLeft. destruct F. rewrite fo_input0. lia.
Qed.

(** * Text mode *)

(** The comment loop either passes a closing delimiter found at offset [p],
    having stepped over a body without newline, or fails. *)
Lemma commentBody_spec (fuel : nat) (l : lexer) :
  (pos l <= length (input l))%nat -> (length (input l) - pos l < fuel)%nat ->
  (exists p w cl,
      commentBody fuel l = Some (set_col cl (set_pos (p + 2) (set_width w l)), true)
      /\ (pos l <= p)%nat /\ (p + 2 <= length (input l))%nat /\ col l <= cl
      /\ slice (input l) p (p + 2) = str "#}"
      /\ ~ In newline (slice (input l) (pos l) p))
  \/ (exists p w cl m,
      commentBody fuel l = Some (errorf m (set_col cl (set_pos p (set_width w l))), false)
      /\ (pos l <= p <= length (input l))%nat /\ col l <= cl
      /\ (m = msgCommentNotClosed \/ m = msgCommentNewline)).
Proof.
  clear quoteRune. revert l. induction fuel as [|f IH]; intros l Hp Hf; [lia|].
  cbn [commentBody].
  destruct (nth_error (input l) (pos l)) as [c|] eqn:E.
  - assert (Hlt : (pos l < length (input l))%nat) by (apply nth_error_Some; congruence).
    destruct (peek_at_byte l c E) as (r & w & -> & Hr).
    destruct (Z.eqb_spec r EOF) as [Hr1|Hr1].
    { right. exists (pos l), w, (col l), msgCommentNotClosed.
      split; [reflexivity|]. split; [lia|]. split; [lia | now left]. }
    destruct (Z.eqb_spec r (byteZ newline)) as [Hr2|Hr2].
    { right. exists (pos l), w, (col l), msgCommentNewline.
      split; [reflexivity|]. split; [lia|]. split; [lia | now right]. }
    fields.
    destruct (HasPrefix (slice_from (input l) (pos l)) (str "#}")) eqn:Hpre.
    + left. exists (pos l), w, (col l + Z.of_nat 2). split; [reflexivity|].
      split; [lia|]. split; [exact (prefix_in_range _ _ _ Hpre Hp)|]. split; [lia|].
      split; [exact (slice_prefix _ _ _ Hpre)|].
      unfold slice. rewrite Nat.sub_diag. cbn. tauto.
    + assert (Hc : c <> newline).
      { intros ->. destruct Hr as [(_ & ->)|(Hc & _)]; [congruence|].
        change (byteZ newline) with 10 in Hc. lia. }
      destruct (IH (advance 1 (set_width w l))) as
          [(p & w' & cl & Es & Hb1 & Hb2 & Hcl & Hclose & Hbody)
          |(p & w' & cl & m & Es & Hb & Hcl & Hm)]; fields; try lia.
      * left. exists p, w', cl. rewrite Es. split; [reflexivity|].
        split; [lia|]. split; [lia|]. split; [lia|]. split; [exact Hclose|].
        rewrite (slice_app (input l) (pos l) (pos l + 1) p) by lia.
        rewrite Nat.add_1_r at 1. rewrite (slice_nth _ _ _ E).
        intros [H|H]; [congruence | contradiction].
      * right. exists p, w', cl, m. rewrite Es. split; [reflexivity|].
        split; [lia|]. split; [lia | exact Hm].
  - apply nth_error_None in E. rewrite peek_at_end by exact E.
    cbn [Z.eqb EOF Pos.eqb].
    right. exists (pos l), 0%nat, (col l), msgCommentNotClosed.
    split; [reflexivity|]. split; [lia|]. split; [lia | now left].
Qed.

(** One character of literal text: the state after the position update and
    the call of [next]. *)
Lemma text_step (l : lexer) (w : nat) (ln cl : Z) :
  wf l -> ok l -> 1 <= ln -> 1 <= cl ->
  exists r l3, next (set_col cl (set_line ln (set_width w l))) = (r, l3)
    /\ wf l3 /\ ok l3 /\ input l3 = input l /\ name l3 = name l
    /\ ((r = EOF /\ (pos l3 = length (input l) \/ In soh (input l)))
        \/ (r <> EOF /\ (pos l < pos l3)%nat)).
Proof.
  intros Hw Hk Hln Hcl.
  set (l2 := set_col cl (set_line ln (set_width w l))).
  destruct (nth_error (input l2) (pos l2)) as [c|] eqn:E.
  - destruct (next_at_byte l2 c E) as (r & w' & -> & Hw1 & Hw2 & Hr).
    eexists _, _. split; [reflexivity|]. subst l2. fields.
    split; [destruct Hw; constructor; fields; lia|].
    split; [destruct Hk; constructor; assumption|].
    split; [reflexivity|]. split; [reflexivity|].
    destruct (Z.eq_dec r EOF) as [Hr1|Hr1]; [left|right; split; [exact Hr1 | lia]].
    split; [exact Hr1|]. right.
    destruct Hr as [(_ & Hrc & _)|(_ & ? & _)]; [|unfold EOF in *; lia].
    assert (c = soh) by (apply byteZ_inj; rewrite <- Hrc, Hr1; reflexivity). subst c.
    eapply nth_error_In, E.
  - apply nth_error_None in E. rewrite next_at_end by exact E.
    eexists _, _. split; [reflexivity|]. subst l2. fields.
    split; [destruct Hw; constructor; fields; lia|].
    split; [destruct Hk; constructor; assumption|].
    split; [reflexivity|]. split; [reflexivity|].
    left. split; [reflexivity|]. left. destruct Hw. lia.
Qed.

Lemma peek_shape (l : lexer) : exists r w, peek l = (r, set_width w l).
Proof.
  destruct (nth_error (input l) (pos l)) as [c|] eqn:E.
  - destruct (peek_at_byte l c E) as (r & w & -> & _). eauto.
  - apply nth_error_None in E. rewrite peek_at_end by exact E. eauto.
Qed.

(** A whole comment, from its opening delimiter at [a] to the end of its
    closing delimiter found at [p]. *)
Lemma comment_slice (s : gostring) (a p : nat) :
  HasPrefix (slice_from s a) (str "{#") = true ->
  slice s p (p + 2) = str "#}" -> (a + 2 <= p)%nat ->
  firstn (p + 2) s = firstn a s ++ (str "{#" ++ slice s (a + 2) p ++ str "#}").
Proof.
  intros Ho Hc Hle.
  rewrite (firstn_slice s a (p + 2)) by lia. f_equal.
  rewrite (slice_app s a (a + 2) (p + 2)) by lia.
  rewrite (slice_app s (a + 2) p (p + 2)) by lia.
  rewrite Hc. f_equal. exact (slice_prefix s (str "{#") a Ho).
Qed.

(** [run] returns on every input, given the fuel of [lexFuel]; it ends
    failed, or with every token accounted for and, unless a byte 0x01
    stopped it, the whole input consumed. *)
Lemma run_spec (fuel : nat) (l : lexer) :
  wf l -> ok l -> (2 * (length (input l) - pos l) + 4 <= fuel)%nat ->
  exists l', run quoteRune fuel l = Some l'
    /\ input l' = input l /\ name l' = name l /\ wf l'
    /\ (failed quoteRune l'
        \/ (ok l' /\ start l' = pos l'
            /\ (pos l' = length (input l) \/ In soh (input l)))).
Proof.
  revert l. induction fuel as [|f IH]; intros l Hw Hk Hf; [lia|].
  cbn [run].
  pose proof (flushHTML_wf l Hw) as Hw0. pose proof (flushHTML_ok l Hw Hk) as Hk0.
  destruct (flushHTML_fields l Hw) as (Hi0 & Hn0 & Hp0 & Hs0).
  pose proof (wf_pos l Hw) as Hpl.
  destruct (HasPrefix (slice_from (input l) (pos l)) (str "{#")) eqn:Hc.
  - (* a comment *)
    pose proof (prefix_in_range _ _ _ Hc Hpl) as Hr. change (length (str "{#")) with 2%nat in Hr.
    destruct (commentBody_spec f (advance 2 (flushHTML l))) as
        [(p & w & cl & -> & Hb1 & Hb2 & Hcl & Hclose & Hbody)
        |(p & w & cl & m & -> & Hb & Hcl & Hm)];
      fields; rewrite ?Hi0, ?Hp0 in *; try lia.
    + destruct (IH (ignore (set_col cl (set_pos (p + 2)
                         (set_width w (advance 2 (flushHTML l)))))))
        as (l' & E & Hi & Hn & Hw' & Hend).
      * destruct Hw0. constructor; fields; rewrite ?Hi0, ?Hs0 in *; lia.
      * destruct Hk0 as [He Ht Hrec]. constructor; fields; try assumption.
        rewrite Hi0, Hs0 in *.
        rewrite (comment_slice (input l) (pos l) p Hc Hclose) by lia.
        apply recon_gap; [exact Hrec | now constructor].
      * fields. rewrite Hi0. lia.
      * fields. rewrite ?Hi0, ?Hp0 in *. exists l'. rewrite E. split; [reflexivity|].
        split; [congruence|]. split; [congruence|]. split; assumption.
    + eexists. split; [reflexivity|]. fields.
      split; [assumption|]. split; [assumption|].
      split; [destruct Hw0; constructor; fields; rewrite ?Hi0, ?Hs0 in *; lia|].
      left. apply errorf_failed; fields; try apply Hw0; try apply Hk0.
      destruct Hm as [->| ->]; [left | right; left]; reflexivity.
  - destruct (_ || _) eqn:Ht.
    + (* a tag *)
      assert (Hr : (pos l + 2 <= length (input l))%nat).
      { apply orb_true_iff in Ht.
        destruct Ht as [Ht|Ht]; exact (prefix_in_range _ _ _ Ht Hpl). }
      unfold tokenize.
      destruct (tokenizeFrom_spec f StateCode (flushHTML l)) as (l1 & -> & F & Hend).
      { split; [assumption|]. split; [assumption|]. congruence. }
      { unfold stepsLeft. rewrite Hi0, Hp0. lia. }
      destruct F as [Hi1 Hn1 Hw1 Hp1 _].
      destruct Hend as [Hfail|(Hk1 & Hs1 & Hprog)].
      * rewrite (failed_errored _ _ Hfail). exists l1. split; [reflexivity|].
        split; [congruence|]. split; [congruence|]. split; [assumption | now left].
      * rewrite (ok_errored _ Hk1).
        destruct (IH l1 Hw1 Hk1) as (l' & E & Hi & Hn & Hw' & Hend).
        { rewrite Hi1, Hi0, Hp0 in *. lia. }
        exists l'. rewrite E. split; [reflexivity|].
        split; [congruence|]. split; [congruence|]. split; [assumption|].
        rewrite Hi1, Hi0 in Hend. exact Hend.
    + (* literal text *)
      destruct (peek_shape l) as (r & w & ->).
      assert (T : exists r' l3,
                 next (if r =? byteZ newline
                       then set_col 1 (set_line (line (set_width w l) + 1) (set_width w l))
                       else set_col (col (set_width w l) + 1) (set_width w l)) = (r', l3)
                 /\ wf l3 /\ ok l3 /\ input l3 = input l /\ name l3 = name l
                 /\ ((r' = EOF /\ (pos l3 = length (input l) \/ In soh (input l)))
                     \/ (r' <> EOF /\ (pos l < pos l3)%nat))).
      { destruct (r =? byteZ newline).
        - apply (text_step l w (line l + 1) 1); try assumption; destruct Hw; lia.
        - apply (text_step l w (line l) (col l + 1)); try assumption; destruct Hw; lia. }
      destruct T as (r' & l3 & -> & Hw3 & Hk3 & Hi3 & Hn3 & Hcase).
      destruct (Z.eqb_spec r' EOF) as [Hr1|Hr1].
      * destruct Hcase as [(_ & Hfin)|(? & _)]; [|contradiction].
        eexists. split; [reflexivity|].
        destruct (flushHTML_fields l3 Hw3) as (Hi4 & Hn4 & Hp4 & Hs4).
        split; [congruence|]. split; [congruence|].
        split; [now apply flushHTML_wf|]. right.
        split; [now apply flushHTML_ok|]. split; [congruence|].
        rewrite Hp4. exact Hfin.
      * destruct Hcase as [(? & _)|(_ & Hlt)]; [contradiction|].
        destruct (IH l3 Hw3 Hk3) as (l' & E & Hi & Hn & Hw' & Hend).
        { pose proof (wf_pos l3 Hw3). rewrite Hi3 in *. lia. }
        exists l'. rewrite E. split; [reflexivity|].
        split; [congruence|]. split; [congruence|]. split; [assumption|].
        rewrite Hi3 in Hend. exact Hend.
Qed.

End Correctness.

(** * Positions recorded on tokens *)

(** C2 (comment transparency).  On the input [A{# note #}B] the scan
    succeeds with exactly two HTML tokens, [A] and [B], and no token for the
    comment; but the second token is recorded at line 1, column 2, while the
    character [B] stands at byte offset 11, that is line 1, column 12: the
    comment branch advances [col] and then calls [ignore], which moves
    [start] only and leaves [startcol] where the last [emit] put it. *)
Theorem comment_transparency_position (q : Z -> gostring) :
  lex q (str "t") (str "A{# note #}B")
  = Some (Tokens [mkToken TokenHTML (str "A") 1 1; mkToken TokenHTML (str "B") 1 2])
  /\ specPosition (str "A{# note #}B") 11 = (1, 12).
Proof. split; vm_compute; reflexivity. Qed.

(** C3 (token positions).  On the input [Hello {{ name }}!] the identifier
    [name] starts at byte offset 9, line 1 column 10, and the closing
    delimiter at offset 14, column 15; the tokens carry columns 9 and 14:
    white space skipped in code mode advances [col] but not [startcol]. On
    [{{ a and b }}] the token [b] after the keyword is recorded at column
    6 although it stands at column 10, since in addition the keyword branch
    emits without adding the width of the keyword to [col]. *)
Theorem token_position_after_skipped_space (q : Z -> gostring) :
  lex q (str "t") (str "Hello {{ name }}!")
  = Some (Tokens [mkToken TokenHTML (str "Hello ") 1 1;
                  mkToken TokenSymbol (str "{{") 1 7;
                  mkToken TokenIdentifier (str "name") 1 9;
                  mkToken TokenSymbol (str "}}") 1 14;
                  mkToken TokenHTML (str "!") 1 17])
  /\ specPosition (str "Hello {{ name }}!") 9 = (1, 10)
  /\ specPosition (str "Hello {{ name }}!") 14 = (1, 15)
  /\ lex q (str "t") (str "{{ a and b }}")
     = Some (Tokens [mkToken TokenSymbol (str "{{") 1 1;
                     mkToken TokenIdentifier (str "a") 1 3;
                     mkToken TokenKeyword (str "and") 1 5;
                     mkToken TokenIdentifier (str "b") 1 6;
                     mkToken TokenSymbol (str "}}") 1 8])
  /\ specPosition (str "{{ a and b }}") 9 = (1, 10).
Proof. repeat split; vm_compute; reflexivity. Qed.

(** * Symbols *)

Lemma find_in_prefix {A : Type} (f : A -> bool) (n : nat) (xs : list A) (x : A) :
  In x (firstn n xs) -> f x = true ->
  exists y, find f xs = Some y /\ In y (firstn n xs).
Proof.
  revert n. induction xs as [|a xs IH]; intros [|n] Hin Hx; cbn in *; try contradiction.
  destruct (f a) eqn:E.
  - exists a. auto.
  - destruct Hin as [->|Hin]; [congruence|].
    destruct (IH n Hin Hx) as (y & Hy & Hin'). exists y. auto.
Qed.

(** C4 (symbol table).  The table is the one listed, in that order.  In
    code mode ([start = pos]), when the byte under the cursor is neither
    white space, nor an identifier character, nor a digit, nor a double
    quote, and [sym] is the first entry of the table that is a prefix of the
    remaining input, one pass of [stateCode] consumes exactly [sym] and
    appends the single token Symbol([sym]); it returns the nil state after a
    closing delimiter and goes round the loop otherwise.  When some
    two-character entry is a prefix of the remaining input, the first
    matching entry has two characters. *)
Theorem symbol_first_match (q : Z -> gostring) (fuel : nat) (l : lexer) (sym : gostring) :
  start l = pos l ->
  (forall c, nth_error (input l) (pos l) = Some c ->
     ~ In c tokenSpaceChars /\ ~ In c tokenIdentifierChars
     /\ ~ In c tokenDigits /\ c <> dquote) ->
  find (fun s => HasPrefix (slice_from (input l) (pos l)) s) tokenSymbols = Some sym ->
  tokenSymbols
  = map str ["=="; ">="; "<="; "&&"; "||"; "{{"; "}}"; "{%"; "%}"; "!="; "<>";
             "("; ")"; "+"; "-"; "*"; "<"; ">"; "/"; "^"; ","; "."; "!"; "|"; ":"; "="]%string
  /\ (exists l',
        tokens l' = tokens l ++ [mkToken TokenSymbol sym (startline l) (startcol l)]
        /\ pos l' = (pos l + length sym)%nat /\ start l' = pos l'
        /\ input l' = input l /\ errored l' = errored l
        /\ stateCode q (S fuel) l
           = if closesTag sym then Some (l', None) else stateCode q fuel l')
  /\ ((exists s2, In s2 twoCharSymbols
                  /\ HasPrefix (slice_from (input l) (pos l)) s2 = true)
      -> length sym = 2%nat).
Proof.
  intros Hs Hc Hfind. split; [reflexivity|]. split.
  - cbn [stateCode]. unfold codeBody.
    destruct (accept_cases tokenSpaceChars l asciiTable_space soh_not_space)
      as [(c & E & Hin & _)|(w1 & -> & _)]; [destruct (Hc c E); tauto|].
    destruct (accept_cases tokenIdentifierChars (set_width w1 l) asciiTable_ident soh_not_ident)
      as [(c & E & Hin & _)|(w2 & -> & _)]; [destruct (Hc c E); tauto|].
    destruct (accept_cases tokenDigits (set_width w2 (set_width w1 l))
                asciiTable_digits soh_not_digit)
      as [(c & E & Hin & _)|(w3 & -> & _)]; [destruct (Hc c E); tauto|].
    destruct (accept_cases [dquote] (set_width w3 (set_width w2 (set_width w1 l)))
                asciiTable_quote soh_not_quote)
      as [(c & E & [<-|[]] & _)|(w4 & -> & _)]; [destruct (Hc dquote E); tauto|].
    cbv beta iota. rewrite matchSymbol_find. fields. rewrite Hs, Hfind. cbn [option_map].
    eexists. split; [|split; [|split; [|split; [|split]]]];
      [| | | | | unfold closesTag; destruct (_ || _); reflexivity];
      fields; try reflexivity.
    unfold value. fields. rewrite Hs.
    apply find_some in Hfind. destruct Hfind as [_ Hp].
    now rewrite (slice_prefix _ _ _ Hp).
  - intros (s2 & Hin & Hp).
    destruct (find_in_prefix (fun s => HasPrefix (slice_from (input l) (pos l)) s)
                11 tokenSymbols s2 Hin Hp) as (y & Hy & Hiny).
    rewrite Hfind in Hy. injection Hy as <-.
    repeat (destruct Hiny as [<-|Hiny]; [reflexivity|]). destruct Hiny.
Qed.

(** * Identifiers, keywords and numbers *)

Lemma isKeyword_In (kws : list gostring) (v : gostring) :
  isKeyword kws v = true <-> In v kws.
Proof.
  induction kws as [|kw rest IH]; cbn; [split; [discriminate | tauto]|].
  destruct (gostring_eqb kw v) eqn:E.
  - apply gostring_eqb_eq in E. split; auto.
  - rewrite IH. split; [auto|]. intros [H|H]; [|exact H].
    apply gostring_eqb_eq in H. congruence.
Qed.

(** C5 (keyword or identifier).  Entered with the cursor [pos] after the
    first identifier character, [stateIdentifier] consumes the longest run
    of characters of [A-Za-z_] (up to some offset [p1]), then the longest
    run of decimal digits, and appends exactly one token whose text is the
    input from [start] to the new [pos]; that token is a Keyword exactly
    when its text is one of in, and, or, not, true, false, and an Identifier
    otherwise.  On [{% if a and b %}] the scan yields Symbol, Identifier
    [if], Identifier [a], Keyword [and], Identifier [b], Symbol. *)
Theorem keyword_or_identifier :
  (forall (fuel : nat) (l : lexer),
      (pos l <= length (input l))%nat -> (length (input l) - pos l < fuel)%nat ->
      exists l' t p1,
        stateIdentifier fuel l = Some (l', Some StateCode)
        /\ tokens l' = tokens l ++ [t]
        /\ Val t = slice (input l) (start l) (pos l')
        /\ (pos l <= p1 <= pos l')%nat /\ (pos l' <= length (input l))%nat
        /\ Forall (fun c => In c tokenIdentifierChars) (slice (input l) (pos l) p1)
        /\ stopsAt tokenIdentifierChars (input l) p1
        /\ Forall (fun c => In c tokenDigits) (slice (input l) p1 (pos l'))
        /\ stopsAt tokenDigits (input l) (pos l')
        /\ (Typ t = TokenKeyword <->
            In (Val t) (map str ["in"; "and"; "or"; "not"; "true"; "false"]%string))
        /\ (Typ t = TokenIdentifier <->
            ~ In (Val t) (map str ["in"; "and"; "or"; "not"; "true"; "false"]%string)))
  /\ (forall q,
      option_map (fun r => match r with Tokens ts => Some (kinds ts) | LexError _ => None end)
                 (lex q (str "t") (str "{% if a and b %}"))
      = Some (Some [(TokenSymbol, str "{%"); (TokenIdentifier, str "if");
                    (TokenIdentifier, str "a"); (TokenKeyword, str "and");
                    (TokenIdentifier, str "b"); (TokenSymbol, str "%}")])).
Proof.
  split; [|intros q; vm_compute; reflexivity].
  intros fuel l Hp Hf.
  destruct (stateIdentifier_shape fuel l Hp Hf)
    as (p1 & p2 & w & E & Hb & Hb2 & Hall1 & Hstop1 & Hall2 & Hstop2).
  cbn zeta in E.
  change (map str ["in"; "and"; "or"; "not"; "true"; "false"]%string) with tokenKeywords.
  destruct (isKeyword tokenKeywords (value (set_pos p2 (set_width w l)))) eqn:K;
    eexists _, _, p1; (split; [exact E|]); fields;
    (split; [reflexivity|]); (split; [reflexivity|]);
    (split; [lia|]); (split; [lia|]);
    (split; [exact Hall1|]); (split; [exact Hstop1|]);
    (split; [exact Hall2|]); (split; [exact Hstop2|]).
  - apply isKeyword_In in K. unfold value in K. fields.
    split; split; auto; try discriminate. intros H. contradiction.
  - assert (~ In (slice (input l) (start l) p2) tokenKeywords).
    { intros H. apply isKeyword_In in H. unfold value in K. fields. congruence. }
    unfold value. fields.
    split; split; auto; try discriminate. intros H'. contradiction.
Qed.

(** C6 (numbers).  [stateNumber] consumes the longest run of decimal digits
    and nothing else, and appends one Number token whose text is the input
    from [start] to the new [pos]; so [{{ 4.2 }}] scans to Symbol,
    Number [4], Symbol [.], Number [2], Symbol. *)
Theorem number_digits_only :
  (forall (fuel : nat) (l : lexer),
      (pos l <= length (input l))%nat -> (length (input l) - pos l < fuel)%nat ->
      exists l' t,
        stateNumber fuel l = Some (l', Some StateCode)
        /\ tokens l' = tokens l ++ [t]
        /\ Typ t = TokenNumber
        /\ Val t = slice (input l) (start l) (pos l')
        /\ (pos l <= pos l' <= length (input l))%nat
        /\ Forall (fun c => In c (str "0123456789")) (slice (input l) (pos l) (pos l'))
        /\ stopsAt (str "0123456789") (input l) (pos l'))
  /\ (forall q,
      option_map (fun r => match r with Tokens ts => Some (kinds ts) | LexError _ => None end)
                 (lex q (str "t") (str "{{ 4.2 }}"))
      = Some (Some [(TokenSymbol, str "{{"); (TokenNumber, str "4");
                    (TokenSymbol, str "."); (TokenNumber, str "2");
                    (TokenSymbol, str "}}")])).
Proof.
  split; [|intros q; vm_compute; reflexivity].
  intros fuel l Hp Hf.
  destruct (stateNumber_shape fuel l Hp Hf) as (p & w & E & Hb & Hall & Hstop).
  eexists _, _. split; [exact E|]. fields. unfold value. fields.
  repeat split; try lia; assumption.
Qed.

(** * Unterminated strings and the end of the input *)

Lemma stringBody_closed (l : lexer) (p : nat) :
  (pos l <= p)%nat -> nth_error (input l) p = Some dquote ->
  In dquote (skipn (pos l) (input l)).
Proof.
  intros Hle Hq. apply nth_error_In with (p - pos l)%nat.
  rewrite nth_error_skipn. now replace (pos l + (p - pos l))%nat with p by lia.
Qed.

(** C7 (unterminated string).  When no double quote is left in the input
    after the opening one, [stateString] returns the nil state with
    [errored] set and one Error token "Unexpected EOF, string not closed."
    appended; on [{{ QUOTE abc }}] the scan returns a single error, whose
    text contains "string not closed", and no token. *)
Theorem unterminated_string :
  (forall (fuel : nat) (l : lexer),
      (pos l <= length (input l))%nat -> (length (input l) - pos l < fuel)%nat ->
      ~ In dquote (skipn (pos l) (input l)) ->
      exists l',
        stateString fuel l = Some (l', None)
        /\ errored l' = true
        /\ tokens l' = tokens l ++ [mkToken TokenError
                                      (str "Unexpected EOF, string not closed.")
                                      (startline l) (startcol l)])
  /\ (forall q,
        lex q (str "t") (str "{{ " ++ dquote :: str "abc }}")
        = Some (LexError (str "[Lexer Error in t (Line 1 Col 3)]: Unexpected EOF, "
                          ++ str "string not closed" ++ str "."))).
Proof.
  split; [|intros q; vm_compute; reflexivity].
  intros fuel l Hp Hf Hnq. unfold stateString.
  destruct (stringBody_spec fuel (ignore l)) as
      [(p & _ & Hb & Hq & _)|(p & w & -> & _)]; fields; try assumption.
  - exfalso. apply Hnq. apply stringBody_closed with p; [lia | exact Hq].
  - eexists. split; [reflexivity|]. fields. split; reflexivity.
Qed.

Lemma HasPrefix_nil (p : gostring) : p <> [] -> HasPrefix [] p = false.
Proof. destruct p; [congruence | reflexivity]. Qed.

Lemma HasPrefix_mismatch (c d : ascii) (t p : gostring) :
  c <> d -> HasPrefix (c :: t) (d :: p) = false.
Proof.
  intros H. apply not_true_is_false. rewrite HasPrefix_spec.
  intros (r & E). cbn in E. congruence.
Qed.

Lemma stateCode_at_end (q : Z -> gostring) (fuel : nat) (l : lexer) :
  start l = pos l -> (length (input l) <= pos l)%nat ->
  stateCode q (S fuel) l = Some (set_width 0 l, None).
Proof.
  intros Hs He. cbn [stateCode]. unfold codeBody.
  rewrite (accept_at_end tokenSpaceChars l soh_not_space He).
  rewrite (accept_at_end tokenIdentifierChars (set_width 0 l) soh_not_ident He).
  rewrite (accept_at_end tokenDigits (set_width 0 (set_width 0 l)) soh_not_digit He).
  rewrite (accept_at_end [dquote] (set_width 0 (set_width 0 (set_width 0 l)))
             soh_not_quote He).
  cbv beta iota. rewrite matchSymbol_find. fields.
  rewrite Hs. unfold slice_from. rewrite skipn_all2 by exact He.
  cbn [find tokenSymbols map HasPrefix length Nat.leb andb option_map str
       list_ascii_of_string].
  apply Nat.ltb_ge in He. now rewrite He.
Qed.

Lemma run_at_end (q : Z -> gostring) (fuel : nat) (l : lexer) :
  start l = pos l -> (length (input l) <= pos l)%nat ->
  run q (S fuel) l = Some (set_width 0 (set_col (col l + 1) (set_width 0 l))).
Proof.
  intros Hs He. cbn [run]. unfold slice_from. rewrite skipn_all2 by exact He.
  cbn [HasPrefix str list_ascii_of_string length Nat.leb andb orb].
  rewrite peek_at_end by exact He.
  change (EOF =? byteZ newline) with false. cbv iota.
  rewrite next_at_end by exact He. change (EOF =? EOF) with true. cbv iota.
  unfold flushHTML. fields. rewrite Hs, Nat.ltb_irrefl. reflexivity.
Qed.

(** C9 (end of input in code mode).  With the input exhausted in code mode,
    [stateCode] returns the nil state without raising an error and without
    a token, [tokenize] returns, and [run] then ends with the same tokens
    and the same [errored] flag; on [{{ foo] the scan succeeds with the two
    tokens emitted before the end. *)
Theorem code_mode_end_of_input :
  (forall (q : Z -> gostring) (fuel : nat) (l : lexer),
      start l = pos l -> (length (input l) <= pos l)%nat ->
      stateCode q (S fuel) l = Some (set_width 0 l, None)
      /\ tokenize q (S (S fuel)) l = Some (set_width 0 l)
      /\ exists l', run q (S fuel) (set_width 0 l) = Some l'
                    /\ tokens l' = tokens l /\ errored l' = errored l)
  /\ (forall q,
        lex q (str "t") (str "{{ foo")
        = Some (Tokens [mkToken TokenSymbol (str "{{") 1 1;
                        mkToken TokenIdentifier (str "foo") 1 3])).
Proof.
  split; [|intros q; vm_compute; reflexivity].
  intros q fuel l Hs He.
  pose proof (stateCode_at_end q fuel l Hs He) as E.
  split; [exact E|]. split.
  - unfold tokenize. cbn [tokenizeFrom callState]. rewrite E. reflexivity.
  - eexists. split; [apply run_at_end; fields; assumption|]. split; reflexivity.
Qed.

(** * The byte 0x01 *)

Lemma run_at_soh (q : Z -> gostring) (fuel : nat) (l : lexer) :
  (start l <= pos l)%nat -> nth_error (input l) (pos l) = Some soh ->
  run q (S fuel) l
  = Some (emit TokenHTML (set_pos (pos l + 1) (set_width 1 (set_col (col l + 1) l)))).
Proof.
  intros Hs E. cbn [run]. unfold slice_from.
  rewrite (nth_error_skipn_cons _ _ _ E).
  unfold str. cbn [list_ascii_of_string].
  rewrite !HasPrefix_mismatch by discriminate. cbn [orb].
  unfold peek. rewrite (next_ascii l soh E) by (vm_compute; reflexivity).
  rewrite backup_next.
  change (byteZ soh =? byteZ newline) with false. cbv iota.
  rewrite (next_ascii (set_col (col (set_width 1 l) + 1) (set_width 1 l)) soh E)
    by (vm_compute; reflexivity).
  change (byteZ soh =? EOF) with true. cbv iota.
  unfold flushHTML. fields.
  assert (H : (start l <? pos l + 1)%nat = true) by (apply Nat.ltb_lt; lia).
  now rewrite H.
Qed.

Lemma string_stops_at_soh (fuel : nat) (l : lexer) (body rest : gostring) :
  (length (input l) - pos l < fuel)%nat ->
  skipn (pos l) (input l) = body ++ soh :: rest -> ~ In dquote body ->
  exists p w,
    stringBody fuel l = Some (errorf msgStringNotClosed (set_pos p (set_width w l)), false).
Proof.
  intros Hf Hrest Hnq.
  assert (Hp : (pos l <= length (input l))%nat).
  { destruct (Nat.le_gt_cases (pos l) (length (input l))) as [H|H]; [exact H|].
    rewrite skipn_all2 in Hrest by lia. destruct body; discriminate. }
  destruct (stringBody_spec fuel l Hp Hf) as
      [(p & _ & Hb & Hq & _ & Hns)|(p & w & E & _)]; [exfalso | eauto].
  assert (Hq' : nth_error (body ++ soh :: rest) (p - pos l) = Some dquote).
  { rewrite <- Hrest, nth_error_skipn.
    now replace (pos l + (p - pos l))%nat with p by lia. }
  destruct (Nat.lt_trichotomy (p - pos l) (length body)) as [Hlt|[Heq|Hgt]].
  - rewrite nth_error_app1 in Hq' by exact Hlt. apply Hnq. eapply nth_error_In, Hq'.
  - rewrite nth_error_app2, Heq, Nat.sub_diag in Hq' by lia. discriminate.
  - apply Hns. unfold slice. rewrite Hrest, firstn_app. apply in_or_app. right.
    destruct (p - pos l - length body)%nat eqn:F; [lia|]. now left.
Qed.

(** C10 (the sentinel).  The rune returned at the end of the input is 1,
    which is also what the byte 0x01 decodes to.  In text mode, with a byte
    0x01 under the cursor, [run] stops there whatever follows: it appends
    one HTML token made of the pending text and that byte and returns, the
    [errored] flag unchanged, so nothing after the byte reaches a token.
    Inside a string literal, a byte 0x01 with no double quote before it
    makes [stateString] fail with "Unexpected EOF, string not closed."
    whatever follows, a closing quote included. *)
Theorem sentinel_byte_stops_scan :
  EOF = byteZ soh
  /\ (forall (q : Z -> gostring) (fuel : nat) (l : lexer),
        (start l <= pos l)%nat -> nth_error (input l) (pos l) = Some soh ->
        exists l',
          run q (S fuel) l = Some l'
          /\ tokens l' = tokens l ++ [mkToken TokenHTML
                                        (slice (input l) (start l) (S (pos l)))
                                        (startline l) (startcol l)]
          /\ errored l' = errored l /\ pos l' = S (pos l))
  /\ (forall (fuel : nat) (l : lexer) (body rest : gostring),
        (length (input l) - pos l < fuel)%nat ->
        skipn (pos l) (input l) = body ++ soh :: rest -> ~ In dquote body ->
        exists l',
          stateString fuel l = Some (l', None)
          /\ errored l' = true
          /\ tokens l' = tokens l ++ [mkToken TokenError
                                        (str "Unexpected EOF, string not closed.")
                                        (startline l) (startcol l)])
  /\ (forall q,
        lex q (str "t") (str "a" ++ soh :: str "b{{ x }}")
        = Some (Tokens [mkToken TokenHTML (str "a" ++ [soh]) 1 1])
        /\ lex q (str "t")
             (str "{{ " ++ dquote :: str "a" ++ soh :: str "b" ++ dquote :: str " }}")
           = Some (LexError (str "[Lexer Error in t (Line 1 Col 3)]: "
                             ++ str "Unexpected EOF, string not closed."))).
Proof.
  split; [reflexivity|]. split; [|split].
  - intros q fuel l Hs E. eexists. split; [now apply run_at_soh|].
    fields. unfold value. fields. rewrite Nat.add_1_r. repeat split.
  - intros fuel l body rest Hf Hrest Hnq. unfold stateString.
    destruct (string_stops_at_soh fuel (ignore l) body rest) as (p & w & ->);
      fields; try assumption.
    eexists. split; [reflexivity|]. fields. split; reflexivity.
  - intros q. split; vm_compute; reflexivity.
Qed.

(** * The whole scan *)

Lemma lex_run (q : Z -> gostring) (nm s : gostring) :
  exists l, run q (lexFuel s) (newLexer nm s) = Some l
    /\ input l = s /\ name l = nm /\ wf l
    /\ (failed q l
        \/ (ok l /\ start l = pos l /\ (pos l = length s \/ In soh s))).
Proof.
  apply (run_spec q (lexFuel s) (newLexer nm s)).
  - constructor; cbn; lia.
  - constructor; cbn; [reflexivity | constructor | constructor].
  - unfold lexFuel. cbn. lia.
Qed.

(** [lex] returns on every input. *)
Lemma lex_total (q : Z -> gostring) (nm s : gostring) : exists r, lex q nm s = Some r.
Proof.
  destruct (lex_run q nm s) as (l & E & _). unfold lex. rewrite E. cbn. eauto.
Qed.

Lemma render_snoc (ts : list Token) (t : Token) : render (ts ++ [t]) = render ts ++ text t.
Proof.
  unfold render. rewrite map_app, concat_app. cbn. now rewrite app_nil_r.
Qed.

(** Without white space and without the character [#] there is no gap. *)
Lemma Recon_exact (ts : list Token) (s : gostring) :
  Recon ts s ->
  (forall c, In c s -> ~ In c tokenSpaceChars /\ c <> "#"%char) ->
  render ts = s.
Proof.
  induction 1 as [|ts s t _ IH|ts s g _ IH Hg]; intros Hc.
  - reflexivity.
  - rewrite render_snoc, IH; [reflexivity|].
    intros c Hin. apply Hc, in_or_app. now left.
  - exfalso. destruct Hg as [c Hsp|body _].
    + destruct (Hc c) as [Hn _]; [apply in_or_app; right; now left | exact (Hn Hsp)].
    + destruct (Hc "#"%char) as [_ Hn]; [|exact (Hn eq_refl)].
      apply in_or_app. right. cbn. right. now left.
Qed.

Lemma lex_tokens (q : Z -> gostring) (nm s : gostring) (ts : list Token) :
  ~ In soh s -> lex q nm s = Some (Tokens ts) -> Recon ts s.
Proof.
  intros Hs.
  destruct (lex_run q nm s) as (l & E & Hi & _ & _ & Hend). unfold lex. rewrite E. cbn.
  unfold lexResult. destruct Hend as [[He _]|([He _ Hr] & Hst & Hfin)]; rewrite He.
  - discriminate.
  - intros [= <-]. destruct Hfin as [Hfin|Hfin]; [|contradiction].
    rewrite Hst, Hfin, Hi, firstn_all in Hr. exact Hr.
Qed.

(** A single error.  [lex] returns on every input; when it returns an
    error, [run] ended with [errored] set and exactly one Error token, the
    last one, nothing being scanned after it; that token carries a line and
    a column of at least 1 and one of the four messages, and the error text
    is built from the template name, that line, that column and that
    message. *)
Lemma single_located_error (q : Z -> gostring) (nm s : gostring) :
  (exists r, lex q nm s = Some r)
  /\ (forall msg, lex q nm s = Some (LexError msg) ->
      exists l ts t,
        run q (lexFuel s) (newLexer nm s) = Some l
        /\ errored l = true
        /\ tokens l = ts ++ [t]
        /\ Forall (fun t' => Typ t' <> TokenError) ts
        /\ Typ t = TokenError /\ 1 <= Line t /\ 1 <= Col t
        /\ (Val t = str "Single-line comment not closed."
            \/ Val t = str "Newline not permitted in a single-line comment."
            \/ Val t = str "Unexpected EOF, string not closed."
            \/ exists r1 r2,
                 Val t = str "Unknown character: " ++ q r1 ++ str " ("
                         ++ itoa r2 ++ str ")")
        /\ msg = str "[Lexer Error in " ++ nm ++ str " (Line " ++ itoa (Line t)
                 ++ str " Col " ++ itoa (Col t) ++ str ")]: " ++ Val t).
Proof.
  split; [apply lex_total|]. intros msg.
  destruct (lex_run q nm s) as (l & E & Hi & Hn & _ & Hend). unfold lex. rewrite E. cbn.
  unfold lexResult. destruct Hend as [[He Ht]|([He _ _] & _)]; rewrite He.
  - intros [= <-]. destruct Ht as (ts & t & Ets & Hall & Hty & Hl & Hc & Hm).
    exists l, ts, t. rewrite Ets, last_last, Hn.
    repeat (split; [first [assumption | reflexivity | exact Hm]|]). reflexivity.
  - discriminate.
Qed.

(** C8 (located error).  [lex] does return a single error built from the
    template name, a line, a column and a message ([single_located_error]),
    but the line and the column are those recorded at the last [emit], not
    those of the malformed construct: white space skipped in code mode
    moves [line] and [col] while [ignore] leaves [startline] and [startcol]
    behind, and [errorf] reports the latter.  On the first input the
    unknown character stands at line 2, column 3 and is reported at line 1,
    column 5; on the second it stands at line 2, column 4 and is reported
    at line 2, column 3; on the third the string that is not closed starts
    at column 4 and the input ends at column 11, and the error is reported
    at column 3. *)
Theorem error_position_stale (q : Z -> gostring) :
  lex q (str "t") (str "{{ a" ++ newline :: str "  ~ }}")
  = Some (LexError (str "[Lexer Error in t (Line 1 Col 5)]: Unknown character: "
                    ++ q 126 ++ str " (126)"))
  /\ nth_error (str "{{ a" ++ newline :: str "  ~ }}") 7 = Some "~"%char
  /\ specPosition (str "{{ a" ++ newline :: str "  ~ }}") 7 = (2, 3)
  /\ lex q (str "t") (str "{{" ++ newline :: str "ab ~ }}")
     = Some (LexError (str "[Lexer Error in t (Line 2 Col 3)]: Unknown character: "
                       ++ q 126 ++ str " (126)"))
  /\ nth_error (str "{{" ++ newline :: str "ab ~ }}") 6 = Some "~"%char
  /\ specPosition (str "{{" ++ newline :: str "ab ~ }}") 6 = (2, 4)
  /\ lex q (str "t") (str "{{ " ++ dquote :: str "abc }}")
     = Some (LexError (str "[Lexer Error in t (Line 1 Col 3)]: Unexpected EOF, string not closed."))
  /\ nth_error (str "{{ " ++ dquote :: str "abc }}") 3 = Some dquote
  /\ specPosition (str "{{ " ++ dquote :: str "abc }}") 3 = (1, 4)
  /\ specPosition (str "{{ " ++ dquote :: str "abc }}") 10 = (1, 11).
Proof.
  repeat split; vm_compute; reflexivity.
Qed.

(** * Instances *)

Lemma symbol_first_match_witness :
  start atSymbol = pos atSymbol
  /\ find (fun s => HasPrefix (slice_from (input atSymbol) (pos atSymbol)) s) tokenSymbols
     = Some (str "==")
  /\ exists l', tokens l' = [mkToken TokenSymbol (str "==") 1 6]
                /\ pos l' = 7%nat
                /\ stateCode quoteASCII 3 atSymbol = stateCode quoteASCII 2 l'.
Proof.
  assert (H1 : start atSymbol = pos atSymbol) by reflexivity.
  assert (H2 : forall c, nth_error (input atSymbol) (pos atSymbol) = Some c ->
                 ~ In c tokenSpaceChars /\ ~ In c tokenIdentifierChars
                 /\ ~ In c tokenDigits /\ c <> dquote).
  { intros c [= <-]. cbn. intuition discriminate. }
  assert (H3 : find (fun s => HasPrefix (slice_from (input atSymbol) (pos atSymbol)) s)
                    tokenSymbols = Some (str "==")) by (vm_compute; reflexivity).
  split; [exact H1|]. split; [exact H3|].
  destruct (symbol_first_match quoteASCII 2 atSymbol (str "==") H1 H2 H3)
    as (_ & (l' & Ht & Hp & _ & _ & _ & E) & _).
  exists l'. split; [exact Ht|]. split; [exact Hp | exact E].
Defined.

Lemma keyword_or_identifier_witness :
  (pos inIdentifier <= length (input inIdentifier))%nat
  /\ (length (input inIdentifier) - pos inIdentifier < 10)%nat
  /\ exists l' t,
       stateIdentifier 10 inIdentifier = Some (l', Some StateCode)
       /\ tokens l' = [t]
       /\ Val t = slice (input inIdentifier) 3 (pos l').
Proof.
  assert (H1 : (pos inIdentifier <= length (input inIdentifier))%nat) by (cbn; lia).
  assert (H2 : (length (input inIdentifier) - pos inIdentifier < 10)%nat) by (cbn; lia).
  split; [exact H1|]. split; [exact H2|].
  destruct (proj1 keyword_or_identifier 10%nat inIdentifier H1 H2)
    as (l' & t & p1 & E & Ht & Hv & _).
  exists l', t. split; [exact E|]. split; [exact Ht | exact Hv].
Defined.

Lemma number_digits_only_witness :
  (pos inNumber <= length (input inNumber))%nat
  /\ (length (input inNumber) - pos inNumber < 10)%nat
  /\ exists l' t,
       stateNumber 10 inNumber = Some (l', Some StateCode)
       /\ tokens l' = [t] /\ Typ t = TokenNumber
       /\ Val t = slice (input inNumber) 3 (pos l').
Proof.
  assert (H1 : (pos inNumber <= length (input inNumber))%nat) by (cbn; lia).
  assert (H2 : (length (input inNumber) - pos inNumber < 10)%nat) by (cbn; lia).
  split; [exact H1|]. split; [exact H2|].
  destruct (proj1 number_digits_only 10%nat inNumber H1 H2)
    as (l' & t & E & Ht & Hy & Hv & _).
  exists l', t. split; [exact E|]. split; [exact Ht|]. split; [exact Hy | exact Hv].
Defined.

Lemma unterminated_string_witness :
  ~ In dquote (skipn (pos inOpenString) (input inOpenString))
  /\ exists l',
       stateString 10 inOpenString = Some (l', None)
       /\ errored l' = true
       /\ tokens l' = [mkToken TokenError (str "Unexpected EOF, string not closed.") 1 3].
Proof.
  assert (H1 : (pos inOpenString <= length (input inOpenString))%nat) by (cbn; lia).
  assert (H2 : (length (input inOpenString) - pos inOpenString < 10)%nat) by (cbn; lia).
  assert (H3 : ~ In dquote (skipn (pos inOpenString) (input inOpenString)))
    by (cbn; intuition discriminate).
  split; [exact H3|].
  exact (proj1 unterminated_string 10%nat inOpenString H1 H2 H3).
Defined.

Lemma single_located_error_witness :
  lex quoteASCII (str "t") (str "ab{# c")
  = Some (LexError (str "[Lexer Error in t (Line 1 Col 3)]: Single-line comment not closed."))
  /\ exists t, Typ t = TokenError /\ 1 <= Line t /\ 1 <= Col t
               /\ str "[Lexer Error in t (Line 1 Col 3)]: Single-line comment not closed."
                  = str "[Lexer Error in " ++ str "t" ++ str " (Line " ++ itoa (Line t)
                    ++ str " Col " ++ itoa (Col t) ++ str ")]: " ++ Val t.
Proof.
  assert (H : lex quoteASCII (str "t") (str "ab{# c")
              = Some (LexError (str "[Lexer Error in t (Line 1 Col 3)]: Single-line comment not closed.")))
    by (vm_compute; reflexivity).
  split; [exact H|].
  destruct (proj2 (single_located_error quoteASCII (str "t") (str "ab{# c")) _ H)
    as (l & ts & t & _ & _ & _ & _ & Hy & Hl & Hc & _ & Hm).
  exists t. split; [exact Hy|]. split; [exact Hl|]. split; [exact Hc | exact Hm].
Defined.

Lemma code_mode_end_of_input_witness :
  start atEnd = pos atEnd
  /\ (length (input atEnd) <= pos atEnd)%nat
  /\ stateCode quoteASCII 1 atEnd = Some (set_width 0 atEnd, None)
  /\ tokenize quoteASCII 2 atEnd = Some (set_width 0 atEnd).
Proof.
  assert (H1 : start atEnd = pos atEnd) by reflexivity.
  assert (H2 : (length (input atEnd) <= pos atEnd)%nat) by (cbn; lia).
  split; [exact H1|]. split; [exact H2|].
  destruct (proj1 code_mode_end_of_input quoteASCII 0%nat atEnd H1 H2) as (E1 & E2 & _).
  split; [exact E1 | exact E2].
Defined.

Lemma sentinel_byte_stops_scan_witness :
  nth_error (input atSoh) (pos atSoh) = Some soh
  /\ (exists l', run quoteASCII 1 atSoh = Some l'
                 /\ tokens l' = [mkToken TokenHTML (str "a" ++ [soh]) 1 1]
                 /\ errored l' = false /\ pos l' = 2%nat)
  /\ (exists l', stateString 20 inSohString = Some (l', None)
                 /\ errored l' = true
                 /\ tokens l'
                    = [mkToken TokenError (str "Unexpected EOF, string not closed.") 1 3]).
Proof.
  assert (H1 : (start atSoh <= pos atSoh)%nat) by (cbn; lia).
  assert (H2 : nth_error (input atSoh) (pos atSoh) = Some soh) by reflexivity.
  assert (H3 : (length (input inSohString) - pos inSohString < 20)%nat) by (cbn; lia).
  assert (H4 : skipn (pos inSohString) (input inSohString)
               = str "a" ++ soh :: str "b" ++ dquote :: str " }}") by reflexivity.
  assert (H5 : ~ In dquote (str "a")) by (cbn; intuition discriminate).
  split; [exact H2|]. split.
  - exact (proj1 (proj2 sentinel_byte_stops_scan) quoteASCII 0%nat atSoh H1 H2).
  - exact (proj1 (proj2 (proj2 sentinel_byte_stops_scan)) 20%nat inSohString _ _ H3 H4 H5).
Defined.

(** * The cursor primitives, in full *)

(** X1: [next] keeps the cursor inside the input.  From a cursor that is not
    beyond the end, [next] moves forward by exactly the width it records,
    never beyond the end; the width is zero exactly at the end of the
    input, where the result is [EOF]; a byte below 128 is returned as
    itself with width one. *)
Theorem next_stays_in_bounds (l : lexer) :
  (pos l <= length (input l))%nat ->
  (pos l <= pos (snd (next l)) <= length (input l))%nat
  /\ pos (snd (next l)) = (pos l + width (snd (next l)))%nat
  /\ (width (snd (next l)) = 0%nat <-> pos l = length (input l))
  /\ (pos l = length (input l) -> fst (next l) = EOF)
  /\ (forall c, nth_error (input l) (pos l) = Some c -> byteZ c < 128 ->
        fst (next l) = byteZ c /\ width (snd (next l)) = 1%nat).
Proof.
  intros Hp. destruct (nth_error (input l) (pos l)) as [c|] eqn:E.
  - assert (Hlt : (pos l < length (input l))%nat) by (apply nth_error_Some; congruence).
    destruct (next_at_byte l c E) as (r & w & -> & Hw & Hb & Hr).
    cbn [fst snd pos width set_pos set_width].
    split; [lia|]. split; [reflexivity|]. split; [lia|]. split; [lia|].
    intros c' [= <-] Hc. destruct Hr as [(_ & -> & ->)|(Hge & _)]; [split; reflexivity | lia].
  - apply nth_error_None in E. rewrite (next_at_end l E).
    cbn [fst snd pos width set_width].
    split; [lia|]. split; [lia|]. split; [split; [lia | reflexivity]|].
    split; [reflexivity | discriminate].
Qed.

(** [peek] in terms of [next]. *)
Lemma peek_next (l : lexer) :
  peek l = (fst (next l), set_width (width (snd (next l))) l).
Proof.
  destruct (nth_error (input l) (pos l)) as [c|] eqn:E.
  - destruct (next_at_byte l c E) as (r & w & En & _). unfold peek.
    rewrite En, backup_next. reflexivity.
  - apply nth_error_None in E. unfold peek. rewrite next_at_end by exact E.
    now rewrite backup_at_end.
Qed.

(** X2: [peek] returns the rune [next] would return and restores the cursor:
    of the whole lexer only [width] changes. *)
Theorem peek_restores_cursor (l : lexer) :
  peek l = (fst (next l), set_width (width (snd (next l))) l).
Proof. exact (peek_next l). Qed.

Lemma existsb_In (c : ascii) (what : gostring) :
  existsb (Ascii.eqb c) what = true <-> In c what.
Proof.
  rewrite existsb_exists. split.
  - intros (x & Hin & Hx). apply Ascii.eqb_eq in Hx. now subst.
  - intros H. exists c. split; [exact H | apply Ascii.eqb_refl].
Qed.

(** X3: [accept], for a table of ASCII bytes without 0x01: it returns true
    exactly when the byte under the cursor is in the table, and then the
    cursor has moved by that one byte; otherwise, and always at the end of
    the input, it returns false and the cursor has not moved.  Nothing but
    [pos] and [width] changes. *)
Theorem accept_one_byte (what : gostring) (l : lexer) :
  asciiTable what -> ~ In soh what ->
  exists w,
    accept what l
    = match nth_error (input l) (pos l) with
      | Some c => if existsb (Ascii.eqb c) what
                  then (true, set_pos (pos l + 1) (set_width 1 l))
                  else (false, set_width w l)
      | None => (false, set_width 0 l)
      end.
Proof.
  intros Ha Hs. destruct (nth_error (input l) (pos l)) as [c|] eqn:E.
  - destruct (existsb (Ascii.eqb c) what) eqn:B.
    + exists 0%nat. apply existsb_In in B. now apply accept_hit with c.
    + destruct (accept_miss what l c E) as (w & Ew); [|eauto].
      intros Hin. apply existsb_In in Hin. congruence.
  - exists 0%nat. apply nth_error_None in E. now apply accept_at_end.
Qed.

(** * The longest run *)

(** X4: [acceptRun], for a table of ASCII bytes without 0x01 and a cursor in
    range: it returns (with fuel above the number of bytes left), having
    moved the cursor over the longest run of table bytes, possibly empty,
    and changed nothing but [pos] and [width]; at the end of the input it
    stops. *)
Theorem acceptRun_longest (what : gostring) (fuel : nat) (l : lexer) :
  asciiTable what -> ~ In soh what ->
  (pos l <= length (input l))%nat -> (length (input l) - pos l < fuel)%nat ->
  exists p w,
    acceptRun fuel what l = Some (set_pos p (set_width w l))
    /\ (pos l <= p <= length (input l))%nat
    /\ Forall (fun c => In c what) (slice (input l) (pos l) p)
    /\ stopsAt what (input l) p.
Proof. exact (acceptRun_spec what fuel l). Qed.

(** * Code mode, one step at a time *)

Lemma gostring_eqb_single (c d : ascii) : gostring_eqb [c] [d] = Ascii.eqb c d.
Proof.
  destruct (Ascii.eqb_spec c d) as [->|H].
  - apply gostring_eqb_refl.
  - apply not_true_is_false. rewrite gostring_eqb_eq. congruence.
Qed.

(** X5: white space in code mode.  A space, tab, carriage return or newline
    under the cursor is consumed without a token: [stateCode] goes on from
    the next byte with [start] moved there, the line incremented and the
    column reset to 1 for a newline, the column incremented otherwise, and
    the recorded [startline]/[startcol] left as they were. *)
Theorem code_space_skipped (q : Z -> gostring) (fuel : nat) (l : lexer) (c : ascii) :
  start l = pos l -> nth_error (input l) (pos l) = Some c -> In c tokenSpaceChars ->
  stateCode q (S fuel) l
  = stateCode q fuel
      (mkLexer (name l) (input l) (S (pos l)) (S (pos l)) 1 (tokens l) (errored l)
               (startline l) (startcol l)
               (if Ascii.eqb c newline then line l + 1 else line l)
               (if Ascii.eqb c newline then 1 else col l + 1)).
Proof.
  intros Hs E Hin. cbn [stateCode]. unfold codeBody.
  rewrite (accept_hit tokenSpaceChars l c asciiTable_space E Hin). cbv beta iota.
  unfold value. fields. rewrite Hs, Nat.add_1_r, (slice_nth _ _ _ E), gostring_eqb_single.
  destruct (Ascii.eqb c newline); reflexivity.
Qed.

Lemma find_all_false {A : Type} (f : A -> bool) (xs : list A) :
  (forall x, In x xs -> f x = false) -> find f xs = None.
Proof.
  induction xs as [|a xs IH]; intros H; cbn; [reflexivity|].
  rewrite (H a) by now left. apply IH. intros x Hx. apply H. now right.
Qed.

(** X6: unknown character.  In code mode, when the byte under the cursor is
    neither white space, an identifier character, a digit nor a double
    quote and no entry of the symbol table is a prefix of the remaining
    input, [stateCode] stops with [errored] set and one Error token
    appended, recorded at [startline]/[startcol], whose text names the rune
    under the cursor twice (quoted and as a number); the cursor does not
    move. *)
Theorem unknown_character (q : Z -> gostring) (fuel : nat) (l : lexer) (c : ascii) :
  start l = pos l -> nth_error (input l) (pos l) = Some c ->
  ~ In c tokenSpaceChars -> ~ In c tokenIdentifierChars -> ~ In c tokenDigits ->
  c <> dquote ->
  (forall sym, In sym tokenSymbols ->
     HasPrefix (slice_from (input l) (pos l)) sym = false) ->
  exists l',
    stateCode q (S fuel) l = Some (l', None)
    /\ errored l' = true
    /\ tokens l' = tokens l ++ [mkToken TokenError
                                  (str "Unknown character: " ++ q (fst (next l))
                                   ++ str " (" ++ itoa (fst (next l)) ++ str ")")
                                  (startline l) (startcol l)]
    /\ pos l' = pos l /\ start l' = start l.
Proof.
  intros Hs E H1 H2 H3 H4 Hsym. cbn [stateCode]. unfold codeBody.
  destruct (accept_miss tokenSpaceChars l c E H1) as (w1 & ->).
  destruct (accept_miss tokenIdentifierChars (set_width w1 l) c E H2) as (w2 & ->).
  destruct (accept_miss tokenDigits (set_width w2 (set_width w1 l)) c E H3) as (w3 & ->).
  destruct (accept_miss [dquote] (set_width w3 (set_width w2 (set_width w1 l))) c E)
    as (w4 & ->).
  { intros [H|[]]. congruence. }
  cbv beta iota. rewrite matchSymbol_find. fields. rewrite Hs.
  rewrite (find_all_false (fun sym => HasPrefix (slice_from (input l) (pos l)) sym)
             tokenSymbols Hsym). cbn [option_map].
  assert (Hlt : (pos l <? length (input l))%nat = true).
  { apply Nat.ltb_lt, nth_error_Some. congruence. }
  rewrite Hlt, !peek_next. cbv beta iota.
  eexists. split; [reflexivity|]. fields. repeat split. exact Hs.
Qed.

(** * Closed string literals *)

(** X7: a closed string literal.  Entered after the opening quote, with the
    input continuing by [body], a double quote and anything, where [body]
    holds neither a double quote nor a byte 0x01, [stateString] appends one
    String token whose text is exactly [body] (no escape processing, quotes
    excluded), leaves the cursor just after the closing quote and hands
    over to [stateCode].  The running column advances by the number of bytes
    of [body] only (not for the two quotes) and the line not at all, even
    when [body] holds newlines. *)
Theorem string_literal (fuel : nat) (l : lexer) (body rest : gostring) :
  (length (input l) - pos l < fuel)%nat ->
  skipn (pos l) (input l) = body ++ dquote :: rest ->
  ~ In dquote body -> ~ In soh body ->
  exists l',
    stateString fuel l = Some (l', Some StateCode)
    /\ tokens l' = tokens l ++ [mkToken TokenString body (startline l) (startcol l)]
    /\ pos l' = (pos l + length body + 1)%nat /\ start l' = pos l'
    /\ line l' = line l /\ col l' = col l + Z.of_nat (length body)
    /\ startline l' = line l /\ startcol l' = col l + Z.of_nat (length body)
    /\ errored l' = errored l.
Proof.
  intros Hf Hrest Hnq Hns.
  assert (Hp : (pos l <= length (input l))%nat).
  { destruct (Nat.le_gt_cases (pos l) (length (input l))) as [H|H]; [exact H|].
    rewrite skipn_all2 in Hrest by lia. destruct body; discriminate. }
  assert (Hlen : (length (input l) = pos l + length body + 1 + length rest)%nat).
  { rewrite <- (firstn_skipn (pos l) (input l)) at 1.
    rewrite length_app, length_firstn, Hrest, length_app. cbn [length]. lia. }
  assert (Hnth : forall i, nth_error (input l) (pos l + i)
                           = nth_error (body ++ dquote :: rest) i).
  { intros i. now rewrite <- Hrest, nth_error_skipn. }
  assert (Hsl : forall p, (pos l + length body < p)%nat ->
                          In dquote (slice (input l) (pos l) p)).
  { intros p Hgt. unfold slice. rewrite Hrest, firstn_app. apply in_or_app. right.
    destruct (p - pos l - length body)%nat eqn:F; [lia|]. now left. }
  unfold stateString.
  destruct (stringBody_spec fuel (ignore l)) as
      [(p & Es & Hb & Hq & Hnq' & _)|(p & w & _ & Hb & Hnq' & Hend)];
    fields; try assumption.
  - assert (p = (pos l + length body)%nat) as ->.
    { destruct (Nat.lt_trichotomy p (pos l + length body)) as [Hlt|[Heq|Hgt]].
      - exfalso. replace p with (pos l + (p - pos l))%nat in Hq by lia.
        rewrite Hnth, nth_error_app1 in Hq by lia. apply Hnq. eapply nth_error_In, Hq.
      - exact Heq.
      - exfalso. apply Hnq'. now apply Hsl. }
    rewrite Es, backup_quote.
    set (l2 := emit TokenString
                 (add_col_value (set_pos (pos l + length body) (set_width 1 (ignore l))))).
    assert (E2 : nth_error (input l2) (pos l2) = Some dquote) by exact Hq.
    rewrite (next_ascii l2 dquote E2) by (vm_compute; reflexivity).
    eexists. split; [reflexivity|]. subst l2. fields. unfold value. fields.
    assert (Hv : slice (input l) (pos l) (pos l + length body) = body).
    { unfold slice. rewrite Hrest, Nat.add_comm, Nat.add_sub, firstn_app, Nat.sub_diag.
      rewrite firstn_all. cbn. apply app_nil_r. }
    rewrite Hv. repeat split.
  - exfalso. destruct Hend as [->|(k & -> & Hk & Hsoh)].
    + apply Hnq', Hsl. lia.
    + destruct (Nat.lt_trichotomy k (pos l + length body)) as [Hlt|[Heq|Hgt]].
      * replace k with (pos l + (k - pos l))%nat in Hsoh by lia.
        rewrite Hnth, nth_error_app1 in Hsoh by lia. apply Hns. eapply nth_error_In, Hsoh.
      * subst k. rewrite Hnth, nth_error_app2, Nat.sub_diag in Hsoh by lia. discriminate.
      * apply Hnq', Hsl. lia.
Qed.

(** * Literal text *)

Lemma skipn_more_In (s : gostring) (a w : nat) (c : ascii) :
  In c (skipn (a + w) s) -> In c (skipn a s).
Proof.
  rewrite Nat.add_comm, <- skipn_skipn. intros H.
  rewrite <- (firstn_skipn w (skipn a s)). apply in_or_app. now right.
Qed.

Lemma run_text (q : Z -> gostring) (fuel : nat) (l : lexer) :
  (forall c, In c (skipn (pos l) (input l)) -> c <> "{"%char /\ c <> soh) ->
  (start l <= pos l <= length (input l))%nat ->
  (length (input l) - pos l < fuel)%nat ->
  exists l',
    run q fuel l = Some l'
    /\ tokens l'
       = tokens l ++ (if (start l <? length (input l))%nat
                      then [mkToken TokenHTML
                              (slice (input l) (start l) (length (input l)))
                              (startline l) (startcol l)]
                      else [])
    /\ errored l' = errored l.
Proof.
  revert l. induction fuel as [|f IH]; intros l Hc Hb Hf; [lia|].
  cbn [run]. unfold slice_from.
  destruct (nth_error (input l) (pos l)) as [c|] eqn:E.
  - assert (Hlt : (pos l < length (input l))%nat) by (apply nth_error_Some; congruence).
    destruct (Hc c) as [Hbrace Hsoh].
    { rewrite (nth_error_skipn_cons _ _ _ E). now left. }
    rewrite (nth_error_skipn_cons _ _ _ E).
    unfold str. cbn [list_ascii_of_string].
    rewrite !HasPrefix_mismatch by exact Hbrace. cbn [orb].
    destruct (peek_shape l) as (r & w & ->).
    set (l2 := if r =? byteZ newline
               then set_col 1 (set_line (line (set_width w l) + 1) (set_width w l))
               else set_col (col (set_width w l) + 1) (set_width w l)).
    assert (F : input l2 = input l /\ pos l2 = pos l /\ start l2 = start l
                /\ tokens l2 = tokens l /\ errored l2 = errored l
                /\ startline l2 = startline l /\ startcol l2 = startcol l).
    { subst l2. destruct (r =? byteZ newline); repeat split. }
    destruct F as (Fi & Fp & Fs & Ft & Fe & Fsl & Fsc).
    assert (E2 : nth_error (input l2) (pos l2) = Some c) by (now rewrite Fi, Fp).
    destruct (next_at_byte l2 c E2) as (r' & w' & -> & Hw1 & Hw2 & Hr).
    destruct (Z.eqb_spec r' EOF) as [Hr1|Hr1].
    { exfalso. destruct Hr as [(_ & Hrc & _)|(_ & ? & _)]; [|unfold EOF in *; lia].
      apply Hsoh, byteZ_inj. rewrite <- Hrc, Hr1. reflexivity. }
    destruct (IH (set_pos (pos l2 + w') (set_width w' l2))) as (l' & El & Ht & He);
      fields; rewrite ?Fi, ?Fp, ?Fs in *; try lia.
    + intros c' Hin. apply Hc. now apply skipn_more_In with w'.
    + exists l'. rewrite El. split; [reflexivity|].
      rewrite Ht, He, Ft, Fe, Fsl, Fsc. split; reflexivity.
  - apply nth_error_None in E. rewrite skipn_all2 by exact E.
    cbn [HasPrefix str list_ascii_of_string length Nat.leb andb orb].
    rewrite peek_at_end by exact E.
    change (EOF =? byteZ newline) with false. cbv iota.
    rewrite next_at_end by exact E. change (EOF =? EOF) with true. cbv iota.
    eexists. split; [reflexivity|].
    assert (pos l = length (input l)) by lia.
    unfold flushHTML, value. fields. rewrite <- H.
    destruct (start l <? pos l)%nat; fields; split; try reflexivity.
    now rewrite app_nil_r.
Qed.

(** X8: literal text.  An input without the byte [{] and without the byte
    0x01 scans, whatever else it holds (newlines, white space, any UTF-8 or
    invalid bytes), to a single HTML token holding the whole input at line
    1, column 1; the empty input scans to no token at all. *)
Theorem plain_text_single_token (q : Z -> gostring) (nm s : gostring) :
  (forall c, In c s -> c <> "{"%char /\ c <> soh) ->
  lex q nm s
  = Some (Tokens match s with
                 | [] => []
                 | _ :: _ => [mkToken TokenHTML s 1 1]
                 end).
Proof.
  intros Hc. unfold lex.
  destruct (run_text q (lexFuel s) (newLexer nm s)) as (l' & -> & Ht & He).
  - exact Hc.
  - cbn. lia.
  - unfold lexFuel. cbn. lia.
  - cbn [option_map]. unfold lexResult. rewrite He, Ht. cbn.
    destruct s as [|c s]; [reflexivity|]. cbn.
    unfold slice. cbn. now rewrite firstn_all.
Qed.

(** * Comments *)

Lemma lexer_eta (l : lexer) :
  set_col (col l + Z.of_nat 0) (set_pos (pos l + 0) (set_width (width l) l)) = l.
Proof.
  destruct l as [a b c d e f g h i j k]. cbn.
  now rewrite Nat.add_0_r, Z.add_0_r.
Qed.

(** The comment loop steps over [body] byte by byte, adding one column per
    byte, as long as no byte of it is 0x01 or a newline and the closing
    delimiter does not start inside it. *)
Lemma commentBody_steps (body tail : gostring) (fuel : nat) (l : lexer) :
  skipn (pos l) (input l) = body ++ tail ->
  (forall c, In c body -> c <> soh /\ c <> newline) ->
  (forall i, (i < length body)%nat ->
     HasPrefix (skipn i (body ++ tail)) (str "#}") = false) ->
  exists w,
    commentBody (length body + fuel) l
    = commentBody fuel (set_col (col l + Z.of_nat (length body))
                          (set_pos (pos l + length body) (set_width w l))).
Proof.
  revert l. induction body as [|c body IH]; intros l Hrest Hc Hno.
  - exists (width l). cbn [length Nat.add]. now rewrite lexer_eta.
  - cbn [length Nat.add commentBody].
    assert (E : nth_error (input l) (pos l) = Some c).
    { rewrite <- (Nat.add_0_r (pos l)), <- nth_error_skipn, Hrest. reflexivity. }
    destruct (peek_at_byte l c E) as (r & w & -> & Hr).
    destruct (Hc c (or_introl eq_refl)) as [Hsoh Hnl].
    destruct (Z.eqb_spec r EOF) as [Hr1|_].
    { exfalso. destruct Hr as [(_ & Hrc)|(_ & ?)]; [|unfold EOF in *; lia].
      apply Hsoh, byteZ_inj. rewrite <- Hrc, Hr1. reflexivity. }
    destruct (Z.eqb_spec r (byteZ newline)) as [Hr2|_].
    { exfalso. destruct Hr as [(_ & Hrc)|(_ & ?)];
        [|change (byteZ newline) with 10 in Hr2; lia].
      apply Hnl, byteZ_inj. congruence. }
    fields. unfold slice_from. rewrite Hrest.
    assert (H0 : HasPrefix (skipn 0 ((c :: body) ++ tail)) (str "#}") = false)
      by (apply Hno; cbn; lia).
    cbn [skipn] in H0. rewrite H0.
    destruct (IH (advance 1 (set_width w l))) as (w' & Ew).
    + fields. rewrite Nat.add_comm, <- skipn_skipn, Hrest. reflexivity.
    + intros c' Hin. apply Hc. now right.
    + intros i Hi. apply (Hno (S i)). cbn. lia.
    + exists w'. rewrite Ew. f_equal. unfold set_col, set_pos, set_width, advance. cbn.
      f_equal; lia.
Qed.

Lemma flushHTML_same (l : lexer) :
  input (flushHTML l) = input l /\ pos (flushHTML l) = pos l
  /\ line (flushHTML l) = line l /\ col (flushHTML l) = col l
  /\ errored (flushHTML l) = errored l /\ name (flushHTML l) = name l.
Proof.
  unfold flushHTML. destruct (start l <? pos l)%nat; repeat split.
Qed.

(** X9: a closed comment.  With the cursor on [{#], followed by a body
    without newline or byte 0x01 inside which [#}] does not start, and then
    [#}], [run] first emits the pending text as an HTML token, steps over
    the whole comment without a token and goes on after it: [pos] and
    [start] are just after the closing delimiter, the column has advanced
    by the number of bytes of the comment, the line and the recorded
    [startline]/[startcol] are those after the flush. *)
Theorem comment_skipped (q : Z -> gostring) (fuel : nat) (l : lexer) (body rest : gostring) :
  skipn (pos l) (input l) = str "{#" ++ body ++ str "#}" ++ rest ->
  (forall c, In c body -> c <> soh /\ c <> newline) ->
  (forall i, (i < length body)%nat ->
     HasPrefix (skipn i (body ++ str "#}" ++ rest)) (str "#}") = false) ->
  (length body < fuel)%nat ->
  exists l2,
    run q (S fuel) l = run q fuel l2
    /\ input l2 = input l
    /\ tokens l2 = tokens (flushHTML l) /\ errored l2 = errored l
    /\ pos l2 = (pos l + length body + 4)%nat /\ start l2 = pos l2
    /\ line l2 = line l /\ col l2 = col l + Z.of_nat (length body) + 4
    /\ startline l2 = startline (flushHTML l) /\ startcol l2 = startcol (flushHTML l).
Proof.
  intros Hrest Hc Hno Hf.
  destruct (flushHTML_same l) as (Fi & Fp & Fl & Fc & Fe & _).
  cbn [run].
  assert (Ho : HasPrefix (slice_from (input l) (pos l)) (str "{#") = true).
  { apply HasPrefix_spec. unfold slice_from. rewrite Hrest. eauto. }
  rewrite Ho.
  assert (Hr2 : skipn (pos (advance 2 (flushHTML l))) (input (advance 2 (flushHTML l)))
                = body ++ str "#}" ++ rest).
  { fields. rewrite Fi, Fp, Nat.add_comm, <- skipn_skipn, Hrest. reflexivity. }
  destruct (commentBody_steps body (str "#}" ++ rest) (fuel - length body)
              (advance 2 (flushHTML l)) Hr2 Hc Hno) as (w & Ew).
  replace (length body + (fuel - length body))%nat with fuel in Ew by lia.
  rewrite Ew. clear Ew.
  destruct (fuel - length body)%nat as [|f'] eqn:F; [lia|].
  cbn [commentBody].
  set (l1 := set_col _ _).
  assert (Hr3 : skipn (pos l1) (input l1) = str "#}" ++ rest).
  { subst l1. fields. rewrite Fi, Fp.
    replace (pos l + 2 + length body)%nat with (length body + (pos l + 2))%nat by lia.
    rewrite <- skipn_skipn. fields. rewrite Fi, Fp in Hr2. rewrite Hr2.
    rewrite skipn_app, Nat.sub_diag, skipn_all. reflexivity. }
  assert (E : nth_error (input l1) (pos l1) = Some "#"%char).
  { rewrite <- (Nat.add_0_r (pos l1)), <- nth_error_skipn, Hr3. reflexivity. }
  destruct (peek_at_byte l1 "#"%char E) as (r & w1 & -> & Hr).
  assert (r = 35) as ->.
  { destruct Hr as [(_ & ->)|(Hb & _)]; [reflexivity | vm_compute in Hb; congruence]. }
  change (35 =? EOF) with false. change (35 =? byteZ newline) with false. cbv iota.
  fields. unfold slice_from at 1.
  assert (Hcl : HasPrefix (skipn (pos l1) (input l1)) (str "#}") = true).
  { apply HasPrefix_spec. rewrite Hr3. eauto. }
  rewrite Hcl.
  eexists. split; [reflexivity|]. subst l1. fields.
  rewrite Fi, Fp, Fl, Fc, Fe. repeat split; lia.
Qed.

(** X10: a comment that is not closed.  With the cursor on [{#], followed by
    a body as above and then the end of the input, a byte 0x01 or a
    newline, [run] emits the pending text as an HTML token and returns with
    [errored] set and one Error token appended, recorded at the position
    left by the flush; its text is [msgCommentNewline] for a newline and
    [msgCommentNotClosed] otherwise. *)
Theorem comment_not_closed (q : Z -> gostring) (fuel : nat) (l : lexer) (body tail : gostring) :
  skipn (pos l) (input l) = str "{#" ++ body ++ tail ->
  (forall c, In c body -> c <> soh /\ c <> newline) ->
  (forall i, (i < length body)%nat ->
     HasPrefix (skipn i (body ++ tail)) (str "#}") = false) ->
  match tail with [] => True | c :: _ => c = soh \/ c = newline end ->
  (length body < fuel)%nat ->
  exists l',
    run q (S fuel) l = Some l'
    /\ errored l' = true
    /\ tokens l' = tokens (flushHTML l)
                   ++ [mkToken TokenError (commentMessage tail)
                         (startline (flushHTML l)) (startcol (flushHTML l))].
Proof.
  intros Hrest Hc Hno Htail Hf.
  destruct (flushHTML_same l) as (Fi & Fp & Fl & Fc & Fe & _).
  cbn [run].
  assert (Ho : HasPrefix (slice_from (input l) (pos l)) (str "{#") = true).
  { apply HasPrefix_spec. unfold slice_from. rewrite Hrest. eauto. }
  rewrite Ho.
  assert (Hr2 : skipn (pos (advance 2 (flushHTML l))) (input (advance 2 (flushHTML l)))
                = body ++ tail).
  { fields. rewrite Fi, Fp, Nat.add_comm, <- skipn_skipn, Hrest. reflexivity. }
  destruct (commentBody_steps body tail (fuel - length body)
              (advance 2 (flushHTML l)) Hr2 Hc Hno) as (w & Ew).
  replace (length body + (fuel - length body))%nat with fuel in Ew by lia.
  rewrite Ew. clear Ew.
  destruct (fuel - length body)%nat as [|f'] eqn:F; [lia|].
  cbn [commentBody].
  set (l1 := set_col _ _).
  assert (Hr3 : skipn (pos l1) (input l1) = tail).
  { subst l1. fields. rewrite Fi, Fp.
    replace (pos l + 2 + length body)%nat with (length body + (pos l + 2))%nat by lia.
    rewrite <- skipn_skipn. fields. rewrite Fi, Fp in Hr2. rewrite Hr2.
    rewrite skipn_app, Nat.sub_diag, skipn_all. reflexivity. }
  destruct tail as [|c tail].
  - assert (He : (length (input l1) <= pos l1)%nat).
    { apply (f_equal (@length ascii)) in Hr3. rewrite length_skipn in Hr3. cbn [length] in Hr3. lia. }
    rewrite peek_at_end by exact He. change (EOF =? EOF) with true. cbv iota.
    eexists. split; [reflexivity|]. subst l1. fields. split; reflexivity.
  - assert (E : nth_error (input l1) (pos l1) = Some c).
    { rewrite <- (Nat.add_0_r (pos l1)), <- nth_error_skipn, Hr3. reflexivity. }
    destruct (peek_at_byte l1 c E) as (r & w1 & -> & Hr).
    destruct Htail as [-> | ->].
    + assert (r = EOF) as ->.
      { destruct Hr as [(_ & ->)|(Hb & _)]; [reflexivity | vm_compute in Hb; congruence]. }
      change (EOF =? EOF) with true. cbv iota.
      eexists. split; [reflexivity|]. subst l1. fields. split; reflexivity.
    + assert (r = byteZ newline) as ->.
      { destruct Hr as [(_ & ->)|(Hb & _)]; [reflexivity | vm_compute in Hb; congruence]. }
      change (byteZ newline =? EOF) with false.
      change (byteZ newline =? byteZ newline) with true. cbv iota.
      eexists. split; [reflexivity|]. subst l1. fields. split; reflexivity.
Qed.

(** * Well-formed tokens *)

Lemma tidy_same (l l' : lexer) :
  tokens l' = tokens l -> errored l' = errored l -> tidy l -> tidy l'.
Proof. unfold tidy. intros -> ->. auto. Qed.

Lemma tidy_failed (l : lexer) : errored l = true -> tidy l.
Proof. unfold tidy. intros ->. discriminate. Qed.

Lemma emit_tidy (t : TokenType) (l : lexer) :
  tidy l -> wellFormed (mkToken t (value l) (startline l) (startcol l)) ->
  tidy (emit t l).
Proof.
  unfold tidy. intros Ht Hw He. fields. apply Forall_app. split; [auto|].
  constructor; [exact Hw | constructor].
Qed.

Lemma slice_length (s : gostring) (a b : nat) :
  (a <= b <= length s)%nat -> length (slice s a b) = (b - a)%nat.
Proof.
  intros H. unfold slice. rewrite length_firstn, length_skipn. lia.
Qed.

Lemma flushHTML_tidy (l : lexer) : wf l -> tidy l -> tidy (flushHTML l).
Proof.
  intros Hw Ht. unfold flushHTML. destruct (Nat.ltb_spec (start l) (pos l)); [|exact Ht].
  apply emit_tidy; [exact Ht|]. destruct Hw as [? ? ? ? wf_sl wf_sc]. split; [exact wf_sl|].
  split; [exact wf_sc|]. left. split; [reflexivity|]. cbn. unfold value.
  intros E. apply (f_equal (@length ascii)) in E. rewrite slice_length in E by lia.
  cbn in E. lia.
Qed.

Section Tidy.

Variable q : Z -> gostring.

Lemma codeBody_tidy (l : lexer) :
  wf l -> start l = pos l -> tidy l ->
  match codeBody q l with
  | Continue l' => tidy l'
  | Return l' (Some st) => tidy l' /\ entered st l'
  | Return l' None => tidy l'
  end.
Proof.
  intros Hw Hs Ht. unfold codeBody.
  destruct (accept_cases tokenSpaceChars l asciiTable_space soh_not_space)
    as [(c & E & Hin & ->)|(w1 & -> & _)]; cbv beta iota.
  { apply tidy_same with l; [| |exact Ht]; destruct (gostring_eqb _ _); reflexivity. }
  destruct (accept_cases tokenIdentifierChars (set_width w1 l) asciiTable_ident soh_not_ident)
    as [(c & E & Hin & ->)|(w2 & -> & _)]; cbv beta iota.
  { split; [now apply tidy_same with l|]. cbn [entered]. fields.
    split; [lia|]. exists c. rewrite Hs. auto. }
  destruct (accept_cases tokenDigits (set_width w2 (set_width w1 l))
              asciiTable_digits soh_not_digit)
    as [(c & E & Hin & ->)|(w3 & -> & _)]; cbv beta iota.
  { split; [now apply tidy_same with l|]. cbn [entered]. fields.
    split; [lia|]. exists c. rewrite Hs. auto. }
  destruct (accept_cases [dquote] (set_width w3 (set_width w2 (set_width w1 l)))
              asciiTable_quote soh_not_quote)
    as [(c & E & Hin & ->)|(w4 & -> & _)]; cbv beta iota.
  { split; [now apply tidy_same with l | exact I]. }
  rewrite matchSymbol_find. fields.
  destruct (find _ tokenSymbols) as [sym|] eqn:F; cbn [option_map].
  - apply find_some in F. destruct F as [Hin Hpre].
    assert (T : tidy (emit TokenSymbol
                        (advance (length sym)
                           (set_width w4 (set_width w3 (set_width w2 (set_width w1 l))))))).
    { apply emit_tidy; [now apply tidy_same with l|]. fields. destruct Hw as [? ? ? ? wf_sl wf_sc].
      split; [exact wf_sl|]. split; [exact wf_sc|].
      right; left. split; [reflexivity|]. cbn [Val]. unfold value. fields.
      rewrite Hs in *. now rewrite (slice_prefix _ _ _ Hpre). }
    destruct (_ || _); exact T.
  - destruct (pos l <? length (input l))%nat.
    + rewrite !peek_next. cbv beta iota. now apply tidy_failed.
    + now apply tidy_same with l.
Qed.

Lemma stateCode_tidy (fuel : nat) (l : lexer) :
  wf l -> ok l -> start l = pos l -> tidy l ->
  forall l' st, stateCode q fuel l = Some (l', st) ->
    tidy l' /\ match st with Some st' => entered st' l' | None => True end.
Proof.
  revert l. induction fuel as [|f IH]; intros l Hw Hk Hs Ht l' st E; [discriminate|].
  cbn [stateCode] in E.
  pose proof (codeBody_spec q l Hw Hk Hs) as B.
  pose proof (codeBody_tidy l Hw Hs Ht) as T.
  destruct (codeBody q l) as [l1|l1 [st1|]].
  - destruct B as (F & Hk1 & Hs1 & _). destruct F as [_ _ Hw1 _ _].
    exact (IH l1 Hw1 Hk1 Hs1 T l' st E).
  - injection E as <- <-. exact T.
  - injection E as <- <-. split; [exact T | exact I].
Qed.

Lemma stateIdentifier_tidy (fuel : nat) (l : lexer) :
  wf l -> tidy l -> entered StateIdentifier l ->
  (length (input l) - pos l < fuel)%nat ->
  forall l' st, stateIdentifier fuel l = Some (l', st) -> tidy l'.
Proof.
  intros Hw Ht (Hpos & c & Ec & Hc) Hf l' st E.
  destruct (stateIdentifier_shape fuel l (wf_pos l Hw) Hf)
    as (p1 & p2 & w & E' & Hb & Hb2 & Hall1 & _ & Hall2 & _).
  cbn zeta in E'.
  assert (T2 : tidy (set_pos p2 (set_width w l))) by now apply tidy_same with l.
  destruct Hw as [? ? ? ? wf_sl wf_sc].
  destruct (isKeyword tokenKeywords (value (set_pos p2 (set_width w l)))) eqn:K;
    rewrite E' in E; injection E as <- _.
  - apply emit_tidy; [exact T2|]. fields.
    split; [exact wf_sl|]. split; [exact wf_sc|].
    right; right; left. split; [reflexivity|]. now apply isKeyword_In.
  - apply emit_tidy; [now apply tidy_same with (set_pos p2 (set_width w l))|]. fields.
    split; [exact wf_sl|]. split; [exact wf_sc|].
    right; right; right; left. split; [reflexivity|]. cbn [Val].
    change (value (add_col_value (set_pos p2 (set_width w l))))
      with (value (set_pos p2 (set_width w l))).
    split.
    + intros H. apply isKeyword_In in H.
      change (value (add_col_value (set_pos p2 (set_width w l))))
        with (value (set_pos p2 (set_width w l))) in H. congruence.
    + exists (c :: slice (input l) (pos l) p1), (slice (input l) p1 p2).
      unfold value. fields.
      rewrite (slice_app (input l) (start l) (pos l) p2) by lia.
      rewrite (slice_app (input l) (pos l) p1 p2) by lia.
      replace (slice (input l) (start l) (pos l)) with [c]
        by (rewrite Hpos; symmetry; apply slice_nth; exact Ec).
      split; [reflexivity|]. split; [discriminate|]. split; [|exact Hall2].
      constructor; assumption.
Qed.

Lemma stateNumber_tidy (fuel : nat) (l : lexer) :
  wf l -> tidy l -> entered StateNumber l ->
  (length (input l) - pos l < fuel)%nat ->
  forall l' st, stateNumber fuel l = Some (l', st) -> tidy l'.
Proof.
  intros Hw Ht (Hpos & c & Ec & Hc) Hf l' st E.
  destruct (stateNumber_shape fuel l (wf_pos l Hw) Hf) as (p & w & E' & Hb & Hall & _).
  rewrite E' in E. injection E as <- _. destruct Hw as [? ? ? ? wf_sl wf_sc].
  apply emit_tidy; [now apply tidy_same with l|]. fields.
  split; [exact wf_sl|]. split; [exact wf_sc|].
  right; right; right; right; left. split; [reflexivity|]. cbn [Val].
  change (value (add_col_value (set_pos p (set_width w l))))
    with (slice (input l) (start l) p).
  rewrite (slice_app (input l) (start l) (pos l) p) by lia.
  replace (slice (input l) (start l) (pos l)) with [c]
        by (rewrite Hpos; symmetry; apply slice_nth; exact Ec).
  split; [discriminate|]. constructor; assumption.
Qed.

Lemma stateString_tidy (fuel : nat) (l : lexer) :
  wf l -> tidy l -> (length (input l) - pos l < fuel)%nat ->
  forall l' st, stateString fuel l = Some (l', st) -> tidy l'.
Proof.
  intros Hw Ht Hf l' st E. unfold stateString in E.
  destruct (stringBody_spec fuel (ignore l)) as
      [(p & Es & Hb & Hq & Hnq & Hns)|(p & w & Es & _)];
    fields; try apply Hw; try lia; rewrite Es in E.
  - rewrite backup_quote in E.
    set (l2 := emit TokenString (add_col_value (set_pos p (set_width 1 (ignore l))))) in E.
    assert (E2 : nth_error (input l2) (pos l2) = Some dquote) by exact Hq.
    rewrite (next_ascii l2 dquote E2) in E by (vm_compute; reflexivity).
    injection E as <- _.
    apply tidy_same with l2; [reflexivity | reflexivity |]. subst l2.
    apply emit_tidy; [now apply tidy_same with l|]. fields. destruct Hw as [? ? ? ? wf_sl wf_sc].
    split; [exact wf_sl|]. split; [exact wf_sc|].
    right; right; right; right; right. split; [reflexivity|]. cbn [Val].
    change (value _) with (slice (input l) (pos l) p). auto.
  - injection E as <- _. now apply tidy_failed.
Qed.

End Tidy.

Lemma entered_code (l : lexer) : entered StateCode l.
Proof. exact I. Qed.

Lemma tokenizeFrom_tidy (q : Z -> gostring) (fuel : nat) (st : lexerStateFn) (l : lexer) :
  ready st l -> entered st l -> tidy l -> (stepsLeft st l < fuel)%nat ->
  forall l', tokenizeFrom q fuel (Some st) l = Some l' -> tidy l'.
Proof.
  revert st l. induction fuel as [|f IH]; intros st l Hr He Ht Hf l' E; [lia|].
  cbn [tokenizeFrom] in E. unfold stepsLeft in *. destruct Hr as (Hw & Hk & Hst).
  assert (Hnext : forall l1, follows q l l1 -> ok l1 -> start l1 = pos l1 -> tidy l1 ->
            tokenizeFrom q f (Some StateCode) l1 = Some l' ->
            (2 * (length (input l) - pos l) + 2 < S f)%nat -> tidy l').
  { intros l1 F Hk1 Hs1 T1 E1 Hb. destruct F as [Hi1 _ Hw1 Hp1 _].
    apply (IH StateCode l1); try assumption.
    - split; [assumption|]. split; assumption.
    - exact I.
    - unfold stepsLeft. rewrite Hi1. lia. }
  destruct st; cbn [callState] in E.
  - destruct (stateCode_spec q f l Hw Hk Hst) as (l1 & st1 & E1 & Hi & Hn & Hp & Hpost);
      [lia|].
    rewrite E1 in E.
    destruct (stateCode_tidy q f l Hw Hk Hst Ht l1 st1 E1) as [T1 He1].
    destruct st1 as [st'|].
    + destruct Hpost as (Hr' & Hlt & Hne).
      apply (IH st' l1); try assumption.
      pose proof (wf_pos l1 (proj1 Hr')). unfold stepsLeft. rewrite Hi in *.
      destruct st'; lia.
    + rewrite tokenizeFrom_nil in E. now injection E as <-.
  - destruct (stateIdentifier_follows q f l Hw Hk) as (l1 & E1 & F & Hk1 & Hs1); [lia|].
    rewrite E1 in E.
    apply (Hnext l1); try assumption.
    apply (stateIdentifier_tidy f l Hw Ht He) with (st := Some StateCode); [lia | exact E1].
  - destruct (stateNumber_follows q f l Hw Hk) as (l1 & E1 & F & Hk1 & Hs1); [lia|].
    rewrite E1 in E.
    apply (Hnext l1); try assumption.
    apply (stateNumber_tidy f l Hw Ht He) with (st := Some StateCode); [lia | exact E1].
  - destruct (stateString_follows q f l) as (l1 & st1 & E1 & F & Hend);
      [split; [assumption|]; split; assumption | lia |].
    rewrite E1 in E.
    assert (T1 : tidy l1) by (apply (stateString_tidy f l Hw Ht) with (st := st1); [lia | exact E1]).
    destruct Hend as [(Hfail & ->)|(Hk1 & Hs1 & ->)].
    + rewrite tokenizeFrom_nil in E. now injection E as <-.
    + apply (Hnext l1); assumption.
Qed.

Lemma next_keeps_tokens (l : lexer) :
  tokens (snd (next l)) = tokens l /\ errored (snd (next l)) = errored l.
Proof.
  unfold next. destruct (_ <=? _)%nat; [split; reflexivity|].
  destruct (DecodeRuneInString _). split; reflexivity.
Qed.

Lemma run_tidy (q : Z -> gostring) (fuel : nat) (l : lexer) :
  wf l -> ok l -> tidy l -> (2 * (length (input l) - pos l) + 4 <= fuel)%nat ->
  forall l', run q fuel l = Some l' -> tidy l'.
Proof.
  revert l. induction fuel as [|f IH]; intros l Hw Hk Ht Hf l' E; [lia|].
  cbn [run] in E.
  pose proof (flushHTML_wf l Hw) as Hw0. pose proof (flushHTML_ok l Hw Hk) as Hk0.
  pose proof (flushHTML_tidy l Hw Ht) as Ht0.
  destruct (flushHTML_fields l Hw) as (Hi0 & Hn0 & Hp0 & Hs0).
  pose proof (wf_pos l Hw) as Hpl.
  destruct (HasPrefix (slice_from (input l) (pos l)) (str "{#")) eqn:Hc.
  - pose proof (prefix_in_range _ _ _ Hc Hpl) as Hr. change (length (str "{#")) with 2%nat in Hr.
    destruct (commentBody_spec f (advance 2 (flushHTML l))) as
        [(p & w & cl & Ec & Hb1 & Hb2 & Hcl & Hclose & Hbody)
        |(p & w & cl & m & Ec & Hb & Hcl & Hm)];
      fields; rewrite ?Hi0, ?Hp0 in *; try lia; rewrite Ec in E.
    + apply (IH (ignore (set_col cl (set_pos (p + 2)
                           (set_width w (advance 2 (flushHTML l))))))); try exact E.
      * destruct Hw0. constructor; fields; rewrite ?Hi0, ?Hs0 in *; lia.
      * destruct Hk0 as [He Hto Hrec]. constructor; fields; try assumption.
        rewrite Hi0, Hs0 in *.
        rewrite (comment_slice (input l) (pos l) p Hc Hclose) by lia.
        apply recon_gap; [exact Hrec | now constructor].
      * now apply tidy_same with (flushHTML l).
      * fields. rewrite Hi0. lia.
    + injection E as <-. now apply tidy_failed.
  - destruct (_ || _) eqn:Hor.
    + assert (Hr : (pos l + 2 <= length (input l))%nat).
      { apply orb_true_iff in Hor.
        destruct Hor as [Hor|Hor]; exact (prefix_in_range _ _ _ Hor Hpl). }
      unfold tokenize in E.
      assert (Hready : ready StateCode (flushHTML l)).
      { split; [assumption|]. split; [assumption|]. congruence. }
      assert (Hsteps : (stepsLeft StateCode (flushHTML l) < f)%nat).
      { unfold stepsLeft. rewrite Hi0, Hp0. lia. }
      destruct (tokenizeFrom_spec q f StateCode (flushHTML l) Hready Hsteps)
        as (l1 & E1 & F & Hend).
      rewrite E1 in E.
      pose proof (tokenizeFrom_tidy q f StateCode (flushHTML l) Hready I Ht0 Hsteps l1 E1)
        as T1.
      destruct F as [Hi1 Hn1 Hw1 Hp1 _].
      destruct Hend as [Hfail|(Hk1 & Hs1 & Hprog)].
      * rewrite (failed_errored _ _ Hfail) in E. now injection E as <-.
      * rewrite (ok_errored _ Hk1) in E.
        apply (IH l1 Hw1 Hk1 T1); [|exact E].
        rewrite Hi1, Hi0, Hp0 in *. lia.
    + destruct (peek_shape l) as (r & w & Ep). rewrite Ep in E.
      assert (T : exists r' l3,
                 next (if r =? byteZ newline
                       then set_col 1 (set_line (line (set_width w l) + 1) (set_width w l))
                       else set_col (col (set_width w l) + 1) (set_width w l)) = (r', l3)
                 /\ wf l3 /\ ok l3 /\ input l3 = input l /\ name l3 = name l
                 /\ ((r' = EOF /\ (pos l3 = length (input l) \/ In soh (input l)))
                     \/ (r' <> EOF /\ (pos l < pos l3)%nat))
                 /\ tokens l3 = tokens l /\ errored l3 = errored l).
      { destruct (r =? byteZ newline).
        - destruct (text_step l w (line l + 1) 1) as (r' & l3 & En & H);
            try assumption; try (destruct Hw; lia).
          exists r', l3. split; [exact En|].
          pose proof (next_keeps_tokens (set_col 1 (set_line (line l + 1) (set_width w l)))) as K.
          rewrite En in K. cbn [snd] in K. fields. tauto.
        - destruct (text_step l w (line l) (col l + 1)) as (r' & l3 & En & H);
            try assumption; try (destruct Hw; lia).
          exists r', l3. split; [exact En|].
          pose proof (next_keeps_tokens (set_col (col l + 1) (set_line (line l) (set_width w l)))) as K.
          rewrite En in K. cbn [snd] in K. fields. tauto. }
      destruct T as (r' & l3 & En & Hw3 & Hk3 & Hi3 & Hn3 & Hcase & Ht3 & He3).
      rewrite En in E.
      assert (T3 : tidy l3) by now apply tidy_same with l.
      destruct (Z.eqb_spec r' EOF) as [Hr1|Hr1].
      * injection E as <-. now apply flushHTML_tidy.
      * destruct Hcase as [(? & _)|(_ & Hlt)]; [contradiction|].
        apply (IH l3 Hw3 Hk3 T3); [|exact E].
        pose proof (wf_pos l3 Hw3). rewrite Hi3 in *. lia.
Qed.

(** X11: well-formed results.  Every token of a successful scan has a line
    and a column of at least 1 and is of one of six kinds (never Error),
    with a text fit for its kind: an HTML token is not empty; a Symbol is an
    entry of the symbol table; a Keyword is one of the six reserved words;
    an Identifier is not a reserved word and is one or more characters of
    [A-Za-z_] followed by digits; a Number is one or more digits; a String
    holds neither a double quote nor a byte 0x01. *)
Theorem tokens_well_formed (q : Z -> gostring) (nm s : gostring) (ts : list Token) :
  lex q nm s = Some (Tokens ts) -> Forall wellFormed ts.
Proof.
  unfold lex. destruct (run q (lexFuel s) (newLexer nm s)) as [l|] eqn:E; [|discriminate].
  cbn [option_map]. unfold lexResult.
  assert (T : tidy l).
  { apply (run_tidy q (lexFuel s) (newLexer nm s)); try exact E.
    - constructor; cbn; lia.
    - constructor; cbn; [reflexivity | constructor | constructor].
    - intros _. constructor.
    - unfold lexFuel. cbn. lia. }
  destruct (errored l) eqn:He; [discriminate|].
  intros [= <-]. exact (T He).
Qed.

(** * The template name *)

Lemma next_name (n : gostring) (l : lexer) : next (set_name n l) = rename2 n (next l).
Proof.
  unfold next, rename2. cbn [input pos set_name].
  destruct (_ <=? _)%nat; [reflexivity|].
  destruct (DecodeRuneInString _). reflexivity.
Qed.

Lemma peek_name (n : gostring) (l : lexer) : peek (set_name n l) = rename2 n (peek l).
Proof.
  unfold peek. rewrite next_name. destruct (next l). reflexivity.
Qed.

Lemma accept_name (n what : gostring) (l : lexer) :
  accept what (set_name n l) = rename2 n (accept what l).
Proof.
  unfold accept. rewrite next_name. destruct (next l) as [r l1]. cbn.
  destruct (0 <=? IndexRune what r); reflexivity.
Qed.

Lemma acceptRun_name (n what : gostring) (fuel : nat) (l : lexer) :
  acceptRun fuel what (set_name n l) = option_map (set_name n) (acceptRun fuel what l).
Proof.
  revert l. induction fuel as [|f IH]; intros l; [reflexivity|].
  cbn [acceptRun]. rewrite next_name. destruct (next l) as [r l1]. cbn.
  destruct (0 <=? IndexRune what r); [apply IH | reflexivity].
Qed.

Lemma stateIdentifier_name (n : gostring) (fuel : nat) (l : lexer) :
  stateIdentifier fuel (set_name n l) = renameState n (stateIdentifier fuel l).
Proof.
  unfold stateIdentifier. rewrite acceptRun_name.
  destruct (acceptRun fuel tokenIdentifierChars l) as [l1|]; [|reflexivity]. cbn [option_map].
  rewrite acceptRun_name. destruct (acceptRun fuel tokenDigits l1) as [l2|]; [|reflexivity].
  cbn [option_map]. change (value (set_name n l2)) with (value l2).
  destruct (isKeyword tokenKeywords (value l2)); reflexivity.
Qed.

Lemma stateNumber_name (n : gostring) (fuel : nat) (l : lexer) :
  stateNumber fuel (set_name n l) = renameState n (stateNumber fuel l).
Proof.
  unfold stateNumber. rewrite acceptRun_name.
  destruct (acceptRun fuel tokenDigits l) as [l1|]; reflexivity.
Qed.

Lemma stringBody_name (n : gostring) (fuel : nat) (l : lexer) :
  stringBody fuel (set_name n l) = renameState n (stringBody fuel l).
Proof.
  revert l. induction fuel as [|f IH]; intros l; [reflexivity|].
  cbn [stringBody]. rewrite accept_name. destruct (accept [dquote] l) as [b l1]. cbn.
  destruct b; [reflexivity|].
  rewrite next_name. destruct (next l1) as [r l2]. cbn.
  destruct (r =? EOF); [reflexivity | apply IH].
Qed.

Lemma stateString_name (n : gostring) (fuel : nat) (l : lexer) :
  stateString fuel (set_name n l) = renameState n (stateString fuel l).
Proof.
  unfold stateString. change (ignore (set_name n l)) with (set_name n (ignore l)).
  rewrite stringBody_name. destruct (stringBody fuel (ignore l)) as [[l1 [|]]|]; try reflexivity.
  cbn.
  change (emit TokenString (add_col_value (backup (set_name n l1))))
    with (set_name n (emit TokenString (add_col_value (backup l1)))).
  rewrite next_name. destruct (next _) as [r l3]. reflexivity.
Qed.

Section Names.

Variable q : Z -> gostring.

Lemma matchSymbol_name (n : gostring) (syms : list gostring) (l : lexer) :
  matchSymbol syms (set_name n l)
  = option_map (fun p => (fst p, set_name n (snd p))) (matchSymbol syms l).
Proof.
  induction syms as [|sym rest IH]; [reflexivity|]. cbn [matchSymbol].
  change (input (set_name n l)) with (input l). change (start (set_name n l)) with (start l).
  destruct (HasPrefix _ sym); [reflexivity | exact IH].
Qed.

Lemma codeBody_name (n : gostring) (l : lexer) :
  codeBody q (set_name n l) = renameStep n (codeBody q l).
Proof.
  unfold codeBody. rewrite accept_name.
  destruct (accept tokenSpaceChars l) as [sp l1]. cbn [rename2 fst snd].
  destruct sp.
  { change (value (set_name n l1)) with (value l1).
    destruct (gostring_eqb (value l1) [newline]); reflexivity. }
  rewrite accept_name. destruct (accept tokenIdentifierChars l1) as [id l2].
  cbn [rename2 fst snd]. destruct id; [reflexivity|].
  rewrite accept_name. destruct (accept tokenDigits l2) as [dg l3].
  cbn [rename2 fst snd]. destruct dg; [reflexivity|].
  rewrite accept_name. destruct (accept [dquote] l3) as [qt l4].
  cbn [rename2 fst snd]. destruct qt; [reflexivity|].
  rewrite matchSymbol_name. destruct (matchSymbol tokenSymbols l4) as [[sym l5]|].
  - cbn. destruct (_ || _); reflexivity.
  - cbn [option_map]. change (pos (set_name n l4)) with (pos l4).
    change (input (set_name n l4)) with (input l4).
    destruct (_ <? _)%nat; [|reflexivity].
    rewrite peek_name. destruct (peek l4) as [r1 l5]. cbn [rename2 fst snd].
    rewrite peek_name. destruct (peek l5) as [r2 l6]. reflexivity.
Qed.

Lemma stateCode_name (n : gostring) (fuel : nat) (l : lexer) :
  stateCode q fuel (set_name n l) = renameState n (stateCode q fuel l).
Proof.
  revert l. induction fuel as [|f IH]; intros l; [reflexivity|].
  cbn [stateCode]. rewrite codeBody_name.
  destruct (codeBody q l) as [l1|l1 st]; cbn; [apply IH | reflexivity].
Qed.

Lemma tokenizeFrom_name (n : gostring) (fuel : nat) (st : option lexerStateFn) (l : lexer) :
  tokenizeFrom q fuel st (set_name n l) = option_map (set_name n) (tokenizeFrom q fuel st l).
Proof.
  revert st l. induction fuel as [|f IH]; intros [st|] l; try reflexivity.
  cbn [tokenizeFrom].
  assert (C : callState q f st (set_name n l) = renameState n (callState q f st l)).
  { destruct st; cbn [callState];
      auto using stateCode_name, stateIdentifier_name, stateNumber_name, stateString_name. }
  rewrite C. destruct (callState q f st l) as [[l1 st1]|]; [|reflexivity]. cbn. apply IH.
Qed.

Lemma commentBody_name (n : gostring) (fuel : nat) (l : lexer) :
  commentBody fuel (set_name n l) = renameState n (commentBody fuel l).
Proof.
  revert l. induction fuel as [|f IH]; intros l; [reflexivity|].
  cbn [commentBody]. rewrite peek_name. destruct (peek l) as [r l1]. cbn [rename2 fst snd].
  destruct (r =? EOF); [reflexivity|]. destruct (r =? byteZ newline); [reflexivity|].
  change (input (set_name n l1)) with (input l1). change (pos (set_name n l1)) with (pos l1).
  destruct (HasPrefix _ _); [reflexivity|]. apply (IH (advance 1 l1)).
Qed.

Lemma flushHTML_name (n : gostring) (l : lexer) :
  flushHTML (set_name n l) = set_name n (flushHTML l).
Proof.
  unfold flushHTML. cbn [start pos set_name]. destruct (_ <? _)%nat; reflexivity.
Qed.

Lemma run_name (n : gostring) (fuel : nat) (l : lexer) :
  run q fuel (set_name n l) = option_map (set_name n) (run q fuel l).
Proof.
  revert l. induction fuel as [|f IH]; intros l; [reflexivity|].
  cbn [run]. change (input (set_name n l)) with (input l).
  change (pos (set_name n l)) with (pos l).
  destruct (HasPrefix _ (str "{#")).
  { rewrite flushHTML_name.
    change (advance 2 (set_name n (flushHTML l))) with (set_name n (advance 2 (flushHTML l))).
    rewrite commentBody_name.
    destruct (commentBody f _) as [[l1 [|]]|]; cbn; try reflexivity.
    apply (IH (ignore l1)). }
  destruct (_ || _).
  { rewrite flushHTML_name. unfold tokenize. rewrite tokenizeFrom_name.
    destruct (tokenizeFrom q f (Some StateCode) (flushHTML l)) as [l1|]; [|reflexivity].
    cbn. destruct (errored l1); [reflexivity | apply IH]. }
  rewrite peek_name. destruct (peek l) as [r l1]. cbn [rename2 fst snd].
  set (l2 := if r =? byteZ newline then _ else _).
  assert (E : (if r =? byteZ newline
               then set_col 1 (set_line (line (set_name n l1) + 1) (set_name n l1))
               else set_col (col (set_name n l1) + 1) (set_name n l1))
              = set_name n (if r =? byteZ newline
                            then set_col 1 (set_line (line l1 + 1) l1)
                            else set_col (col l1 + 1) l1))
    by (destruct (r =? byteZ newline); reflexivity).
  subst l2. rewrite E, next_name. destruct (next _) as [r' l3]. cbn [rename2 fst snd].
  destruct (r' =? EOF); [now rewrite flushHTML_name | apply IH].
Qed.

(** X12: the template name.  The name given to [lex] is only written into
    the error text: with two names, the same input gives the same tokens,
    or two errors whose texts are built from the same Error token and
    differ by the name only. *)
Theorem name_only_in_error_text (nm1 nm2 s : gostring) :
  match lex q nm1 s with
  | Some (Tokens ts) => lex q nm2 s = Some (Tokens ts)
  | Some (LexError m) =>
      exists t, m = lexErrorText nm1 t /\ lex q nm2 s = Some (LexError (lexErrorText nm2 t))
  | None => False
  end.
Proof.
  destruct (lex_run q nm1 s) as (l & E & _ & Hn & _).
  unfold lex. change (newLexer nm2 s) with (set_name nm2 (newLexer nm1 s)).
  rewrite run_name, E. cbn [option_map]. unfold lexResult.
  cbn [errored tokens set_name name]. rewrite Hn.
  destruct (errored l); [|reflexivity].
  eexists. split; reflexivity.
Qed.

End Names.

(** * Printing a token *)

(** X13: printing a token.  The printed form is the fixed frame around the
    name and the number of the kind and the text shown; the text shown is
    the token's text itself up to 1000 bytes, and beyond that its first
    ten bytes, three dots and its last five bytes; so, for the kinds 0 to
    7, the printed form never exceeds 1033 bytes however long the token
    is. *)
Theorem Token_String_bounded (t : Token) :
  0 <= Typ t <= 7 ->
  exists shown,
    Token_String t = str "<Token typ=" ++ typeName (Typ t) ++ str " (" ++ itoa (Typ t)
                     ++ str ") val='" ++ shown ++ str "'>"
    /\ ((length (Val t) <= 1000)%nat -> shown = Val t)
    /\ ((1000 < length (Val t))%nat ->
        exists head mid tail,
          Val t = head ++ mid ++ tail /\ length head = 10%nat /\ length tail = 5%nat
          /\ shown = head ++ str "..." ++ tail)
    /\ (length (Token_String t) <= 1033)%nat.
Proof.
  intros Hk. exists (shownVal (Val t)).
  split; [reflexivity|].
  assert (H1 : (length (Val t) <= 1000)%nat -> shownVal (Val t) = Val t).
  { intros H. unfold shownVal. destruct (Nat.ltb_spec 1000 (length (Val t))); [lia | reflexivity]. }
  assert (H2 : (1000 < length (Val t))%nat ->
               exists head mid tail,
                 Val t = head ++ mid ++ tail /\ length head = 10%nat /\ length tail = 5%nat
                 /\ shownVal (Val t) = head ++ str "..." ++ tail).
  { intros H. set (v := Val t) in *.
    exists (firstn 10 v), (slice v 10 (length v - 5)), (slice v (length v - 5) (length v)).
    split; [|split; [|split]].
    - rewrite <- (slice_app v 10 (length v - 5) (length v)) by lia.
      unfold slice. rewrite (firstn_all2 (skipn 10 v)) by (rewrite length_skipn; lia).
      symmetry. apply firstn_skipn.
    - rewrite length_firstn. lia.
    - rewrite slice_length by lia. lia.
    - unfold shownVal. destruct (Nat.ltb_spec 1000 (length v)); [reflexivity | lia]. }
  split; [exact H1|]. split; [exact H2|].
  assert (Hs : (length (shownVal (Val t)) <= 1000)%nat).
  { destruct (Nat.le_gt_cases (length (Val t)) 1000) as [H|H].
    - now rewrite H1.
    - destruct (H2 H) as (head & mid & tail & _ & Hh & Ht & ->).
      rewrite !length_app, Hh, Ht. cbn. lia. }
  assert (Hn : (length (typeName (Typ t)) <= 10)%nat /\ length (itoa (Typ t)) = 1%nat).
  { assert (H : Typ t = 0 \/ Typ t = 1 \/ Typ t = 2 \/ Typ t = 3 \/ Typ t = 4
                \/ Typ t = 5 \/ Typ t = 6 \/ Typ t = 7) by lia.
    repeat (destruct H as [H|H]; [rewrite H; cbn; split; [lia | reflexivity]|]).
    rewrite H. cbn. split; [lia | reflexivity]. }
  destruct Hn as [Hn1 Hn2].
  unfold Token_String. rewrite !length_app, Hn2. cbn [length str list_ascii_of_string].
  lia.
Qed.

(** * Positions in literal text *)

Lemma positionFrom_fuel (f1 f2 : nat) (s : gostring) (off : nat) (ln cl : Z) :
  (off <= f1)%nat -> (off <= f2)%nat ->
  positionFrom f1 s off ln cl = positionFrom f2 s off ln cl.
Proof.
  revert f2 s off ln cl. induction f1 as [|f1 IH]; intros f2 s off ln cl H1 H2.
  - assert (off = 0%nat) as -> by lia. destruct f2; reflexivity.
  - destruct off as [|o]; [destruct f2; reflexivity|].
    destruct f2 as [|f2]; [lia|].
    destruct s as [|c t]; [reflexivity|].
    cbn [positionFrom].
    destruct (decode_cons c t) as (r & w & -> & Hw & _).
    destruct (r =? byteZ newline); apply IH; lia.
Qed.

Lemma positionFrom_cons (f : nat) (s : gostring) (off : nat) (ln cl : Z)
      (c : ascii) (t : gostring) (r : Z) (w : nat) :
  s = c :: t -> DecodeRuneInString s = (r, w) ->
  positionFrom (S f) s (S off) ln cl
  = if r =? byteZ newline
    then positionFrom f (skipn w s) (S off - w) (ln + 1) 1
    else positionFrom f (skipn w s) (S off - w) ln (cl + 1).
Proof.
  intros Hs D. rewrite Hs in *. cbn [positionFrom]. now rewrite D.
Qed.

Lemma next_decoded (l : lexer) (c : ascii) (r : Z) (w : nat) :
  nth_error (input l) (pos l) = Some c ->
  DecodeRuneInString (skipn (pos l) (input l)) = (r, w) ->
  next l = (r, set_pos (pos l + w) (set_width w l)).
Proof.
  intros E D. unfold next, slice_from.
  assert (Hlt : (pos l < length (input l))%nat) by (apply nth_error_Some; congruence).
  destruct (Nat.leb_spec (length (input l)) (pos l)); [lia|]. now rewrite D.
Qed.

Section TextPosition.

Variable q : Z -> gostring.

Lemma text_steps (m k : nat) (l : lexer) :
  (k <= m)%nat ->
  (pos l + k <= length (input l))%nat ->
  (forall c, In c (slice (input l) (pos l) (pos l + k)) -> c <> "{"%char /\ c <> soh) ->
  (forall c, nth_error (input l) (pos l + k) = Some c -> byteZ c < 128) ->
  exists n l',
    (n <= k)%nat
    /\ (forall f, run q (n + f) l = run q f l')
    /\ input l' = input l /\ name l' = name l /\ start l' = start l
    /\ pos l' = (pos l + k)%nat
    /\ tokens l' = tokens l /\ errored l' = errored l
    /\ startline l' = startline l /\ startcol l' = startcol l
    /\ (line l', col l') = positionFrom k (skipn (pos l) (input l)) k (line l) (col l).
Proof.
  revert k l. induction m as [|m IH]; intros k l Hk Hb Hc Ha.
  - assert (k = 0%nat) as -> by lia. exists 0%nat, l.
    rewrite Nat.add_0_r. repeat split. lia.
  - destruct k as [|k].
    { exists 0%nat, l. rewrite Nat.add_0_r. repeat split. lia. }
    destruct (nth_error_in_range (input l) (pos l)) as (c & E); [lia|].
    pose proof (nth_error_skipn_cons _ _ _ E) as Hs.
    destruct (DecodeRuneInString (skipn (pos l) (input l))) as [r w] eqn:D.
    pose proof (next_decoded l c r w E D) as En.
    destruct (next_at_byte l c E) as (r0 & w0 & En0 & Hw1 & Hw2 & Hr).
    rewrite En in En0.
    assert (Hrw : r0 = r /\ w0 = w) by (injection En0; intros; split; [congruence | lia]).
    destruct Hrw as [-> ->]. clear En0.
    assert (Hin : In c (slice (input l) (pos l) (pos l + S k))).
    { rewrite (slice_app _ (pos l) (S (pos l)) (pos l + S k)) by lia.
      rewrite (slice_nth _ _ _ E). now left. }
    destruct (Hc c Hin) as [Hbrace Hsoh].
    assert (Hw : (w <= S k)%nat).
    { destruct Hr as [(_ & _ & ->)|(_ & _ & Hall)]; [lia|].
      destruct (Nat.le_gt_cases w (S k)) as [H|H]; [exact H|exfalso].
      destruct (nth_error_in_range (input l) (pos l + S k)) as (c' & E'); [lia|].
      specialize (Ha c' E').
      rewrite Forall_forall in Hall.
      assert (128 <= byteZ c'); [|lia].
      apply Hall. rewrite (slice_app _ (pos l) (pos l + S k) (pos l + w)) by lia.
      apply in_or_app. right.
      rewrite (slice_app _ (pos l + S k) (S (pos l + S k)) (pos l + w)) by lia.
      rewrite (slice_nth _ _ _ E'). now left. }
    assert (Hne : (r =? EOF) = false).
    { apply Z.eqb_neq. intros ->.
      destruct Hr as [(_ & Hrc & _)|(_ & ? & _)]; [|unfold EOF in *; lia].
      apply Hsoh, byteZ_inj. rewrite <- Hrc. reflexivity. }
    set (l2 := if r =? byteZ newline
               then set_col 1 (set_line (line (set_width w l) + 1) (set_width w l))
               else set_col (col (set_width w l) + 1) (set_width w l)).
    assert (F : input l2 = input l /\ pos l2 = pos l /\ start l2 = start l
                /\ tokens l2 = tokens l /\ errored l2 = errored l /\ name l2 = name l
                /\ startline l2 = startline l /\ startcol l2 = startcol l
                /\ (line l2, col l2)
                   = if r =? byteZ newline then (line l + 1, 1) else (line l, col l + 1)).
    { subst l2. destruct (r =? byteZ newline); repeat split. }
    destruct F as (Fi & Fp & Fs & Ft & Fe & Fn & Fsl & Fsc & Flc).
    assert (E2 : nth_error (input l2) (pos l2) = Some c) by (now rewrite Fi, Fp).
    assert (D2 : DecodeRuneInString (skipn (pos l2) (input l2)) = (r, w))
      by (now rewrite Fi, Fp).
    pose proof (next_decoded l2 c r w E2 D2) as En2.
    assert (Hstep : forall g, run q (S g) l = run q g (set_pos (pos l2 + w) (set_width w l2))).
    { intros g. cbn [run]. unfold slice_from. rewrite Hs.
      unfold str. cbn [list_ascii_of_string].
      rewrite !HasPrefix_mismatch by exact Hbrace. cbn [orb].
      rewrite peek_next, En. cbn [fst snd].
      change (width (set_pos (pos l + w) (set_width w l))) with w.
      fold l2. now rewrite En2, Hne. }
    destruct (IH (S k - w)%nat (set_pos (pos l2 + w) (set_width w l2)))
      as (n & l' & Hn & Hrun & Hi & Hnm & Hst & Hp & Ht & He & Hsl & Hsc & Hlc);
      cbn [input pos set_pos set_width]; rewrite ?Fi, ?Fp; try lia.
    + replace (pos l + w + (S k - w))%nat with (pos l + S k)%nat by lia.
      intros c' Hin'. apply Hc.
      rewrite (slice_app _ (pos l) (pos l + w) (pos l + S k)) by lia.
      apply in_or_app. now right.
    + replace (pos l + w + (S k - w))%nat with (pos l + S k)%nat by lia. exact Ha.
    + cbn [input name start pos tokens errored startline startcol line col
           set_pos set_width] in Hi, Hnm, Hst, Hp, Ht, He, Hsl, Hsc, Hlc.
      rewrite ?Fi, ?Fp in *.
      exists (S n), l'. split; [lia|]. split.
      { intros f. rewrite <- Hrun. cbn [Nat.add]. apply Hstep. }
      rewrite Hi, Hnm, Hst, Hp, Ht, He, Hsl, Hsc, Fs, Ft, Fe, Fn, Fsl, Fsc.
      repeat split; try lia.
      rewrite Hlc, (positionFrom_cons k _ k _ _ c _ r w Hs D).
      replace (skipn (pos l + w) (input l)) with (skipn w (skipn (pos l) (input l)))
        by (rewrite skipn_skipn; f_equal; lia).
      rewrite (positionFrom_fuel (S k - w) k) by lia.
      pose proof (f_equal fst Flc) as Fl. pose proof (f_equal snd Flc) as Fc.
      cbn [fst snd] in Fl, Fc. rewrite Fl, Fc.
      destruct (r =? byteZ newline); reflexivity.
Qed.

(** X14: positions in literal text.  From any state of [run], over [k] bytes
    of text holding neither [{] nor the byte 0x01 and not ending inside a
    multi-byte character, [run] comes back to the head of its loop with the
    cursor [k] bytes further, no token emitted, and the running line and
    column advanced as the specification counts them: one column per
    decoded character, and for a newline the line incremented and the
    column reset to 1. *)
Theorem text_counts_characters (k : nat) (l : lexer) :
  (pos l + k <= length (input l))%nat ->
  (forall c, In c (slice (input l) (pos l) (pos l + k)) -> c <> "{"%char /\ c <> soh) ->
  (forall c, nth_error (input l) (pos l + k) = Some c -> byteZ c < 128) ->
  exists n l',
    (n <= k)%nat
    /\ (forall f, run q (n + f) l = run q f l')
    /\ input l' = input l /\ start l' = start l /\ pos l' = (pos l + k)%nat
    /\ tokens l' = tokens l /\ errored l' = errored l
    /\ startline l' = startline l /\ startcol l' = startcol l
    /\ (line l', col l') = positionFrom k (skipn (pos l) (input l)) k (line l) (col l).
Proof.
  intros Hb Hc Ha.
  destruct (text_steps k k l (le_n k) Hb Hc Ha)
    as (n & l' & Hn & Hrun & Hi & _ & Hst & Hp & Ht & He & Hsl & Hsc & Hlc).
  exists n, l'. repeat split; assumption.
Qed.

End TextPosition.

(** * Tokens are only appended *)

Lemma grows_same (l l' : lexer) : tokens l' = tokens l -> grows l l'.
Proof. intros H. exists []. now rewrite app_nil_r. Qed.

Lemma grows_trans (a b c : lexer) : grows a b -> grows b c -> grows a c.
Proof.
  intros (m1 & H1) (m2 & H2). exists (m1 ++ m2). now rewrite H2, H1, app_assoc.
Qed.

Lemma grows_one (l l' : lexer) (t : Token) : tokens l' = tokens l ++ [t] -> grows l l'.
Proof. intros H. now exists [t]. Qed.

Lemma accept_keeps_tokens (what : gostring) (l : lexer) :
  tokens (snd (accept what l)) = tokens l.
Proof.
  unfold accept. pose proof (next_keeps_tokens l) as [H _].
  destruct (next l) as [r l1]. cbn [snd] in H.
  destruct (0 <=? IndexRune what r); cbn; exact H.
Qed.

Lemma peek_keeps_tokens (l : lexer) : tokens (snd (peek l)) = tokens l.
Proof. rewrite peek_next. reflexivity. Qed.

Lemma acceptRun_keeps_tokens (fuel : nat) (what : gostring) (l l' : lexer) :
  acceptRun fuel what l = Some l' -> tokens l' = tokens l.
Proof.
  revert l. induction fuel as [|f IH]; intros l E; [discriminate|].
  cbn [acceptRun] in E. pose proof (next_keeps_tokens l) as [H _].
  destruct (next l) as [r l1]. cbn [snd] in H.
  destruct (0 <=? IndexRune what r).
  - rewrite (IH l1 E). exact H.
  - injection E as <-. exact H.
Qed.

Lemma stateIdentifier_grows (fuel : nat) (l l' : lexer) (st : option lexerStateFn) :
  stateIdentifier fuel l = Some (l', st) -> grows l l'.
Proof.
  unfold stateIdentifier. intros E.
  destruct (acceptRun fuel tokenIdentifierChars l) as [l1|] eqn:E1; [|discriminate].
  destruct (acceptRun fuel tokenDigits l1) as [l2|] eqn:E2; [|discriminate].
  apply acceptRun_keeps_tokens in E1, E2.
  destruct (isKeyword _ _); injection E as <- _; eapply grows_one; cbn;
    rewrite E2, E1; reflexivity.
Qed.

Lemma stateNumber_grows (fuel : nat) (l l' : lexer) (st : option lexerStateFn) :
  stateNumber fuel l = Some (l', st) -> grows l l'.
Proof.
  unfold stateNumber. intros E.
  destruct (acceptRun fuel tokenDigits l) as [l1|] eqn:E1; [|discriminate].
  apply acceptRun_keeps_tokens in E1.
  injection E as <- _; eapply grows_one; cbn; rewrite E1; reflexivity.
Qed.

Lemma stringBody_grows (fuel : nat) (l l' : lexer) (b : bool) :
  stringBody fuel l = Some (l', b) -> grows l l'.
Proof.
  revert l. induction fuel as [|f IH]; intros l E; [discriminate|].
  cbn [stringBody] in E. pose proof (accept_keeps_tokens [dquote] l) as H.
  destruct (accept [dquote] l) as [a l1]. cbn [snd] in H.
  destruct a; [injection E as <- _; now apply grows_same|].
  pose proof (next_keeps_tokens l1) as [H1 _].
  destruct (next l1) as [r l2]. cbn [snd] in H1.
  destruct (r =? EOF).
  - injection E as <- _. eapply grows_one. cbn. rewrite H1, H. reflexivity.
  - apply grows_trans with l2; [apply grows_same; congruence | now apply IH].
Qed.

Lemma stateString_grows (fuel : nat) (l l' : lexer) (st : option lexerStateFn) :
  stateString fuel l = Some (l', st) -> grows l l'.
Proof.
  unfold stateString. intros E.
  destruct (stringBody fuel (ignore l)) as [[l1 b]|] eqn:E1; [|discriminate].
  apply stringBody_grows in E1.
  assert (G : grows l l1) by (destruct E1 as (m & Hm); exists m; exact Hm).
  destruct b.
  - pose proof (next_keeps_tokens (emit TokenString (add_col_value (backup l1)))) as [H _].
    destruct (next _) as [r l3]. cbn [snd] in H. injection E as <- _.
    apply grows_trans with l1; [exact G|]. eapply grows_one. cbn. rewrite H. reflexivity.
  - injection E as <- _. exact G.
Qed.

Section Grows.

Variable q : Z -> gostring.

Lemma codeBody_grows (l : lexer) :
  match codeBody q l with
  | Continue l' => grows l l'
  | Return l' _ => grows l l'
  end.
Proof.
  unfold codeBody.
  pose proof (accept_keeps_tokens tokenSpaceChars l) as H1.
  destruct (accept tokenSpaceChars l) as [sp l1]. cbn [snd] in H1.
  destruct sp.
  { apply grows_same. destruct (gostring_eqb _ _); exact H1. }
  pose proof (accept_keeps_tokens tokenIdentifierChars l1) as H2.
  destruct (accept tokenIdentifierChars l1) as [id l2]. cbn [snd] in H2.
  destruct id; [apply grows_same; congruence|].
  pose proof (accept_keeps_tokens tokenDigits l2) as H3.
  destruct (accept tokenDigits l2) as [dg l3]. cbn [snd] in H3.
  destruct dg; [apply grows_same; congruence|].
  pose proof (accept_keeps_tokens [dquote] l3) as H4.
  destruct (accept [dquote] l3) as [qt l4]. cbn [snd] in H4.
  destruct qt; [apply grows_same; congruence|].
  assert (T4 : tokens l4 = tokens l) by congruence.
  rewrite matchSymbol_find.
  destruct (find _ tokenSymbols) as [sym|]; cbn [option_map].
  - assert (G : grows l (emit TokenSymbol (advance (length sym) l4))).
    { eapply grows_one. cbn. rewrite T4. reflexivity. }
    destruct (_ || _); exact G.
  - destruct (_ <? _)%nat; [|now apply grows_same].
    rewrite !peek_next. cbv beta iota.
    eapply grows_one. cbn. rewrite T4. reflexivity.
Qed.

Lemma stateCode_grows (fuel : nat) (l l' : lexer) (st : option lexerStateFn) :
  stateCode q fuel l = Some (l', st) -> grows l l'.
Proof.
  revert l. induction fuel as [|f IH]; intros l E; [discriminate|].
  cbn [stateCode] in E. pose proof (codeBody_grows l) as G.
  destruct (codeBody q l) as [l1|l1 st1].
  - apply grows_trans with l1; [exact G | now apply IH].
  - now injection E as <- _.
Qed.

Lemma tokenizeFrom_grows (fuel : nat) (st : option lexerStateFn) (l l' : lexer) :
  tokenizeFrom q fuel st l = Some l' -> grows l l'.
Proof.
  revert st l. induction fuel as [|f IH]; intros [st|] l E; cbn [tokenizeFrom] in E;
    try discriminate; try (injection E as <-; now apply grows_same).
  destruct (callState q f st l) as [[l1 st1]|] eqn:C; [|discriminate].
  apply grows_trans with l1; [|now apply IH with st1].
  destruct st; cbn [callState] in C;
    eauto using stateCode_grows, stateIdentifier_grows, stateNumber_grows, stateString_grows.
Qed.

Lemma commentBody_grows (fuel : nat) (l l' : lexer) (b : bool) :
  commentBody fuel l = Some (l', b) -> grows l l'.
Proof.
  revert l. induction fuel as [|f IH]; intros l E; [discriminate|].
  cbn [commentBody] in E. rewrite peek_next in E. cbv beta iota in E.
  destruct (_ =? EOF); [injection E as <- _; now eapply grows_one|].
  destruct (_ =? byteZ newline); [injection E as <- _; now eapply grows_one|].
  destruct (HasPrefix _ _); [injection E as <- _; now apply grows_same|].
  apply IH in E. destruct E as (m & Hm). exists m. exact Hm.
Qed.

Lemma flushHTML_grows (l : lexer) : grows l (flushHTML l).
Proof.
  unfold flushHTML. destruct (_ <? _)%nat; [now eapply grows_one | now apply grows_same].
Qed.

Lemma run_grows (fuel : nat) (l l' : lexer) : run q fuel l = Some l' -> grows l l'.
Proof.
  revert l. induction fuel as [|f IH]; intros l E; [discriminate|].
  cbn [run] in E.
  destruct (HasPrefix _ (str "{#")).
  { destruct (commentBody f (advance 2 (flushHTML l))) as [[l1 b]|] eqn:C; [|discriminate].
    apply commentBody_grows in C.
    assert (G : grows l l1).
    { apply grows_trans with (flushHTML l); [apply flushHTML_grows|].
      destruct C as (m & Hm). exists m. exact Hm. }
    destruct b.
    - apply grows_trans with l1; [exact G|]. apply IH in E.
      destruct E as (m & Hm). exists m. exact Hm.
    - now injection E as <-. }
  destruct (_ || _).
  { unfold tokenize in E.
    destruct (tokenizeFrom q f (Some StateCode) (flushHTML l)) as [l1|] eqn:T; [|discriminate].
    apply tokenizeFrom_grows in T.
    assert (G : grows l l1) by (apply grows_trans with (flushHTML l); [apply flushHTML_grows | exact T]).
    destruct (errored l1); [now injection E as <-|].
    apply grows_trans with l1; [exact G | now apply IH]. }
  rewrite peek_next in E. cbv beta iota in E.
  set (l2 := if _ =? byteZ newline then _ else _) in E.
  assert (T2 : tokens l2 = tokens l) by (subst l2; destruct (_ =? byteZ newline); reflexivity).
  pose proof (next_keeps_tokens l2) as [H _].
  destruct (next l2) as [r' l3]. cbn [snd] in H.
  assert (G : grows l l3) by (apply grows_same; congruence).
  destruct (r' =? EOF).
  - injection E as <-. apply grows_trans with l3; [exact G | apply flushHTML_grows].
  - apply grows_trans with l3; [exact G | now apply IH].
Qed.

End Grows.

(** * The first tag *)

Lemma HasPrefix_app (p r : gostring) : HasPrefix (p ++ r) p = true.
Proof. apply HasPrefix_spec. eauto. Qed.

Lemma HasPrefix_second (c d e : ascii) (t p : gostring) :
  d <> e -> HasPrefix (c :: d :: t) (c :: e :: p) = false.
Proof.
  intros H. apply not_true_is_false. rewrite HasPrefix_spec.
  intros (r & E). cbn in E. congruence.
Qed.

Ltac skip_symbols :=
  repeat match goal with
  | |- context [HasPrefix (?c :: ?t) (?d :: ?p)] =>
    rewrite (HasPrefix_mismatch c d t p) by discriminate
  | |- context [HasPrefix (?c :: ?d :: ?t) (?c :: ?e :: ?p)] =>
    rewrite (HasPrefix_second c d e t p) by discriminate
  end.

Lemma find_opener (o rest : gostring) :
  opensTag o ->
  find (fun sym => HasPrefix (o ++ rest) sym) tokenSymbols = Some o.
Proof.
  intros [-> | ->]; unfold tokenSymbols; cbn [map find].
  - pose proof (HasPrefix_app (str "{{") rest) as H.
    unfold str in *. cbn [list_ascii_of_string app] in *. skip_symbols. now rewrite H.
  - pose proof (HasPrefix_app (str "{%") rest) as H.
    unfold str in *. cbn [list_ascii_of_string app] in *. skip_symbols. now rewrite H.
Qed.

Lemma opener_first (o rest : gostring) :
  opensTag o -> exists t, o ++ rest = "{"%char :: t /\ length o = 2%nat
                          /\ closesTag o = false
                          /\ HasPrefix (o ++ rest) (str "{#") = false
                          /\ (HasPrefix (o ++ rest) (str "{{")
                              || HasPrefix (o ++ rest) (str "{%")) = true.
Proof.
  intros [-> | ->]; eexists; (split; [reflexivity|]); (split; [reflexivity|]);
    (split; [reflexivity|]); split.
  - unfold str. cbn [list_ascii_of_string app]. now apply HasPrefix_second.
  - now rewrite (HasPrefix_app (str "{{") rest).
  - unfold str. cbn [list_ascii_of_string app]. now apply HasPrefix_second.
  - rewrite (HasPrefix_app (str "{%") rest). apply orb_true_r.
Qed.

Section FirstTag.

Variable q : Z -> gostring.

Lemma brace_not_in_tables :
  ~ In "{"%char tokenSpaceChars /\ ~ In "{"%char tokenIdentifierChars
  /\ ~ In "{"%char tokenDigits /\ ~ In "{"%char [dquote].
Proof.
  repeat split; intros H; repeat (destruct H as [H|H]; [discriminate|]); destruct H.
Qed.

Lemma codeBody_opener (l : lexer) (o rest : gostring) :
  start l = pos l -> skipn (pos l) (input l) = o ++ rest -> opensTag o ->
  exists w, codeBody q l = Continue (emit TokenSymbol (advance 2 (set_width w l)))
            /\ value (advance 2 (set_width w l)) = o.
Proof.
  intros Hs Hrest Ho.
  destruct (opener_first o rest Ho) as (t & Ht & Hlen & Hcl & _).
  destruct brace_not_in_tables as (B1 & B2 & B3 & B4).
  assert (E : nth_error (input l) (pos l) = Some "{"%char).
  { rewrite <- (Nat.add_0_r (pos l)), <- nth_error_skipn, Hrest, Ht. reflexivity. }
  unfold codeBody.
  destruct (accept_miss tokenSpaceChars l _ E B1) as (w1 & ->).
  destruct (accept_miss tokenIdentifierChars (set_width w1 l) _ E B2) as (w2 & ->).
  destruct (accept_miss tokenDigits (set_width w2 (set_width w1 l)) _ E B3) as (w3 & ->).
  destruct (accept_miss [dquote] (set_width w3 (set_width w2 (set_width w1 l))) _ E B4)
    as (w4 & ->).
  cbv beta iota. rewrite matchSymbol_find. fields. unfold slice_from.
  rewrite Hs, Hrest, (find_opener o rest Ho). cbn [option_map].
  fold (closesTag o). rewrite Hcl, Hlen. exists w4. split; [reflexivity|].
  unfold value. fields. rewrite Hs, <- Hlen. apply slice_prefix.
  unfold slice_from. rewrite Hrest. apply HasPrefix_app.
Qed.

Lemma run_tag (f : nat) (l : lexer) :
  HasPrefix (skipn (pos l) (input l)) (str "{#") = false ->
  (HasPrefix (skipn (pos l) (input l)) (str "{{")
   || HasPrefix (skipn (pos l) (input l)) (str "{%")) = true ->
  run q (S f) l = match tokenizeFrom q f (Some StateCode) (flushHTML l) with
                  | None => None
                  | Some l1 => if errored l1 then Some l1 else run q f l1
                  end.
Proof.
  intros H1 H2. cbn [run]. unfold slice_from, tokenize. now rewrite H1, H2.
Qed.

Lemma tokenizeFrom_code (f : nat) (l : lexer) :
  tokenizeFrom q (S f) (Some StateCode) l
  = match stateCode q f l with
    | Some (l3, st3) => tokenizeFrom q f st3 l3
    | None => None
    end.
Proof. reflexivity. Qed.

Lemma stateCode_continue (f : nat) (l l' : lexer) :
  codeBody q l = Continue l' -> stateCode q (S f) l = stateCode q f l'.
Proof. intros E. cbn [stateCode]. now rewrite E. Qed.

(** X15: the first tag.  When the input is literal text [pre] (without [{]
    and without the byte 0x01) followed by [{{] or [{%], and the scan
    succeeds, the token list starts with the HTML token [pre] at line 1,
    column 1 (omitted when [pre] is empty), followed by the Symbol token of
    the opening delimiter, recorded at the line and column of its first
    character as the specification counts them (decoded characters, column
    reset at newlines). *)
Theorem first_tag_position (nm pre o rest : gostring) (ts : list Token) :
  (forall c, In c pre -> c <> "{"%char /\ c <> soh) ->
  opensTag o ->
  lex q nm (pre ++ o ++ rest) = Some (Tokens ts) ->
  exists more,
    ts = match pre with [] => [] | _ :: _ => [mkToken TokenHTML pre 1 1] end
         ++ mkToken TokenSymbol o
              (fst (specPosition (pre ++ o ++ rest) (length pre)))
              (snd (specPosition (pre ++ o ++ rest) (length pre)))
            :: more.
Proof.
  intros Hpre Ho Hlex.
  set (s := pre ++ o ++ rest) in *.
  destruct (opener_first o rest Ho) as (t & Ht & Hlen & _ & Hnc & Htag).
  assert (Hskip : skipn (length pre) s = o ++ rest).
  { subst s. now rewrite skipn_app, Nat.sub_diag, skipn_all. }
  assert (Hslen : (length s = length pre + 2 + length rest)%nat).
  { subst s. rewrite !length_app. lia. }
  assert (Hfirst : slice s 0 (length pre) = pre).
  { unfold slice. subst s. cbn [skipn]. rewrite Nat.sub_0_r, firstn_app, Nat.sub_diag, firstn_all.
    cbn. apply app_nil_r. }
  destruct (text_steps q (length pre) (length pre) (newLexer nm s) (le_n _))
    as (n & l1 & Hn & Hrun & Hi & _ & Hst & Hp & Htok & He & Hsl & Hsc & Hlc).
  { cbn. lia. }
  { cbn [pos input newLexer Nat.add]. rewrite Hfirst. exact Hpre. }
  { cbn [pos input newLexer Nat.add]. intros c Hc.
    rewrite <- (Nat.add_0_r (length pre)), <- nth_error_skipn, Hskip, Ht in Hc.
    injection Hc as <-. vm_compute. reflexivity. }
  cbn [input pos start tokens errored startline startcol line col newLexer Nat.add skipn]
    in Hi, Hst, Hp, Htok, He, Hsl, Hsc, Hlc.
  unfold lex in Hlex.
  destruct (run q (lexFuel s) (newLexer nm s)) as [l|] eqn:E; [|discriminate].
  cbn [option_map] in Hlex. unfold lexResult in Hlex.
  destruct (errored l) eqn:Herr; [discriminate|]. injection Hlex as <-.
  assert (Hfuel : exists f3, lexFuel s = (n + S (S (S f3)))%nat).
  { exists (lexFuel s - n - 3)%nat. unfold lexFuel. lia. }
  destruct Hfuel as (f3 & Hfuel). rewrite Hfuel, Hrun in E.
  rewrite run_tag in E by (rewrite Hi, Hp, Hskip; assumption).
  destruct (tokenizeFrom q (S (S f3)) (Some StateCode) (flushHTML l1)) as [l2|] eqn:T;
    [|discriminate].
  assert (G2 : grows l2 l).
  { destruct (errored l2); [injection E as <-; now apply grows_same|].
    now apply run_grows with q (S (S f3)). }
  rewrite tokenizeFrom_code in T.
  destruct (stateCode q (S f3) (flushHTML l1)) as [[l3 st3]|] eqn:C; [|discriminate].
  apply tokenizeFrom_grows in T.
  assert (Hfl : input (flushHTML l1) = s /\ pos (flushHTML l1) = length pre
                /\ start (flushHTML l1) = length pre).
  { unfold flushHTML. rewrite Hst, Hp. destruct (Nat.ltb_spec 0 (length pre)); cbn; [auto|].
    split; [exact Hi|]. split; [exact Hp|]. lia. }
  destruct Hfl as (Fi & Fp & Fs).
  destruct (codeBody_opener (flushHTML l1) o rest) as (w & Eb & Hv);
    [congruence | now rewrite Fi, Fp | exact Ho |].
  rewrite (stateCode_continue _ _ _ Eb) in C. apply stateCode_grows in C.
  destruct (grows_trans _ _ _ C (grows_trans _ _ _ T G2)) as (more & Hmore).
  exists more. rewrite Hmore. cbn [tokens emit advance set_col set_pos set_width].
  fold (advance 2 (set_width w (flushHTML l1))). rewrite Hv.
  cbn [startline startcol]. rewrite <- app_assoc. cbn [app].
  unfold specPosition. rewrite <- Hlc. cbn [fst snd].
  cbn [startline startcol advance set_col set_pos set_width].
  unfold flushHTML. rewrite Hst, Hp.
  destruct pre as [|c pre'].
  - cbn [length Nat.ltb Nat.leb app]. rewrite Htok, Hsl, Hsc.
    cbn [length positionFrom] in Hlc. injection Hlc as -> ->. reflexivity.
  - cbn [length Nat.ltb Nat.leb]. cbn [tokens emit startline startcol].
    unfold value. rewrite Htok, Hst, Hp, Hi, Hfirst, Hsl, Hsc. reflexivity.
Qed.

End FirstTag.

(** * The round trip, by scanning mode *)

Lemma skipn_slice (s : gostring) (a b : nat) :
  (a <= b)%nat -> skipn a s = slice s a b ++ skipn b s.
Proof.
  intros H. unfold slice. rewrite <- (firstn_skipn (b - a) (skipn a s)) at 1.
  f_equal. rewrite skipn_skipn. f_equal. lia.
Qed.

Lemma stopsAt_startsOutside (what s : gostring) (p : nat) :
  stopsAt what s p -> startsOutside what (skipn p s).
Proof.
  intros H. destruct (nth_error s p) as [c|] eqn:E.
  - rewrite (nth_error_skipn_cons _ _ _ E). exact (H c E).
  - apply nth_error_None in E. rewrite skipn_all2 by exact E. exact I.
Qed.

Lemma text_plain (t : Token) : Typ t <> TokenString -> text t = Val t.
Proof.
  intros H. unfold text. destruct (Z.eqb_spec (Typ t) TokenString); [contradiction | reflexivity].
Qed.

Lemma stretch_same (m : mode) (l l' : lexer) :
  tokens l' = tokens l -> start l' = start l -> stretch m m l l'.
Proof.
  intros Ht Hs. exists []. rewrite app_nil_r. split; [exact Ht|].
  intros ts2. now rewrite Hs.
Qed.

Lemma stretch_trans (m1 m2 m3 : mode) (a b c : lexer) :
  input b = input a -> stretch m1 m2 a b -> stretch m2 m3 b c -> stretch m1 m3 a c.
Proof.
  intros Hi (t1 & E1 & H1) (t2 & E2 & H2). exists (t1 ++ t2).
  split; [now rewrite E2, E1, app_assoc|].
  intros ts2 H. rewrite <- app_assoc. apply H1. rewrite <- Hi. apply H2.
  now rewrite Hi.
Qed.

Lemma stretch_token (m m' : mode) (l l' : lexer) (t : Token) :
  tokens l' = tokens l ++ [t] ->
  (forall ts2, Scan m' ts2 (skipn (start l') (input l)) ->
               Scan m (t :: ts2) (skipn (start l) (input l))) ->
  stretch m m' l l'.
Proof. intros Ht H. exists [t]. split; [exact Ht | exact H]. Qed.

Lemma stateIdentifier_scan (fuel : nat) (l : lexer) :
  wf l -> entered StateIdentifier l -> (length (input l) - pos l < fuel)%nat ->
  forall l' st, stateIdentifier fuel l = Some (l', st) -> stretch CodeMode CodeMode l l'.
Proof.
  intros Hw (Hpos & c & Ec & Hc) Hf l' st E.
  destruct (stateIdentifier_shape fuel l (wf_pos l Hw) Hf)
    as (p1 & p2 & w & E' & Hb & Hb2 & Hall1 & Hstop1 & Hall2 & Hstop2).
  cbn zeta in E'.
  set (v := slice (input l) (start l) p2).
  assert (Hv : v = (c :: slice (input l) (pos l) p1) ++ slice (input l) p1 p2).
  { subst v. rewrite (slice_app (input l) (start l) (pos l) p2) by lia.
    rewrite (slice_app (input l) (pos l) p1 p2) by lia.
    replace (slice (input l) (start l) (pos l)) with [c]
      by (rewrite Hpos; symmetry; apply slice_nth; exact Ec).
    reflexivity. }
  assert (Hword : forall (t : Token) (ts2 : list Token),
            Val t = v ->
            (Typ t = TokenKeyword /\ In v tokenKeywords)
            \/ (Typ t = TokenIdentifier /\ ~ In v tokenKeywords) ->
            Scan CodeMode ts2 (skipn p2 (input l)) ->
            Scan CodeMode (t :: ts2) (skipn (start l) (input l))).
  { intros t ts2 Ev Hk H.
    rewrite (skipn_slice (input l) (start l) p2) by lia. fold v. rewrite <- Ev.
    rewrite <- (text_plain t) by (destruct Hk as [[-> _]|[-> _]]; discriminate).
    apply scan_word with (a := c :: slice (input l) (pos l) p1) (b := slice (input l) p1 p2).
    - now rewrite Ev.
    - discriminate.
    - constructor; assumption.
    - exact Hall2.
    - rewrite <- (skipn_slice (input l) p1 p2) by lia. now apply stopsAt_startsOutside.
    - now apply stopsAt_startsOutside.
    - now rewrite Ev.
    - exact H. }
  change (value (set_pos p2 (set_width w l))) with v in E'.
  destruct (isKeyword tokenKeywords v) eqn:K; rewrite E' in E; injection E as <- _.
  - eapply stretch_token; [reflexivity|]. intros ts2 H. apply Hword; [reflexivity| |exact H].
    left. split; [reflexivity|]. now apply isKeyword_In.
  - eapply stretch_token; [reflexivity|]. intros ts2 H. apply Hword; [reflexivity| |exact H].
    right. split; [reflexivity|]. intros Hin. apply isKeyword_In in Hin. congruence.
Qed.

Lemma stateNumber_scan (fuel : nat) (l : lexer) :
  wf l -> entered StateNumber l -> (length (input l) - pos l < fuel)%nat ->
  forall l' st, stateNumber fuel l = Some (l', st) -> stretch CodeMode CodeMode l l'.
Proof.
  intros Hw (Hpos & c & Ec & Hc) Hf l' st E.
  destruct (stateNumber_shape fuel l (wf_pos l Hw) Hf) as (p & w & E' & Hb & Hall & Hstop).
  rewrite E' in E. injection E as <- _.
  eapply stretch_token; [reflexivity|]. intros ts2 H.
  cbn [start emit add_col_value set_col set_pos set_width input] in H.
  rewrite (skipn_slice (input l) (start l) p) by lia.
  set (t := mkToken TokenNumber (value (add_col_value (set_pos p (set_width w l))))
                    (startline l) (startcol l)).
  assert (Ev : Val t = slice (input l) (start l) p) by reflexivity.
  rewrite <- Ev, <- (text_plain t) by discriminate.
  assert (Hv : Val t = c :: slice (input l) (pos l) p).
  { rewrite Ev, (slice_app (input l) (start l) (pos l) p) by lia.
    replace (slice (input l) (start l) (pos l)) with [c]
      by (rewrite Hpos; symmetry; apply slice_nth; exact Ec).
    reflexivity. }
  apply scan_number.
  - reflexivity.
  - rewrite Hv. discriminate.
  - rewrite Hv. constructor; assumption.
  - now apply stopsAt_startsOutside.
  - exact H.
Qed.

Lemma stateString_scan (fuel : nat) (l : lexer) :
  wf l -> pos l = S (start l) -> nth_error (input l) (start l) = Some dquote ->
  (length (input l) - pos l < fuel)%nat ->
  forall l' st, stateString fuel l = Some (l', st) -> errored l' = false ->
    stretch CodeMode CodeMode l l'.
Proof.
  intros Hw Hpos Hq0 Hf l' st E Hne. unfold stateString in E.
  destruct (stringBody_spec fuel (ignore l)) as
      [(p & Es & Hb & Hq & Hnq & Hns)|(p & w & Es & _)];
    fields; try apply Hw; try lia; rewrite Es in E.
  - rewrite backup_quote in E.
    set (l2 := emit TokenString (add_col_value (set_pos p (set_width 1 (ignore l))))) in E.
    assert (E2 : nth_error (input l2) (pos l2) = Some dquote) by exact Hq.
    rewrite (next_ascii l2 dquote E2) in E by (vm_compute; reflexivity).
    injection E as <- _.
    eapply stretch_token; [reflexivity|]. intros ts2 H.
    cbn [start ignore set_start set_pos set_width input pos emit l2 add_col_value set_col] in H.
    set (t := mkToken TokenString (value (add_col_value (set_pos p (set_width 1 (ignore l)))))
                      (startline (add_col_value (set_pos p (set_width 1 (ignore l)))))
                      (startcol (add_col_value (set_pos p (set_width 1 (ignore l)))))).
    assert (Ev : Val t = slice (input l) (pos l) p) by reflexivity.
    assert (Hs : skipn (start l) (input l) = text t ++ skipn (p + 1) (input l)).
    { unfold text. cbn [Typ t Z.eqb TokenString Pos.eqb]. rewrite Ev.
      rewrite (nth_error_skipn_cons _ _ _ Hq0), <- Hpos.
      rewrite (skipn_slice (input l) (pos l) p) by lia.
      rewrite (nth_error_skipn_cons _ _ _ Hq), Nat.add_1_r.
      cbn [app]. now rewrite <- app_assoc. }
    rewrite Hs. apply scan_string; [reflexivity | now rewrite Ev | exact H].
  - injection E as <- _. discriminate.
Qed.

Lemma Scan_nil (m : mode) (ts : list Token) : Scan m ts [] -> ts = [].
Proof.
  intros H. remember [] as s eqn:Es. revert Es.
  induction H as [m|t ts rest Hy Hv _ _ _ _|body ts rest _ _ _ _|ts s Ho _ IH
                 |c ts rest _ _ _|t ts a b rest Ev Ha _ _ _ _ Hk _ _
                 |t ts rest Hy Hv _ _ _ _|t ts rest Hy _ _ _|t ts rest Hy Hf _ _];
    intros Es.
  - reflexivity.
  - rewrite text_plain in Es by (rewrite Hy; discriminate).
    apply app_eq_nil in Es. tauto.
  - discriminate.
  - subst s. discriminate.
  - discriminate.
  - rewrite text_plain in Es by (destruct Hk as [[-> _]|[-> _]]; discriminate).
    apply app_eq_nil in Es. destruct Es as [Es _]. rewrite Ev in Es.
    apply app_eq_nil in Es. tauto.
  - rewrite text_plain in Es by (rewrite Hy; discriminate).
    apply app_eq_nil in Es. tauto.
  - unfold text in Es. rewrite Hy in Es. discriminate.
  - rewrite text_plain in Es by (rewrite Hy; discriminate).
    apply app_eq_nil in Es. destruct Es as [Es _].
    apply find_some in Hf. destruct Hf as [Hin _].
    apply tokenSymbols_nonempty in Hin. rewrite Es in Hin. cbn in Hin. lia.
Qed.

Section ScanCode.

Variable q : Z -> gostring.

Lemma codeBody_scan (l : lexer) :
  wf l -> start l = pos l ->
  match codeBody q l with
  | Continue l' => stretch CodeMode CodeMode l l'
  | Return l' (Some st) => stretch CodeMode CodeMode l l' /\ entered st l'
  | Return l' None => errored l' = false -> stretch CodeMode TextMode l l'
  end.
Proof.
  intros Hw Hs. unfold codeBody.
  destruct (accept_cases tokenSpaceChars l asciiTable_space soh_not_space)
    as [(c & E & Hin & ->)|(w1 & -> & _)]; cbv beta iota.
  { exists []. rewrite app_nil_r.
    split; [destruct (gostring_eqb _ _); reflexivity|].
    intros ts2 H. cbn [app].
    assert (Hst : forall x, start (ignore x) = pos x) by reflexivity.
    rewrite Hst in H.
    replace (pos (if gostring_eqb (value (set_pos (pos l + 1) (set_width 1 l))) [newline]
                  then set_col 1 (set_line (line (set_pos (pos l + 1) (set_width 1 l)) + 1)
                                    (set_pos (pos l + 1) (set_width 1 l)))
                  else set_col (col (set_pos (pos l + 1) (set_width 1 l)) + 1)
                         (set_pos (pos l + 1) (set_width 1 l))))
      with (S (pos l)) in H by (destruct (gostring_eqb _ _); cbn; lia).
    rewrite Hs, (nth_error_skipn_cons _ _ _ E). now apply scan_space. }
  destruct (accept_cases tokenIdentifierChars (set_width w1 l) asciiTable_ident soh_not_ident)
    as [(c & E & Hin & ->)|(w2 & -> & _)]; cbv beta iota.
  { split; [now apply stretch_same|]. cbn [entered]. fields.
    split; [lia|]. exists c. rewrite Hs. auto. }
  destruct (accept_cases tokenDigits (set_width w2 (set_width w1 l))
              asciiTable_digits soh_not_digit)
    as [(c & E & Hin & ->)|(w3 & -> & _)]; cbv beta iota.
  { split; [now apply stretch_same|]. cbn [entered]. fields.
    split; [lia|]. exists c. rewrite Hs. auto. }
  destruct (accept_cases [dquote] (set_width w3 (set_width w2 (set_width w1 l)))
              asciiTable_quote soh_not_quote)
    as [(c & E & Hin & ->)|(w4 & -> & _)]; cbv beta iota.
  { split; [now apply stretch_same | exact I]. }
  rewrite matchSymbol_find.
  cbn [input start set_width].
  destruct (find _ tokenSymbols) as [sym|] eqn:F; cbn [option_map].
  - pose proof (find_some _ _ F) as [Hin Hpre].
    set (l4 := set_width w4 (set_width w3 (set_width w2 (set_width w1 l)))).
    set (t := mkToken TokenSymbol (value (advance (length sym) l4))
                      (startline (advance (length sym) l4))
                      (startcol (advance (length sym) l4))).
    assert (Ev : Val t = sym).
    { cbn [Val t]. unfold value. cbn. rewrite Hs. apply slice_prefix.
      now rewrite <- Hs. }
    assert (Hsym : forall ts2,
              Scan (if closesTag sym then TextMode else CodeMode) ts2
                   (skipn (pos l + length sym) (input l)) ->
              Scan CodeMode (t :: ts2) (skipn (start l) (input l))).
    { intros ts2 H.
      assert (Hsk : skipn (start l) (input l) = Val t ++ skipn (pos l + length sym) (input l)).
      { rewrite Ev, Hs. rewrite (skipn_slice (input l) (pos l) (pos l + length sym)) by lia.
        f_equal. apply slice_prefix. now rewrite <- Hs. }
      rewrite Hsk, <- (text_plain t) by discriminate.
      apply scan_symbol; [reflexivity | | now rewrite Ev].
      rewrite <- Hsk, Ev. exact F. }
    fold (closesTag sym). destruct (closesTag sym).
    + intros _. eapply stretch_token; [reflexivity | exact Hsym].
    + eapply stretch_token; [reflexivity | exact Hsym].
  - cbn [pos input set_width].
    destruct (Nat.ltb_spec (pos l) (length (input l))).
    + rewrite !peek_next. cbv beta iota. discriminate.
    + intros _. exists []. rewrite app_nil_r. split; [reflexivity|].
      intros ts2 Hsc. cbn [start set_width input app] in *.
      rewrite Hs, skipn_all2 in * by lia.
      apply Scan_nil in Hsc. subst ts2. apply scan_end.
Qed.

Lemma stateCode_scan (fuel : nat) (l : lexer) :
  wf l -> ok l -> start l = pos l ->
  forall l' st, stateCode q fuel l = Some (l', st) ->
    match st with
    | Some st' => stretch CodeMode CodeMode l l' /\ entered st' l'
    | None => errored l' = false -> stretch CodeMode TextMode l l'
    end.
Proof.
  revert l. induction fuel as [|f IH]; intros l Hw Hk Hs l' st E; [discriminate|].
  cbn [stateCode] in E.
  pose proof (codeBody_spec q l Hw Hk Hs) as B.
  pose proof (codeBody_scan l Hw Hs) as T.
  destruct (codeBody q l) as [l1|l1 [st1|]].
  - destruct B as (F & Hk1 & Hs1 & _). destruct F as [Hi1 _ Hw1 _ _].
    pose proof (IH l1 Hw1 Hk1 Hs1 l' st E) as H.
    destruct st as [st'|].
    + destruct H as [H He]. split; [|exact He]. now apply stretch_trans with CodeMode l1.
    + intros Hne. apply stretch_trans with CodeMode l1; auto.
  - injection E as <- <-. exact T.
  - injection E as <- <-. exact T.
Qed.

End ScanCode.

Lemma tokenizeFrom_scan (q : Z -> gostring) (fuel : nat) (st : lexerStateFn) (l : lexer) :
  ready st l -> entered st l -> (stepsLeft st l < fuel)%nat ->
  forall l', tokenizeFrom q fuel (Some st) l = Some l' -> errored l' = false ->
    stretch CodeMode TextMode l l'.
Proof.
  revert st l. induction fuel as [|f IH]; intros st l Hr He Hf l' E Hne; [lia|].
  cbn [tokenizeFrom] in E. unfold stepsLeft in *. destruct Hr as (Hw & Hk & Hst).
  assert (Hnext : forall l1, follows q l l1 -> ok l1 -> start l1 = pos l1 ->
            stretch CodeMode CodeMode l l1 ->
            tokenizeFrom q f (Some StateCode) l1 = Some l' ->
            (2 * (length (input l) - pos l) + 2 < S f)%nat ->
            stretch CodeMode TextMode l l').
  { intros l1 F Hk1 Hs1 T1 E1 Hb. destruct F as [Hi1 _ Hw1 Hp1 _].
    apply stretch_trans with CodeMode l1; [exact Hi1 | exact T1|].
    apply (IH StateCode l1); try assumption.
    - split; [assumption|]. split; assumption.
    - exact I.
    - unfold stepsLeft. rewrite Hi1. lia. }
  destruct st; cbn [callState] in E.
  - destruct (stateCode_spec q f l Hw Hk Hst) as (l1 & st1 & E1 & Hi & Hn & Hp & Hpost);
      [lia|].
    rewrite E1 in E.
    pose proof (stateCode_scan q f l Hw Hk Hst l1 st1 E1) as T1.
    destruct st1 as [st'|].
    + destruct Hpost as (Hr' & Hlt & Hne'). destruct T1 as [T1 He1].
      apply stretch_trans with CodeMode l1; [exact Hi | exact T1|].
      apply (IH st' l1); try assumption.
      pose proof (wf_pos l1 (proj1 Hr')). unfold stepsLeft. rewrite Hi in *.
      destruct st'; lia.
    + rewrite tokenizeFrom_nil in E. injection E as <-. exact (T1 Hne).
  - destruct (stateIdentifier_follows q f l Hw Hk) as (l1 & E1 & F & Hk1 & Hs1); [lia|].
    rewrite E1 in E.
    apply (Hnext l1); try assumption.
    apply (stateIdentifier_scan f l Hw He) with (st := Some StateCode); [lia | exact E1].
  - destruct (stateNumber_follows q f l Hw Hk) as (l1 & E1 & F & Hk1 & Hs1); [lia|].
    rewrite E1 in E.
    apply (Hnext l1); try assumption.
    apply (stateNumber_scan f l Hw He) with (st := Some StateCode); [lia | exact E1].
  - destruct Hst as [Hpos Hq].
    destruct (stateString_follows q f l) as (l1 & st1 & E1 & F & Hend);
      [split; [assumption|]; split; [assumption|]; split; assumption | lia |].
    rewrite E1 in E.
    destruct Hend as [(Hfail & ->)|(Hk1 & Hs1 & ->)].
    + rewrite tokenizeFrom_nil in E. injection E as <-.
      rewrite (failed_errored _ _ Hfail) in Hne. discriminate.
    + apply (Hnext l1); try assumption; try lia.
      apply (stateString_scan f l Hw Hpos Hq) with (st := Some StateCode);
        [lia | exact E1 | exact (ok_errored _ Hk1)].
Qed.

Lemma opens_brace (s : gostring) : opens s = true -> exists r, s = "{"%char :: r.
Proof.
  unfold opens. rewrite !orb_true_iff, !HasPrefix_spec.
  intros [[(r & ->)|(r & ->)]|(r & ->)]; eexists; reflexivity.
Qed.

Lemma opens_split (s : gostring) :
  opens s = HasPrefix s (str "{#") || tagOpens s.
Proof. unfold opens, tagOpens. now rewrite orb_assoc. Qed.

Lemma nth_error_slice_In (s : gostring) (a b i : nat) (c : ascii) :
  (a <= i < b)%nat -> nth_error s i = Some c -> In c (slice s a b).
Proof.
  intros Hi E. unfold slice.
  apply nth_error_In with (n := (i - a)%nat).
  rewrite nth_error_firstn. destruct (Nat.ltb_spec (i - a) (b - a)); [|lia].
  rewrite nth_error_skipn. now replace (a + (i - a))%nat with i by lia.
Qed.

(** The comment loop stops at the first closing delimiter. *)
Lemma commentBody_closer (fuel : nat) (l l' : lexer) :
  commentBody fuel l = Some (l', true) ->
  exists p, pos l' = (p + 2)%nat /\ (pos l <= p)%nat
    /\ HasPrefix (skipn p (input l)) (str "#}") = true
    /\ forall i, (pos l <= i < p)%nat -> HasPrefix (skipn i (input l)) (str "#}") = false.
Proof.
  revert l. induction fuel as [|f IH]; intros l E; [discriminate|].
  cbn [commentBody] in E. rewrite peek_next in E. cbv beta iota in E.
  destruct (_ =? EOF); [discriminate|].
  destruct (_ =? byteZ newline); [discriminate|].
  cbn [input pos set_width] in E. unfold slice_from in E.
  destruct (HasPrefix (skipn (pos l) (input l)) (str "#}")) eqn:Hpre.
  - injection E as <-. exists (pos l). cbn. split; [lia|]. split; [lia|].
    split; [exact Hpre|]. intros i Hi. lia.
  - apply IH in E. destruct E as (p & Hp & Hle & Hc & Hno).
    cbn [input pos advance set_col set_pos set_width] in *.
    exists p. split; [exact Hp|]. split; [lia|]. split; [exact Hc|].
    intros i Hi. destruct (Nat.eq_dec i (pos l)) as [->|Hne]; [exact Hpre|].
    apply Hno. lia.
Qed.

(** The pending text, flushed, goes in front of what follows. *)
Lemma flush_scan (l : lexer) (ts : list Token) :
  wf l -> pendingText l ->
  pos l = length (input l) \/ opens (skipn (pos l) (input l)) = true ->
  Scan TextMode ts (skipn (pos l) (input l)) ->
  exists ts0, tokens (flushHTML l) = tokens l ++ ts0
    /\ Scan TextMode (ts0 ++ ts) (skipn (start l) (input l)).
Proof.
  intros Hw Hp Hend H. unfold flushHTML.
  pose proof (wf_start l Hw) as Hs. pose proof (wf_pos l Hw) as Hl.
  destruct (Nat.ltb_spec (start l) (pos l)) as [Hlt|Hge].
  - set (t := mkToken TokenHTML (value l) (startline l) (startcol l)).
    exists [t]. split; [reflexivity|]. cbn [app].
    assert (Ev : Val t = slice (input l) (start l) (pos l)) by reflexivity.
    assert (Hsk : skipn (start l) (input l) = Val t ++ skipn (pos l) (input l))
      by (rewrite Ev; now apply skipn_slice).
    assert (Hlen : length (Val t) = (pos l - start l)%nat)
      by (rewrite Ev; apply slice_length; lia).
    rewrite Hsk, <- (text_plain t) by discriminate.
    apply scan_html.
    + reflexivity.
    + intros E. rewrite E in Hlen. cbn in Hlen. lia.
    + intros i Hi. rewrite <- Hsk, skipn_skipn. apply Hp. lia.
    + destruct Hend as [Hend|Hend]; [left | now right].
      rewrite Hend. apply skipn_all.
    + exact H.
  - exists []. split; [now rewrite app_nil_r|]. cbn [app].
    now replace (start l) with (pos l) by lia.
Qed.

(** One character of literal text keeps the pending text free of opening
    delimiters. *)
Lemma text_step_pending (l : lexer) (w : nat) (ln cl : Z) :
  pendingText l -> opens (skipn (pos l) (input l)) = false ->
  forall r l3, next (set_col cl (set_line ln (set_width w l))) = (r, l3) ->
    pendingText l3 /\ start l3 = start l /\ tokens l3 = tokens l /\ input l3 = input l.
Proof.
  intros Hp Ho r l3 E.
  set (l2 := set_col cl (set_line ln (set_width w l))) in E.
  destruct (nth_error (input l2) (pos l2)) as [c|] eqn:Ec.
  - destruct (next_at_byte l2 c Ec) as (r' & w' & E' & Hw1 & Hw2 & Hr).
    rewrite E' in E. injection E as <- <-. subst l2.
    cbn [input pos start tokens set_col set_line set_width set_pos] in *.
    split; [|repeat split].
    intros i Hi. cbn [input pos start tokens set_col set_line set_width set_pos] in *.
    destruct (Nat.lt_ge_cases i (pos l)) as [Hlt|Hge]; [apply Hp; lia|].
    destruct (Nat.eq_dec i (pos l)) as [->|Hne]; [exact Ho|].
    destruct (opens (skipn i (input l))) eqn:Hop; [exfalso|reflexivity].
    apply opens_brace in Hop. destruct Hop as (rest & Hop).
    assert (Ei : nth_error (input l) i = Some "{"%char).
    { rewrite <- (Nat.add_0_r i), <- nth_error_skipn, Hop. reflexivity. }
    destruct Hr as [(_ & _ & ->)|(_ & _ & Hall)]; [lia|].
    rewrite Forall_forall in Hall.
    specialize (Hall "{"%char (nth_error_slice_In _ (pos l) (pos l + w') i _ (conj Hge (proj2 Hi)) Ei)).
    vm_compute in Hall. now apply Hall.
  - apply nth_error_None in Ec. rewrite next_at_end in E by exact Ec.
    injection E as <- <-. subst l2. repeat split.
    intros i Hi. cbn [input pos start tokens set_col set_line set_width set_pos] in *.
    apply Hp. exact Hi.
Qed.

Lemma run_scan (q : Z -> gostring) (fuel : nat) (l : lexer) :
  wf l -> ok l -> ~ In soh (input l) -> pendingText l ->
  (2 * (length (input l) - pos l) + 4 <= fuel)%nat ->
  forall l', run q fuel l = Some l' -> errored l' = false ->
    exists ts, tokens l' = tokens l ++ ts /\ Scan TextMode ts (skipn (start l) (input l)).
Proof.
  revert l. induction fuel as [|f IH]; intros l Hw Hk Hsoh Hpt Hf l' E Hne; [lia|].
  cbn [run] in E.
  pose proof (flushHTML_wf l Hw) as Hw0. pose proof (flushHTML_ok l Hw Hk) as Hk0.
  destruct (flushHTML_fields l Hw) as (Hi0 & Hn0 & Hp0 & Hs0).
  pose proof (wf_pos l Hw) as Hpl.
  unfold slice_from in E.
  destruct (HasPrefix (skipn (pos l) (input l)) (str "{#")) eqn:Hc.
  - (* a comment *)
    pose proof (prefix_in_range _ _ _ Hc Hpl) as Hr. change (length (str "{#")) with 2%nat in Hr.
    assert (Hopen : opens (skipn (pos l) (input l)) = true)
      by (rewrite opens_split, Hc; reflexivity).
    destruct (commentBody_spec f (advance 2 (flushHTML l))) as
        [(p & w & cl & Ec & Hb1 & Hb2 & Hcl & Hclose & Hbody)
        |(p & w & cl & m & Ec & Hb & Hcl & Hm)];
      fields; rewrite ?Hi0, ?Hp0 in *; try lia; rewrite Ec in E.
    + destruct (commentBody_closer _ _ _ Ec) as (p' & Hp' & Hle' & Hc' & Hno).
      cbn [input pos advance set_col set_pos set_width] in Hp', Hle', Hc', Hno.
      assert (p' = p) by lia. subst p'. rewrite Hi0, Hp0 in *.
      set (l1 := ignore (set_col cl (set_pos (p + 2) (set_width w (advance 2 (flushHTML l)))))) in *.
      edestruct (IH l1) as (ts1 & Et1 & Sc1); try eassumption.
      * destruct Hw0. constructor; subst l1; fields; rewrite ?Hi0, ?Hs0 in *; lia.
      * destruct Hk0 as [He Hto Hrec]. constructor; subst l1; fields; try assumption.
        rewrite Hi0, Hs0 in *.
        assert (Hc2 : HasPrefix (slice_from (input l) (pos l)) (str "{#") = true) by exact Hc.
        rewrite (comment_slice (input l) (pos l) p Hc2 Hclose) by lia.
        apply recon_gap; [exact Hrec | now constructor].
      * subst l1. cbn. now rewrite Hi0.
      * intros i Hi. subst l1. cbn in Hi. lia.
      * subst l1. cbn. rewrite Hi0. lia.
      * assert (Sc : Scan TextMode ts1 (skipn (pos l) (input l))).
        { replace (skipn (pos l) (input l))
            with (str "{#" ++ slice (input l) (pos l + 2) p ++ str "#}"
                  ++ skipn (p + 2) (input l)).
          - apply scan_comment.
            + exact Hbody.
            + intros i Hi.
              rewrite slice_length in Hi by lia.
              replace (slice (input l) (pos l + 2) p ++ str "#}" ++ skipn (p + 2) (input l))
                with (skipn (pos l + 2) (input l)).
              * rewrite skipn_skipn. apply Hno. lia.
              * rewrite (skipn_slice (input l) (pos l + 2) p) by lia. f_equal.
                rewrite (skipn_slice (input l) p (p + 2)) by lia. now rewrite Hclose.
            + subst l1. cbn in Sc1. now rewrite Hi0 in Sc1.
          - rewrite (skipn_slice (input l) (pos l) (pos l + 2)) by lia.
            replace (slice (input l) (pos l) (pos l + 2)) with (str "{#")
              by (symmetry; exact (slice_prefix (input l) (str "{#") (pos l) Hc)).
            f_equal.
            rewrite (skipn_slice (input l) (pos l + 2) p) by lia. f_equal.
            rewrite (skipn_slice (input l) p (p + 2)) by lia. now rewrite Hclose. }
        destruct (flush_scan l ts1 Hw Hpt (or_intror Hopen) Sc) as (ts0 & Et0 & Sc0).
        exists (ts0 ++ ts1). split; [|exact Sc0].
        rewrite Et1. subst l1. cbn [tokens ignore set_start set_col set_pos set_width advance].
        now rewrite Et0, app_assoc.
    + injection E as <-. discriminate.
  - destruct (_ || _) eqn:Hor.
    + (* a tag *)
      assert (Hr : (pos l + 2 <= length (input l))%nat).
      { apply orb_true_iff in Hor.
        destruct Hor as [Hor|Hor]; exact (prefix_in_range _ _ _ Hor Hpl). }
      assert (Hopen : opens (skipn (pos l) (input l)) = true).
      { rewrite opens_split. unfold tagOpens. rewrite Hor. apply orb_true_r. }
      unfold tokenize in E.
      assert (Hready : ready StateCode (flushHTML l)).
      { split; [assumption|]. split; [assumption|]. congruence. }
      assert (Hsteps : (stepsLeft StateCode (flushHTML l) < f)%nat).
      { unfold stepsLeft. rewrite Hi0, Hp0. lia. }
      destruct (tokenizeFrom_spec q f StateCode (flushHTML l) Hready Hsteps)
        as (l1 & E1 & F & Hend).
      rewrite E1 in E.
      destruct F as [Hi1 Hn1 Hw1 Hp1 _].
      destruct Hend as [Hfail|(Hk1 & Hs1 & Hprog)].
      * rewrite (failed_errored _ _ Hfail) in E. injection E as <-.
        rewrite (failed_errored _ _ Hfail) in Hne. discriminate.
      * rewrite (ok_errored _ Hk1) in E.
        destruct (tokenizeFrom_scan q f StateCode (flushHTML l) Hready I Hsteps l1 E1
                    (ok_errored _ Hk1)) as (tsc & Etc & Hcode).
        edestruct (IH l1 Hw1 Hk1) as (ts1 & Et1 & Sc1); try eassumption.
        { now rewrite Hi1, Hi0. }
        { intros i Hi. lia. }
        { rewrite Hi1, Hi0, Hp0 in *. lia. }
        rewrite Hi1, Hi0 in Sc1. rewrite Hi0, Hs0 in Hcode.
        assert (Sc : Scan TextMode (tsc ++ ts1) (skipn (pos l) (input l))).
        { apply scan_tag; [exact Hor|]. apply Hcode. exact Sc1. }
        destruct (flush_scan l _ Hw Hpt (or_intror Hopen) Sc) as (ts0 & Et0 & Sc0).
        exists (ts0 ++ tsc ++ ts1). split; [|exact Sc0].
        now rewrite Et1, Etc, Et0, <- !app_assoc.
    + (* literal text *)
      assert (Hopen : opens (skipn (pos l) (input l)) = false).
      { rewrite opens_split. unfold tagOpens. now rewrite Hc, Hor. }
      destruct (peek_shape l) as (r & w & Ep). rewrite Ep in E.
      assert (T : exists r' l3,
                 next (if r =? byteZ newline
                       then set_col 1 (set_line (line (set_width w l) + 1) (set_width w l))
                       else set_col (col (set_width w l) + 1) (set_width w l)) = (r', l3)
                 /\ wf l3 /\ ok l3 /\ input l3 = input l /\ name l3 = name l
                 /\ ((r' = EOF /\ (pos l3 = length (input l) \/ In soh (input l)))
                     \/ (r' <> EOF /\ (pos l < pos l3)%nat))
                 /\ pendingText l3 /\ start l3 = start l /\ tokens l3 = tokens l).
      { destruct (r =? byteZ newline).
        - destruct (text_step l w (line l + 1) 1) as (r' & l3 & En & H);
            try assumption; try (destruct Hw; lia).
          exists r', l3. split; [exact En|].
          pose proof (text_step_pending l w (line l + 1) 1 Hpt Hopen r' l3 En) as K.
          tauto.
        - destruct (text_step l w (line l) (col l + 1)) as (r' & l3 & En & H);
            try assumption; try (destruct Hw; lia).
          exists r', l3. split; [exact En|].
          pose proof (text_step_pending l w (line l) (col l + 1) Hpt Hopen r' l3 En) as K.
          tauto. }
      destruct T as (r' & l3 & En & Hw3 & Hk3 & Hi3 & Hn3 & Hcase & Hpt3 & Hs3 & Ht3).
      rewrite En in E.
      destruct (Z.eqb_spec r' EOF) as [Hr1|Hr1].
      * injection E as <-.
        destruct Hcase as [(_ & [Hfin|Hfin])|(? & _)]; [|contradiction|contradiction].
        destruct (flush_scan l3 [] Hw3 Hpt3) as (ts0 & Et0 & Sc0).
        { left. congruence. }
        { rewrite Hi3, Hfin, skipn_all. apply scan_end. }
        exists ts0. rewrite app_nil_r in Sc0. rewrite Et0, Ht3. split; [reflexivity|].
        now rewrite <- Hs3, <- Hi3.
      * destruct Hcase as [(? & _)|(_ & Hlt)]; [contradiction|].
        edestruct (IH l3 Hw3 Hk3) as (ts1 & Et1 & Sc1); try eassumption.
        { now rewrite Hi3. }
        { pose proof (wf_pos l3 Hw3). rewrite Hi3 in *. lia. }
        exists ts1. rewrite Et1, Ht3. split; [reflexivity|].
        now rewrite <- Hs3, <- Hi3.
Qed.

(** ** A scan fits one token list only *)

(** The longest run: two splits of a string into a run of bytes of [what]
    and a rest that does not go on with a byte of [what] are the same. *)
Lemma run_unique (what x x' u u' : gostring) :
  x ++ u = x' ++ u' ->
  Forall (fun c => In c what) x -> Forall (fun c => In c what) x' ->
  startsOutside what u -> startsOutside what u' ->
  x = x' /\ u = u'.
Proof.
  revert x'. induction x as [|c x IH]; intros [|c' x'] E Hx Hx' Hu Hu'; cbn in E.
  - now split.
  - subst u. cbn in Hu. inversion Hx'; subst. contradiction.
  - subst u'. cbn in Hu'. inversion Hx; subst. contradiction.
  - injection E as -> E. inversion Hx; inversion Hx'; subst.
    destruct (IH x' E) as [-> ->]; auto.
Qed.

(** The same for a run that ends before a given byte. *)
Lemma until_unique (d : ascii) (x x' u u' : gostring) :
  x ++ d :: u = x' ++ d :: u' -> ~ In d x -> ~ In d x' -> x = x' /\ u = u'.
Proof.
  revert x'. induction x as [|c x IH]; intros [|c' x'] E Hx Hx'; cbn in E.
  - injection E as ->. now split.
  - injection E as <- _. cbn in Hx'. tauto.
  - injection E as -> _. cbn in Hx. tauto.
  - injection E as -> E. cbn in Hx, Hx'.
    destruct (IH x' E) as [-> ->]; auto.
Qed.

Lemma app_same_length {A : Type} (x x' u u' : list A) :
  x ++ u = x' ++ u' -> length x = length x' -> x = x' /\ u = u'.
Proof.
  revert x'. induction x as [|c x IH]; intros [|c' x'] E H; cbn in *; try discriminate.
  - now split.
  - injection E as -> E. injection H as H. destruct (IH x' E H) as [-> ->]. now split.
Qed.

(** The same for a span that ends at the first place where [stop] holds. *)
Lemma span_unique (stop : gostring -> bool) (x x' u u' : gostring) :
  x ++ u = x' ++ u' ->
  (forall i, (i < length x)%nat -> stop (skipn i (x ++ u)) = false) ->
  (forall i, (i < length x')%nat -> stop (skipn i (x' ++ u')) = false) ->
  u = [] \/ stop u = true -> u' = [] \/ stop u' = true ->
  x = x' /\ u = u'.
Proof.
  intros E Hx Hx' Hu Hu'.
  assert (Hlen : length x = length x').
  { destruct (Nat.lt_trichotomy (length x) (length x')) as [H|[H|H]]; [exfalso|exact H|exfalso].
    - specialize (Hx' _ H). rewrite <- E, skipn_app, skipn_all, Nat.sub_diag in Hx'.
      cbn in Hx'. destruct Hu as [->|Hu]; [|congruence].
      apply (f_equal (@length ascii)) in E. rewrite !length_app in E. cbn in E. lia.
    - specialize (Hx _ H). rewrite E, skipn_app, skipn_all, Nat.sub_diag in Hx.
      cbn in Hx. destruct Hu' as [->|Hu']; [|congruence].
      apply (f_equal (@length ascii)) in E. rewrite !length_app in E. cbn in E. lia. }
  now apply app_same_length.
Qed.

Lemma byteClass_space (c : ascii) : In c tokenSpaceChars -> byteClass c = 1%nat.
Proof. intros H. repeat (destruct H as [<-|H]; [reflexivity|]). destruct H. Qed.

Lemma byteClass_letter (c : ascii) : In c tokenIdentifierChars -> byteClass c = 2%nat.
Proof. intros H. repeat (destruct H as [<-|H]; [reflexivity|]). destruct H. Qed.

Lemma byteClass_digit (c : ascii) : In c tokenDigits -> byteClass c = 3%nat.
Proof. intros H. repeat (destruct H as [<-|H]; [reflexivity|]). destruct H. Qed.

Lemma codeClass_symbol (s sym : gostring) :
  In sym tokenSymbols -> HasPrefix s sym = true -> codeClass s = 5%nat.
Proof.
  intros H Hp. apply HasPrefix_spec in Hp. destruct Hp as (r & ->).
  repeat (destruct H as [<-|H]; [reflexivity|]). destruct H.
Qed.

Lemma tagOpens_not_comment (s : gostring) :
  tagOpens s = true -> HasPrefix s (str "{#") = false.
Proof.
  unfold tagOpens. rewrite orb_true_iff, !HasPrefix_spec.
  intros [(r & ->)|(r & ->)]; now apply HasPrefix_second.
Qed.

Lemma textClass_tag (s : gostring) : tagOpens s = true -> textClass s = 3%nat.
Proof.
  intros H. unfold textClass. now rewrite (tagOpens_not_comment s H), H.
Qed.

Lemma textClass_comment (r : gostring) : textClass (str "{#" ++ r) = 2%nat.
Proof. unfold textClass. now rewrite HasPrefix_app. Qed.

Lemma textClass_html (s : gostring) : s <> [] -> opens s = false -> textClass s = 1%nat.
Proof.
  intros Hs Ho. rewrite opens_split in Ho. apply orb_false_iff in Ho.
  destruct Ho as [H1 H2]. unfold textClass. rewrite H1, H2.
  destruct s; [contradiction | reflexivity].
Qed.

(** The cases of a scan in text mode. *)
Lemma Scan_text_cases (ts : list Token) (s : gostring) :
  Scan TextMode ts s ->
  (textClass s = 0%nat /\ s = [] /\ ts = [])
  \/ (textClass s = 1%nat /\ exists t ts0 rest,
        ts = t :: ts0 /\ s = Val t ++ rest /\ Typ t = TokenHTML /\ Val t <> []
        /\ (forall i, (i < length (Val t))%nat -> opens (skipn i (Val t ++ rest)) = false)
        /\ (rest = [] \/ opens rest = true)
        /\ Scan TextMode ts0 rest)
  \/ (textClass s = 2%nat /\ exists body rest,
        s = str "{#" ++ body ++ str "#}" ++ rest
        /\ (forall i, (i < length body)%nat ->
              HasPrefix (skipn i (body ++ str "#}" ++ rest)) (str "#}") = false)
        /\ Scan TextMode ts rest)
  \/ (textClass s = 3%nat /\ Scan CodeMode ts s).
Proof.
  intros H. inversion H as [m|t ts0 rest Hy Hv Hno Hend H0|body ts0 rest Hnl Hno H0|ts0 s0 Ho H0
                           | | | | | ]; subst.
  - left. repeat split.
  - right; left. rewrite text_plain by (rewrite Hy; discriminate). split.
    + apply textClass_html.
      * intros E. apply app_eq_nil in E. tauto.
      * apply (Hno 0%nat). destruct (Val t); [contradiction | cbn; lia].
    + exists t, ts0, rest. repeat split; assumption.
  - right; right; left. split; [apply textClass_comment|].
    exists body, rest. repeat split; assumption.
  - right; right; right. split; [now apply textClass_tag | assumption].
Qed.

(** The cases of a scan in code mode. *)
Lemma Scan_code_cases (ts : list Token) (s : gostring) :
  Scan CodeMode ts s ->
  (codeClass s = 0%nat /\ s = [] /\ ts = [])
  \/ (codeClass s = 1%nat /\ exists c rest, s = c :: rest /\ Scan CodeMode ts rest)
  \/ (codeClass s = 2%nat /\ exists t ts0 a b rest,
        ts = t :: ts0 /\ s = a ++ b ++ rest /\ Val t = a ++ b /\ a <> []
        /\ Forall (fun c => In c tokenIdentifierChars) a
        /\ Forall (fun c => In c tokenDigits) b
        /\ startsOutside tokenIdentifierChars (b ++ rest)
        /\ startsOutside tokenDigits rest
        /\ ((Typ t = TokenKeyword /\ In (Val t) tokenKeywords)
            \/ (Typ t = TokenIdentifier /\ ~ In (Val t) tokenKeywords))
        /\ Scan CodeMode ts0 rest)
  \/ (codeClass s = 3%nat /\ exists t ts0 rest,
        ts = t :: ts0 /\ s = Val t ++ rest /\ Typ t = TokenNumber /\ Val t <> []
        /\ Forall (fun c => In c tokenDigits) (Val t)
        /\ startsOutside tokenDigits rest
        /\ Scan CodeMode ts0 rest)
  \/ (codeClass s = 4%nat /\ exists t ts0 rest,
        ts = t :: ts0 /\ s = dquote :: Val t ++ dquote :: rest /\ Typ t = TokenString
        /\ ~ In dquote (Val t)
        /\ Scan CodeMode ts0 rest)
  \/ (codeClass s = 5%nat /\ exists t ts0 rest,
        ts = t :: ts0 /\ s = Val t ++ rest /\ Typ t = TokenSymbol
        /\ find (fun sym => HasPrefix s sym) tokenSymbols = Some (Val t)
        /\ Scan (if closesTag (Val t) then TextMode else CodeMode) ts0 rest).
Proof.
  intros H. inversion H as [m| | |
                           |c ts0 rest Hc H0
                           |t ts0 a b rest Ev Ha Hla Hdb Ho1 Ho2 Hk H0
                           |t ts0 rest Hy Hv Hd Ho H0
                           |t ts0 rest Hy Hq H0
                           |t ts0 rest Hy Hf H0]; subst.
  - left. repeat split.
  - right; left. split; [cbn; now apply byteClass_space|]. eauto.
  - right; right; left.
    rewrite text_plain by (destruct Hk as [[-> _]|[-> _]]; discriminate).
    rewrite Ev, <- app_assoc. split.
    + destruct a as [|c a]; [contradiction|]. cbn. apply byteClass_letter.
      now inversion Hla.
    + exists t, ts0, a, b, rest. repeat split; assumption.
  - right; right; right; left. rewrite text_plain by (rewrite Hy; discriminate). split.
    + destruct (Val t) as [|c v]; [contradiction|]. cbn. apply byteClass_digit.
      now inversion Hd.
    + exists t, ts0, rest. repeat split; assumption.
  - right; right; right; right; left. unfold text. rewrite Hy. cbn [Z.eqb TokenString Pos.eqb].
    cbn [app]. rewrite <- app_assoc. cbn [app].
    split; [reflexivity|]. exists t, ts0, rest. repeat split; assumption.
  - right; right; right; right; right.
    rewrite text_plain by (rewrite Hy; discriminate). split.
    + pose proof (find_some _ _ Hf) as [Hin Hp]. now apply codeClass_symbol with (Val t).
    + exists t, ts0, rest. repeat split; assumption.
Qed.

Lemma kinds_cons (t t' : Token) (ts ts' : list Token) :
  Typ t = Typ t' -> Val t = Val t' -> kinds ts = kinds ts' ->
  kinds (t :: ts) = kinds (t' :: ts').
Proof. intros H1 H2 H3. unfold kinds in *. cbn. now rewrite H1, H2, H3. Qed.

(** A string has one scan only: the kinds and the texts of the tokens are
    determined by the string. *)
Lemma Scan_unique_size (n : nat) :
  forall (m : mode) (ts ts' : list Token) (s : gostring),
    (scanSize m s <= n)%nat -> Scan m ts s -> Scan m ts' s -> kinds ts = kinds ts'.
Proof.
  induction n as [|n IH]; intros m ts ts' s Hn H H'.
  { destruct m; unfold scanSize in Hn; [lia|].
    destruct s; [|cbn in Hn; lia].
    apply Scan_nil in H, H'. now subst. }
  destruct m.
  - apply Scan_text_cases in H, H'.
    destruct H as [(C & -> & ->)
                  |[(C & t & ts0 & rest & -> & Es & Hy & Hv & Hno & Hend & H)
                  |[(C & body & rest & Es & Hno & H)
                  |(C & H)]]];
    destruct H' as [(C' & E' & ->)
                   |[(C' & t' & ts0' & rest' & -> & Es' & Hy' & Hv' & Hno' & Hend' & H')
                   |[(C' & body' & rest' & Es' & Hno' & H')
                   |(C' & H')]]];
    try congruence.
    + rewrite Es in Es'.
      destruct (span_unique opens _ _ _ _ Es' Hno Hno' Hend Hend') as [Ev Er].
      subst rest'. apply kinds_cons; [congruence | exact Ev|].
      apply (IH TextMode _ _ rest); [|exact H | exact H'].
      subst s. unfold scanSize in *. rewrite length_app in Hn.
      destruct (Val t); [contradiction | cbn in Hn; lia].
    + rewrite Es in Es'. apply app_inv_head in Es'.
      destruct (span_unique (fun u => HasPrefix u (str "#}")) _ _ _ _ Es' Hno Hno')
        as [Eb Er]; try (right; apply HasPrefix_app).
      apply app_inv_head in Er. subst rest'.
      apply (IH TextMode _ _ rest); [|exact H | exact H'].
      subst s. unfold scanSize in *. rewrite !length_app in Hn. cbn in Hn. lia.
    + apply (IH CodeMode _ _ s); [|exact H | exact H'].
      unfold scanSize in *. lia.
  - apply Scan_code_cases in H, H'.
    destruct H as [(C & -> & ->)
                  |[(C & c & rest & Es & H)
                  |[(C & t & ts0 & a & b & rest & -> & Es & Ev & Hne & Ha & Hb & Ho1 & Ho2 & Hk & H)
                  |[(C & t & ts0 & rest & -> & Es & Hy & Hv & Hd & Ho & H)
                  |[(C & t & ts0 & rest & -> & Es & Hy & Hq & H)
                  |(C & t & ts0 & rest & -> & Es & Hy & Hf & H)]]]]];
    destruct H' as [(C' & E' & ->)
                   |[(C' & c' & rest' & Es' & H')
                   |[(C' & t' & ts0' & a' & b' & rest' & -> & Es' & Ev' & Hne' & Ha' & Hb' & Ho1' & Ho2' & Hk' & H')
                   |[(C' & t' & ts0' & rest' & -> & Es' & Hy' & Hv' & Hd' & Ho' & H')
                   |[(C' & t' & ts0' & rest' & -> & Es' & Hy' & Hq' & H')
                   |(C' & t' & ts0' & rest' & -> & Es' & Hy' & Hf' & H')]]]]];
    try congruence.
    + rewrite Es in Es'. injection Es' as _ Er. subst rest'.
      apply (IH CodeMode _ _ rest); [|exact H | exact H'].
      subst s. unfold scanSize in *. cbn in Hn. lia.
    + rewrite Es in Es'.
      destruct (run_unique tokenIdentifierChars _ _ _ _ Es' Ha Ha' Ho1 Ho1') as [Ea Er].
      destruct (run_unique tokenDigits _ _ _ _ Er Hb Hb' Ho2 Ho2') as [Eb Er'].
      subst a' b' rest'.
      assert (Evv : Val t = Val t') by congruence.
      apply kinds_cons; [|exact Evv|].
      * rewrite Evv in Hk. destruct Hk as [[-> K]|[-> K]], Hk' as [[-> K']|[-> K']];
          try reflexivity; contradiction.
      * apply (IH CodeMode _ _ rest); [|exact H | exact H'].
        subst s. unfold scanSize in *. rewrite !length_app in Hn.
        destruct a; [contradiction | cbn in Hn; lia].
    + rewrite Es in Es'.
      destruct (run_unique tokenDigits _ _ _ _ Es' Hd Hd' Ho Ho') as [Ev Er].
      subst rest'. apply kinds_cons; [congruence | exact Ev|].
      apply (IH CodeMode _ _ rest); [|exact H | exact H'].
      subst s. unfold scanSize in *. rewrite length_app in Hn.
      destruct (Val t) as [|d v]; [contradiction | cbn in Hn; lia].
    + rewrite Es in Es'. injection Es' as Es'.
      destruct (until_unique dquote _ _ _ _ Es' Hq Hq') as [Ev Er].
      subst rest'. apply kinds_cons; [congruence | exact Ev|].
      apply (IH CodeMode _ _ rest); [|exact H | exact H'].
      subst s. unfold scanSize in *. cbn in Hn. rewrite length_app in Hn. cbn in Hn. lia.
    + assert (Ev : Val t = Val t') by congruence.
      rewrite Es, Ev in Es'. apply app_inv_head in Es'. subst rest'.
      apply kinds_cons; [congruence | exact Ev|].
      rewrite <- Ev in H'.
      apply (IH (if closesTag (Val t) then TextMode else CodeMode) _ _ rest);
        [|exact H | exact H'].
      pose proof (find_some _ _ Hf) as [Hin _].
      apply tokenSymbols_nonempty in Hin.
      subst s. unfold scanSize in *. rewrite length_app in Hn.
      destruct (closesTag (Val t)); lia.
Qed.

Lemma Scan_unique (m : mode) (ts ts' : list Token) (s : gostring) :
  Scan m ts s -> Scan m ts' s -> kinds ts = kinds ts'.
Proof. apply (Scan_unique_size (scanSize m s)). lia. Qed.

Lemma lex_scan (q : Z -> gostring) (nm s : gostring) (ts : list Token) :
  ~ In soh s -> lex q nm s = Some (Tokens ts) -> Scan TextMode ts s.
Proof.
  intros Hs. unfold lex.
  destruct (run q (lexFuel s) (newLexer nm s)) as [l|] eqn:E; [|discriminate].
  cbn [option_map]. unfold lexResult. destruct (errored l) eqn:He; [discriminate|].
  intros [= <-].
  destruct (run_scan q (lexFuel s) (newLexer nm s)) with (l' := l) as (ts & Et & H).
  - constructor; cbn; lia.
  - constructor; cbn; [reflexivity | constructor | constructor].
  - exact Hs.
  - intros i Hi. cbn in Hi. lia.
  - unfold lexFuel. cbn. lia.
  - exact E.
  - exact He.
  - cbn in Et, H. now rewrite Et.
Qed.

(** Token lists that do not fit: a comment does not run past its first
    closing delimiter, and literal text is one token, white space
    included. *)
Lemma Scan_not_loose :
  ~ Scan TextMode [] (str "{##}hello{##}")
  /\ ~ Scan TextMode [mkToken TokenHTML (str "a") 1 1; mkToken TokenHTML (str "b") 1 3]
                     (str "a b").
Proof.
  split; intros H.
  - assert (E : lex quoteASCII (str "t") (str "{##}hello{##}")
                = Some (Tokens [mkToken TokenHTML (str "hello") 1 1]))
      by (vm_compute; reflexivity).
    apply lex_scan in E; [|cbn; intuition discriminate].
    pose proof (Scan_unique _ _ _ _ H E). discriminate.
  - assert (E : lex quoteASCII (str "t") (str "a b")
                = Some (Tokens [mkToken TokenHTML (str "a b") 1 1]))
      by (vm_compute; reflexivity).
    apply lex_scan in E; [|cbn; intuition discriminate].
    pose proof (Scan_unique _ _ _ _ H E). discriminate.
Qed.

(** C1 as stated fails, in three ways.  On [{{ a }}] the scan succeeds and
    the token texts concatenate to [{{a}}]: the white space of the tag is
    discarded.  On [A{# note #}B] they concatenate to [AB]: the comment is
    discarded.  On an input with the byte 0x01 in literal text the scan
    succeeds with the text up to that byte only. *)
Lemma roundtrip_counterexample :
  (exists ts, lex quoteASCII (str "t") (str "{{ a }}") = Some (Tokens ts)
              /\ render ts = str "{{a}}" /\ render ts <> str "{{ a }}")
  /\ (exists ts, lex quoteASCII (str "t") (str "A{# note #}B") = Some (Tokens ts)
                 /\ render ts = str "AB" /\ render ts <> str "A{# note #}B")
  /\ (exists ts, lex quoteASCII (str "t") (str "a" ++ soh :: str "b") = Some (Tokens ts)
                 /\ render ts = str "a" ++ [soh]
                 /\ render ts <> str "a" ++ soh :: str "b").
Proof.
  split; [|split]; eexists; (split; [vm_compute; reflexivity|]);
    (split; [reflexivity | discriminate]).
Qed.

(** C1 (round trip), amended.  For an input without the byte 0x01, [lex]
    returns, and when it returns tokens the input splits, from left to right
    and with nothing left over, into the texts of the tokens in order (the
    quotes put back around String texts) and the pieces the scanner
    discards, as [Scan] says: outside tags, HTML texts and whole comments,
    each comment running to the first closing delimiter and holding no
    newline; inside tags, the other tokens and single white-space
    characters.  No other list of token kinds and texts fits the input in
    this way.  In particular, when the input has no white space and no
    character [#], the token texts alone concatenate to the input. *)
Theorem roundtrip_with_gaps (q : Z -> gostring) (nm s : gostring) :
  ~ In soh s ->
  (exists r, lex q nm s = Some r)
  /\ (forall ts, lex q nm s = Some (Tokens ts) ->
        Scan TextMode ts s
        /\ forall ts', Scan TextMode ts' s -> kinds ts' = kinds ts)
  /\ (forall ts, lex q nm s = Some (Tokens ts) ->
        (forall c, In c s -> ~ In c tokenSpaceChars /\ c <> "#"%char) ->
        render ts = s).
Proof.
  intros Hs. split; [apply lex_total|]. split.
  - intros ts E. pose proof (lex_scan q nm s ts Hs E) as H. split; [exact H|].
    intros ts' H'. exact (Scan_unique TextMode ts' ts s H' H).
  - intros ts E Hc. apply Recon_exact; [now apply (lex_tokens q nm) | exact Hc].
Qed.

(** * Instances of the further properties *)

Lemma next_stays_in_bounds_witness :
  (pos inIdentifier <= pos (snd (next inIdentifier)) <= length (input inIdentifier))%nat
  /\ pos (snd (next inIdentifier)) = (pos inIdentifier + width (snd (next inIdentifier)))%nat.
Proof.
  assert (H : (pos inIdentifier <= length (input inIdentifier))%nat) by (cbn; lia).
  destruct (next_stays_in_bounds inIdentifier H) as (H1 & H2 & _).
  split; [exact H1 | exact H2].
Defined.

Lemma first_tag_position_witness :
  exists more,
    [mkToken TokenHTML (["195"; "169"; "010"]%char ++ str "b") 1 1;
     mkToken TokenSymbol (str "{{") 2 2;
     mkToken TokenIdentifier (str "x") 2 4;
     mkToken TokenSymbol (str "}}") 2 6]
    = [mkToken TokenHTML (["195"; "169"; "010"]%char ++ str "b") 1 1]
      ++ mkToken TokenSymbol (str "{{") 2 2 :: more.
Proof.
  refine (first_tag_position quoteASCII (str "t") (["195"; "169"; "010"]%char ++ str "b")
            (str "{{") (str " x }}") _ _ _ _).
  - intros c H. cbn in H.
    repeat (destruct H as [<-|H]; [split; discriminate|]). destruct H.
  - left. reflexivity.
  - vm_compute. reflexivity.
Defined.

Lemma accept_one_byte_witness :
  asciiTable tokenIdentifierChars /\ ~ In soh tokenIdentifierChars
  /\ accept tokenIdentifierChars inIdentifier
     = (true, set_pos 5 (set_width 1 inIdentifier)).
Proof.
  split; [exact asciiTable_ident|]. split; [exact soh_not_ident|].
  destruct (accept_one_byte tokenIdentifierChars inIdentifier asciiTable_ident soh_not_ident)
    as (w & E).
  exact E.
Defined.

Lemma acceptRun_longest_witness :
  exists p w,
    acceptRun 10 tokenIdentifierChars inIdentifier
    = Some (set_pos p (set_width w inIdentifier))
    /\ (pos inIdentifier <= p <= length (input inIdentifier))%nat.
Proof.
  destruct (acceptRun_longest tokenIdentifierChars 10 inIdentifier
              asciiTable_ident soh_not_ident) as (p & w & E & Hb & _).
  - cbn. lia.
  - cbn. lia.
  - exists p, w. split; [exact E | exact Hb].
Defined.

Lemma code_space_skipped_witness :
  stateCode quoteASCII 5 (mkLexer (str "t") (str "{{ a }}") 2 2 0 [] false 1 3 1 3)
  = stateCode quoteASCII 4 (mkLexer (str "t") (str "{{ a }}") 3 3 1 [] false 1 3 1 4).
Proof.
  apply (code_space_skipped quoteASCII 4
           (mkLexer (str "t") (str "{{ a }}") 2 2 0 [] false 1 3 1 3) " "%char).
  - reflexivity.
  - reflexivity.
  - cbn. auto.
Defined.

Lemma unknown_character_witness :
  exists l',
    stateCode quoteASCII 1 (mkLexer (str "t") (str "{{ ~ }}") 3 3 0 [] false 1 3 1 4)
    = Some (l', None)
    /\ errored l' = true
    /\ tokens l' = [mkToken TokenError (str "Unknown character: '~' (126)") 1 3].
Proof.
  destruct (unknown_character quoteASCII 0
              (mkLexer (str "t") (str "{{ ~ }}") 3 3 0 [] false 1 3 1 4) "~"%char)
    as (l' & E & He & Ht & _).
  - reflexivity.
  - reflexivity.
  - cbn. intuition discriminate.
  - cbn. intuition discriminate.
  - cbn. intuition discriminate.
  - discriminate.
  - intros sym Hin. repeat (destruct Hin as [<-|Hin]; [reflexivity|]). destruct Hin.
  - exists l'. split; [exact E|]. split; [exact He | exact Ht].
Defined.

Lemma string_literal_witness :
  exists l',
    stateString 20 (mkLexer (str "t") (str "{{ " ++ dquote :: str "a b" ++ dquote :: str " }}")
                            3 4 1 [] false 1 3 1 4)
    = Some (l', Some StateCode)
    /\ tokens l' = [mkToken TokenString (str "a b") 1 3]
    /\ pos l' = 8%nat /\ col l' = 7.
Proof.
  destruct (string_literal 20
              (mkLexer (str "t") (str "{{ " ++ dquote :: str "a b" ++ dquote :: str " }}")
                       3 4 1 [] false 1 3 1 4) (str "a b") (str " }}"))
    as (l' & E & Ht & Hp & _ & _ & Hc & _).
  - cbn. lia.
  - reflexivity.
  - cbn. intuition discriminate.
  - cbn. intuition discriminate.
  - exists l'. split; [exact E|]. split; [exact Ht|]. split; [exact Hp | exact Hc].
Defined.

Lemma plain_text_single_token_witness :
  lex quoteASCII (str "t") (str "a } b") = Some (Tokens [mkToken TokenHTML (str "a } b") 1 1]).
Proof.
  apply (plain_text_single_token quoteASCII (str "t") (str "a } b")).
  intros c H. cbn in H.
  repeat (destruct H as [<-|H]; [split; discriminate|]). destruct H.
Defined.

Lemma comment_skipped_witness :
  exists l2,
    run quoteASCII 10 (mkLexer (str "t") (str "A{# note #}B") 0 1 1 [] false 1 1 1 2)
    = run quoteASCII 9 l2
    /\ tokens l2 = [mkToken TokenHTML (str "A") 1 1]
    /\ pos l2 = 11%nat /\ col l2 = 12 /\ startcol l2 = 2.
Proof.
  destruct (comment_skipped quoteASCII 9
              (mkLexer (str "t") (str "A{# note #}B") 0 1 1 [] false 1 1 1 2)
              (str " note ") (str "B"))
    as (l2 & E & _ & Ht & _ & Hp & _ & _ & Hc & _ & Hsc).
  - reflexivity.
  - intros c H. cbn in H.
    repeat (destruct H as [<-|H]; [split; discriminate|]). destruct H.
  - intros i Hi. cbn in Hi.
    do 6 (destruct i as [|i]; [reflexivity|]). lia.
  - cbn. lia.
  - exists l2. split; [exact E|]. split; [exact Ht|]. split; [exact Hp|].
    split; [exact Hc | exact Hsc].
Defined.

Lemma comment_not_closed_witness :
  exists l',
    run quoteASCII 10 (mkLexer (str "t") (str "ab{# c") 0 2 1 [] false 1 1 1 3) = Some l'
    /\ errored l' = true
    /\ tokens l' = [mkToken TokenHTML (str "ab") 1 1;
                    mkToken TokenError (str "Single-line comment not closed.") 1 3].
Proof.
  destruct (comment_not_closed quoteASCII 9
              (mkLexer (str "t") (str "ab{# c") 0 2 1 [] false 1 1 1 3) (str " c") [])
    as (l' & E & He & Ht).
  - reflexivity.
  - intros c H. cbn in H.
    repeat (destruct H as [<-|H]; [split; discriminate|]). destruct H.
  - intros i Hi. cbn in Hi.
    do 2 (destruct i as [|i]; [reflexivity|]). lia.
  - exact I.
  - cbn. lia.
  - exists l'. split; [exact E|]. split; [exact He | exact Ht].
Defined.

Lemma tokens_well_formed_witness :
  Forall wellFormed [mkToken TokenSymbol (str "{{") 1 1;
                     mkToken TokenIdentifier (str "a") 1 3;
                     mkToken TokenSymbol (str "}}") 1 5].
Proof.
  apply (tokens_well_formed quoteASCII (str "t") (str "{{ a }}")).
  vm_compute. reflexivity.
Defined.

Lemma Token_String_bounded_witness :
  exists shown,
    Token_String (mkToken TokenIdentifier (str "name") 1 9)
    = str "<Token typ=Identifier (4) val='" ++ shown ++ str "'>"
    /\ shown = str "name".
Proof.
  destruct (Token_String_bounded (mkToken TokenIdentifier (str "name") 1 9))
    as (shown & E & H1 & _).
  - cbn [Typ]. unfold TokenIdentifier. lia.
  - exists shown. split; [exact E|]. apply H1. cbn. lia.
Defined.

Lemma text_counts_characters_witness :
  exists n l',
    (n <= 4)%nat
    /\ (forall f, run quoteASCII (n + f) twoLines = run quoteASCII f l')
    /\ pos l' = 4%nat /\ tokens l' = []
    /\ (line l', col l') = (2, 2).
Proof.
  destruct (text_counts_characters quoteASCII 4 twoLines)
    as (n & l' & Hn & Hrun & _ & _ & Hp & Ht & _ & _ & _ & Hlc).
  - cbn. lia.
  - intros c H. cbn in H.
    repeat (destruct H as [<-|H]; [split; discriminate|]). destruct H.
  - intros c [= <-]. vm_compute. reflexivity.
  - exists n, l'. split; [exact Hn|]. split; [exact Hrun|]. split; [exact Hp|].
    split; [exact Ht | exact Hlc].
Defined.

Lemma roundtrip_with_gaps_witness :
  ~ In soh (str "A{# c #}{{ a }}")
  /\ Scan TextMode [mkToken TokenHTML (str "A") 1 1;
                    mkToken TokenSymbol (str "{{") 1 2;
                    mkToken TokenIdentifier (str "a") 1 11;
                    mkToken TokenSymbol (str "}}") 1 13] (str "A{# c #}{{ a }}").
Proof.
  assert (H : ~ In soh (str "A{# c #}{{ a }}")) by (cbn; intuition discriminate).
  split; [exact H|].
  refine (proj1 (proj1 (proj2 (roundtrip_with_gaps quoteASCII (str "t")
                                 (str "A{# c #}{{ a }}") H)) _ _)).
  vm_compute. reflexivity.
Defined.
